(** * Utterance-level pronunciation scoring (egs/gop_speechocean762/s5/local)

    A shallow embedding of three scripts of the recipe:

    - [compute_pronunciation_score.py]  (modules [Score], [Score64])
    - [aggregate_utterance_scores.py]   (modules [AggUtt], [AggUtt64])
    - [aggregate_ml_scores.py]          (modules [AggML], [AggML64])

    Conventions of the embedding.

    - The scripts are embedded twice.  In the modules [Score], [AggUtt]
      and [AggML] a Python [float] is an exact rational ([Q]) and equality
      of floats is [Qeq] ([==]): rounding, infinities and NaN are outside
      that model, which serves for what the scripts compute from finite
      values up to rounding.  In the modules [Score64], [AggUtt64] and
      [AggML64] a Python [float] is the IEEE 754 binary64 number it is
      ([PrimFloat.float]), with NaN, the infinities, the two zeros and
      the rounding of every operation; the properties that rounding or
      NaN decide are stated there.
    - A Python [str] is a [string] whose characters are code points
      below 256.
    - A Python exception that ends the run is a value [Raise e] of the
      [result] type. *)

From Stdlib Require Import QArith Qabs Qround Lqa Lia NArith ZArith.
From Stdlib Require Import Bool String Ascii DecimalString List Permutation.
From Stdlib Require Import Sorted Morphisms RelationClasses.
From Stdlib Require Import Floats.
Import ListNotations.

Local Open Scope Q_scope.

(** * Part I: the embedding *)

(** ** Exceptions and results *)

(** The exceptions the three scripts can end with.  [SystemExit n] is
    [sys.exit(n)], also reached through [argparse]'s [parser.error]. *)
Inductive exn : Set :=
  | ValueError
  | KeyError
  | UnboundLocalError
  | ZeroDivisionError
  | SystemExit (status : Z).

Inductive result (A : Type) : Type :=
  | Ok (a : A)
  | Raise (e : exn).

Arguments Ok {A} a.
Arguments Raise {A} e.

Definition bind {A B : Type} (r : result A) (k : A -> result B) : result B :=
  match r with
  | Ok a => k a
  | Raise e => Raise e
  end.

Notation "x <- e ;; k" := (bind e (fun x => k))
  (at level 61, e at next level, right associativity).

(** [try: ... except Exception as e: ...; sys.exit(1)]. *)
Definition exit_on_exception {A : Type} (r : result A) : result A :=
  match r with
  | Ok a => Ok a
  | Raise (SystemExit n) => Raise (SystemExit n)
  | Raise _ => Raise (SystemExit 1)
  end.

(** A [for] loop whose body returns one output per element and may raise. *)
Fixpoint for_each {A B : Type} (body : A -> result B) (l : list A)
    : result (list B) :=
  match l with
  | [] => Ok []
  | a :: rest =>
      b <- body a ;;
      bs <- for_each body rest ;;
      Ok (b :: bs)
  end.

(** A [for] loop that threads a state through a body that may raise. *)
Fixpoint for_fold {A S : Type} (body : S -> A -> result S) (s : S)
    (l : list A) : result S :=
  match l with
  | [] => Ok s
  | a :: rest => s' <- body s a ;; for_fold body s' rest
  end.

(** ** Primitives of the run-time that the scripts call

    [float(s)] and [int(s)] of Python and the square root behind
    [np.std] are not code of the recipe; the development is parametric
    in them.  [np.std] returns a float, so [fsqrt] maps rationals to
    rationals; all that is used of it is that it is a function. *)

Class Runtime : Type := {
  py_float : string -> option Q;
  py_int : string -> option Z;
  fsqrt : Q -> Q;
  fsqrt_proper : Proper (Qeq ==> Qeq) fsqrt
}.

(** ** Python built-ins on floats *)

Module Py.

(** Comparison operators of Python on floats. *)
Definition ge (a b : Q) : bool := Qle_bool b a.
Definition gt (a b : Q) : bool := negb (Qle_bool a b).
Definition lt (a b : Q) : bool := negb (Qle_bool b a).

(** [max(a, b)] keeps its first argument unless the second is strictly
    greater; [min(a, b)] keeps it unless the second is strictly smaller. *)
Definition max (a b : Q) : Q := if gt b a then b else a.
Definition min (a b : Q) : Q := if lt b a then b else a.

(** [sorted(l)]: a stable sort, here by insertion, for the order [leb]. *)
Section Sorted.
Context {A : Type} (leb : A -> A -> bool).

Fixpoint insert (x : A) (l : list A) : list A :=
  match l with
  | [] => [x]
  | h :: t => if leb h x then h :: insert x t else x :: h :: t
  end.

Definition sorted (l : list A) : list A :=
  fold_left (fun acc x => insert x acc) l [].

End Sorted.

End Py.

(** ** Python strings *)

Module Str.

Local Open Scope string_scope.

Definition tab : ascii := ascii_of_nat 9.
Definition dot : ascii := "."%char.

(** [str.isspace] on the code points below 256. *)
Definition isspace (c : ascii) : bool :=
  let n := N_of_ascii c in
  (N.leb 9 n && N.leb n 13) || (N.leb 28 n && N.leb n 32)
  || N.eqb n 133 || N.eqb n 160.

Fixpoint lstrip (s : string) : string :=
  match s with
  | EmptyString => EmptyString
  | String c r => if isspace c then lstrip r else s
  end.

Fixpoint rstrip (s : string) : string :=
  match s with
  | EmptyString => EmptyString
  | String c r =>
      match rstrip r with
      | EmptyString => if isspace c then EmptyString else String c EmptyString
      | r' => String c r'
      end
  end.

(** [s.strip()]. *)
Definition strip (s : string) : string := rstrip (lstrip s).

(** [s.split(sep)] for a one-character separator: never empty. *)
Fixpoint split (sep : ascii) (s : string) : list string :=
  match s with
  | EmptyString => [EmptyString]
  | String c r =>
      if Ascii.eqb c sep then EmptyString :: split sep r
      else match split sep r with
           | f :: fs => String c f :: fs
           | [] => [String c EmptyString]
           end
  end.

(** [sep.join(l)]. *)
Definition join (sep : string) (l : list string) : string :=
  String.concat sep l.

(** [sorted] on strings: lexicographic by code point. *)
Definition sorted (l : list string) : list string := Py.sorted String.leb l.

End Str.

(** ** Python dictionaries with string keys

    An association list in insertion order; a key occurs at most once. *)

Module Dict.

Section Dict.
Context {V : Type}.

Definition t : Type := list (string * V).

Definition empty : t := [].

(** [k in d]. *)
Definition mem (k : string) (d : t) : bool :=
  existsb (fun kv => String.eqb (fst kv) k) d.

(** [d[k]]. *)
Fixpoint get (k : string) (d : t) : option V :=
  match d with
  | [] => None
  | (k', v) :: r => if String.eqb k' k then Some v else get k r
  end.

(** [d[k] = v]: replaces the value in place, or appends a new key. *)
Fixpoint set (k : string) (v : V) (d : t) : t :=
  match d with
  | [] => [(k, v)]
  | (k', v') :: r =>
      if String.eqb k' k then (k', v) :: r else (k', v') :: set k v r
  end.

(** [d.keys()], in insertion order. *)
Definition keys (d : t) : list string := map fst d.

End Dict.

Arguments t V : clear implicits.

End Dict.

(** ** Python format specifications *)

Module Fmt.

Local Open Scope string_scope.

(** The integer nearest to [x], ties to the even one. *)
Definition round_half_even (x : Q) : Z :=
  let f := Qfloor x in
  match Qcompare (x - inject_Z f) (1 # 2) with
  | Lt => f
  | Gt => (f + 1)%Z
  | Eq => if Z.even f then f else (f + 1)%Z
  end.

(** [str(n)] for a natural number. *)
Definition decimal (n : N) : string := NilZero.string_of_uint (N.to_uint n).

Fixpoint zeros (n : nat) : string :=
  match n with
  | O => ""
  | S n => String "0" (zeros n)
  end.

(** [n] in decimal, at least [width] digits wide. *)
Definition padded (width : nat) (n : N) : string :=
  let s := decimal n in
  zeros (width - String.length s) ++ s.

(** [format(x, '.4f')]: sign, integer part, point, four digits. *)
Definition fixed4 (x : Q) : string :=
  let n := Z.to_N (round_half_even (Qabs x * 10000)) in
  (if Py.lt x 0 then "-" else "")
  ++ decimal (n / 10000) ++ "." ++ padded 4 (n mod 10000).

End Fmt.

(** ** numpy reductions on one-dimensional float arrays *)

Module Np.

Definition sum (a : list Q) : Q := fold_left Qplus a 0.

Definition size (a : list Q) : Q := inject_Z (Z.of_nat (length a)).

(** [np.mean(a)].  On the empty array numpy returns nan, which has no
    counterpart here; no caller below uses the value in that case. *)
Definition mean (a : list Q) : Q := sum a / size a.

Definition minimum (x y : Q) : Q := if Py.lt x y then x else y.
Definition maximum (x y : Q) : Q := if Py.gt x y then x else y.

(** [np.min(a)], [np.max(a)]: a [ValueError] on the empty array. *)
Definition amin (a : list Q) : result Q :=
  match a with
  | [] => Raise ValueError
  | x :: r => Ok (fold_left minimum r x)
  end.

Definition amax (a : list Q) : result Q :=
  match a with
  | [] => Raise ValueError
  | x :: r => Ok (fold_left maximum r x)
  end.

(** [a[lo:hi]]. *)
Definition slice (lo hi : nat) (a : list Q) : list Q :=
  firstn (hi - lo) (skipn lo a).

(** [np.median(a)]: the mean of the middle element, or of the two middle
    elements, of the sorted array. *)
Definition median (a : list Q) : Q :=
  let part := Py.sorted Qle_bool a in
  let n := length part in
  let index := (n / 2)%nat in
  if Nat.odd n then mean (slice index (index + 1) part)
  else mean (slice (index - 1) (index + 1) part).

(** [np.abs(a)]. *)
Definition absolute (a : list Q) : list Q := map Qabs a.

(** [np.multiply(a, w)]. *)
Definition multiply (a w : list Q) : list Q :=
  map (fun p => fst p * snd p) (combine a w).

(** [np.average(a, weights=w)]. *)
Definition average (a w : list Q) : result Q :=
  let scl := sum w in
  if Qeq_bool scl 0 then Raise ZeroDivisionError
  else Ok (sum (multiply a w) / scl).

(** [np.var(a)] with [ddof=0]. *)
Definition var (a : list Q) : Q :=
  let arrmean := sum a / size a in
  let x := map (fun v => v - arrmean) a in
  let x := map (fun v => v * v) x in
  sum x / size a.

(** [np.std(a)]. *)
Definition std `{Runtime} (a : list Q) : Q := fsqrt (var a).

End Np.

(** ** compute_pronunciation_score.py *)

Module Score.

Local Open Scope string_scope.

(** [gop_to_score(gop_value, baseline=None, min_score=0, max_score=100)]. *)
Definition gop_to_score (gop_value : Q) (baseline : option Q)
    (min_score max_score : Q) : Q :=
  let score :=
    match baseline with
    | Some baseline =>
        let diff := gop_value - baseline in
        if Py.ge diff 0 then max_score
        else if Py.ge diff (-2) then max_score + (diff / 2) * 10
        else if Py.ge diff (-5) then 90 + ((diff + 2) / 3) * 40
        else Py.max (50 + ((diff + 5) / 5) * 50) min_score
    | None =>
        if Py.ge gop_value 0 then 90 + Py.min (gop_value * 2) 10
        else if Py.ge gop_value (-1) then 80 + (gop_value + 1) * 10
        else if Py.ge gop_value (-3) then 60 + ((gop_value + 1) / 2) * 20
        else if Py.ge gop_value (-5) then 40 + ((gop_value + 3) / 2) * 20
        else Py.max (40 + ((gop_value + 5) / 5) * 40) min_score
    end in
  Py.max (Py.min score max_score) min_score.

(** The right-hand sides of the assignments to [score], branch by branch,
    in the order of the [if]/[elif] chains. *)
Definition rel_branch1 (max_score diff : Q) : Q := max_score.
Definition rel_branch2 (max_score diff : Q) : Q := max_score + (diff / 2) * 10.
Definition rel_branch3 (diff : Q) : Q := 90 + ((diff + 2) / 3) * 40.
Definition rel_branch4 (min_score diff : Q) : Q :=
  Py.max (50 + ((diff + 5) / 5) * 50) min_score.

Definition free_branch1 (gop_value : Q) : Q := 90 + Py.min (gop_value * 2) 10.
Definition free_branch2 (gop_value : Q) : Q := 80 + (gop_value + 1) * 10.
Definition free_branch3 (gop_value : Q) : Q := 60 + ((gop_value + 1) / 2) * 20.
Definition free_branch4 (gop_value : Q) : Q := 40 + ((gop_value + 3) / 2) * 20.
Definition free_branch5 (min_score gop_value : Q) : Q :=
  Py.max (40 + ((gop_value + 5) / 5) * 40) min_score.

(** The command-line options that reach the computation. *)
Record Args : Type := {
  baseline : option Q;
  min_score : Q;
  max_score : Q
}.

(** [--min-score] and [--max-score] default to 0.0 and 100.0. *)
Definition default_args : Args :=
  {| baseline := None; min_score := 0; max_score := 100 |}.

(** One element of [results]. *)
Record Result : Type := {
  utt_id : string;
  gop_score : Q;
  pronunciation_score : Q;
  num_phones : Z
}.

(** The body of the reading loop: [None] is [continue]. *)
Definition read_line `{Runtime} (args : Args) (line : string)
    : result (option Result) :=
  let parts := Str.split Str.tab (Str.strip line) in
  if (length parts <? 2)%nat then Ok None
  else
    let utt_id := nth 0 parts "" in
    match py_float (nth 1 parts "") with
    | None => Raise ValueError
    | Some gop_score =>
        num_phones <-
          (if (2 <? length parts)%nat then
             match py_int (nth 2 parts "") with
             | None => Raise ValueError
             | Some n => Ok n
             end
           else Ok 0%Z) ;;
        let pronunciation_score :=
          gop_to_score gop_score (baseline args) (min_score args)
            (max_score args) in
        Ok (Some {| utt_id := utt_id;
                    gop_score := gop_score;
                    pronunciation_score := pronunciation_score;
                    num_phones := num_phones |})
    end.

Fixpoint read_lines `{Runtime} (args : Args) (lines : list string)
    : result (list Result) :=
  match lines with
  | [] => Ok []
  | line :: rest =>
      r <- read_line args line ;;
      rs <- read_lines args rest ;;
      Ok (match r with Some x => x :: rs | None => rs end)
  end.

(** The five grades of the report. *)
Inductive grade : Set :=
  | Excellent | Good | Fair | NeedsImprovement | Poor.

(** The [if]/[elif] chain of the output loop. *)
Definition grade_of (score : Q) : grade :=
  if Py.ge score 90 then Excellent
  else if Py.ge score 80 then Good
  else if Py.ge score 70 then Fair
  else if Py.ge score 60 then NeedsImprovement
  else Poor.

(** The text written for each grade. *)
Definition grade_label (g : grade) : string :=
  match g with
  | Excellent => "Excellent"
  | Good => "Good"
  | Fair => "Fair"
  | NeedsImprovement => "Needs Improvement"
  | Poor => "Poor"
  end.

(** One data row of the report, before formatting. *)
Record Row : Type := {
  row_result : Result;
  row_grade : grade
}.

Definition write_row (r : Result) : Row :=
  let score := pronunciation_score r in
  {| row_result := r; row_grade := grade_of score |}.

(** The report: its rows in the order of [results], and the two averages
    when there is at least one result. *)
Record Report : Type := {
  rows : list Row;
  averages : option (Q * Q)
}.

Definition main `{Runtime} (args : Args) (lines : list string)
    : result Report :=
  results <- exit_on_exception (read_lines args lines) ;;
  Ok {| rows := map write_row results;
        averages :=
          if (0 <? length results)%nat then
            Some (Np.mean (map gop_score results),
                  Np.mean (map pronunciation_score results))
          else None |}.

End Score.

(** ** aggregate_utterance_scores.py *)

Module AggUtt.

Local Open Scope string_scope.

Record Args : Type := {
  method : string;
  skip_silence : bool
}.

(** [choices] of [--method]. *)
Definition choices : list string := ["mean"; "median"; "min"; "weighted"].

(** [get_args()]: [method_opt] is the value given to [--method], if any;
    [skip_silence_flag] tells whether [--skip-silence] was given.  The
    flag is [store_true] with default [True]. *)
Definition get_args (method_opt : option string) (skip_silence_flag : bool)
    : result Args :=
  let m := match method_opt with Some m => m | None => "mean" end in
  if existsb (String.eqb m) choices then
    Ok {| method := m;
          skip_silence := if skip_silence_flag then true else true |}
  else Raise (SystemExit 2).

(** One value of the [scores] dictionary. *)
Record Entry : Type := {
  score : Q;
  num_phones : nat;
  min_gop : Q;
  max_gop : Q;
  std_gop : Q
}.

(** A posterior as [kaldi_io.read_post_scp] yields it: per frame, a list
    of (phone id, value) pairs. *)
Definition post : Type := list (list (Z * Q)).

(** The inner loop [for [(ph, gop)] in gops]: a frame that is not a
    one-element list fails to unpack. *)
Fixpoint gop_values_of (args : Args) (gops : post) : result (list Q) :=
  match gops with
  | [] => Ok []
  | [(ph, gop)] :: rest =>
      vs <- gop_values_of args rest ;;
      if skip_silence args && existsb (Z.eqb ph) [0; 1; 2]%Z then Ok vs
      else Ok (gop :: vs)
  | _ :: _ => Raise ValueError
  end.

(** The [if]/[elif] chain on [args.method]; without a matching branch
    [score] is unbound when it is read. *)
Definition aggregate (m : string) (gop_values : list Q) : result Q :=
  if m =? "mean" then Ok (Np.mean gop_values)
  else if m =? "median" then Ok (Np.median gop_values)
  else if m =? "min" then Np.amin gop_values
  else if m =? "weighted" then
    let weights := Np.absolute gop_values in
    if Py.gt (Np.sum weights) 0 then Np.average gop_values weights
    else Ok (Np.mean gop_values)
  else Raise UnboundLocalError.

(** The body of the outer loop for one [(key, gops)]. *)
Definition body `{Runtime} (args : Args) (scores : Dict.t Entry)
    (kg : string * post) : result (Dict.t Entry) :=
  let (key, gops) := kg in
  gop_values <- gop_values_of args gops ;;
  if (length gop_values =? 0)%nat then Ok scores
  else
    score <- aggregate (method args) gop_values ;;
    min_gop <- Np.amin gop_values ;;
    max_gop <- Np.amax gop_values ;;
    Ok (Dict.set key
          {| score := score;
             num_phones := length gop_values;
             min_gop := min_gop;
             max_gop := max_gop;
             std_gop := Np.std gop_values |} scores).

(** The lines written, one per key of [scores], in sorted key order. *)
Definition write `{Runtime} (scores : Dict.t Entry)
    : result (list (string * Entry)) :=
  for_each
    (fun key =>
       match Dict.get key scores with
       | Some s => Ok (key, s)
       | None => Raise KeyError
       end)
    (Str.sorted (Dict.keys scores)).

Definition main `{Runtime} (method_opt : option string)
    (skip_silence_flag : bool) (table : list (string * post))
    : result (list (string * Entry)) :=
  args <- get_args method_opt skip_silence_flag ;;
  scores <- exit_on_exception (for_fold (body args) Dict.empty table) ;;
  exit_on_exception (write scores).

End AggUtt.

(** ** aggregate_ml_scores.py *)

Module AggML.

Local Open Scope string_scope.

(** [choices] of [--method]. *)
Definition choices : list string := ["mean"; "median"; "min"; "max"].

(** [get_args()]: [method_opt] is the value given to [--method], if any. *)
Definition get_args (method_opt : option string) : result string :=
  let m := match method_opt with Some m => m | None => "mean" end in
  if existsb (String.eqb m) choices then Ok m
  else Raise (SystemExit 2).

(** ['.'.join(phone_key.split('.')[:-1])]. *)
Definition utt_id_of (phone_key : string) : string :=
  Str.join "." (removelast (Str.split Str.dot phone_key)).

(** The body of the reading loop. *)
Definition read_line `{Runtime} (utterance_scores : Dict.t (list Q))
    (line : string) : result (Dict.t (list Q)) :=
  let parts := Str.split Str.tab (Str.strip line) in
  if (length parts <? 2)%nat then Ok utterance_scores
  else
    let phone_key := nth 0 parts "" in
    match py_float (nth 1 parts "") with
    | None => Raise ValueError
    | Some score =>
        let utt_id := utt_id_of phone_key in
        let utterance_scores :=
          if negb (Dict.mem utt_id utterance_scores)
          then Dict.set utt_id [] utterance_scores
          else utterance_scores in
        match Dict.get utt_id utterance_scores with
        | Some l => Ok (Dict.set utt_id (l ++ [score])%list utterance_scores)
        | None => Raise KeyError
        end
    end.

(** One line of the output file, before formatting. *)
Record Row : Type := {
  utt_id : string;
  agg_score : Q;
  num_phones : nat;
  min_score : Q;
  max_score : Q;
  std_score : Q
}.

(** The [if]/[elif] chain on [args.method]: the value assigned to
    [agg_score], or [None] when no branch matches and nothing is
    assigned. *)
Definition aggregate (m : string) (scores : list Q) : result (option Q) :=
  if m =? "mean" then Ok (Some (Np.mean scores))
  else if m =? "median" then Ok (Some (Np.median scores))
  else if m =? "min" then v <- Np.amin scores ;; Ok (Some v)
  else if m =? "max" then v <- Np.amax scores ;; Ok (Some v)
  else Ok None.

(** The body of the writing loop.  [agg_score] is read last, by the
    [f.write]: unbound, it raises there. *)
Definition write_row `{Runtime} (m : string)
    (utterance_scores : Dict.t (list Q)) (utt_id : string) : result Row :=
  match Dict.get utt_id utterance_scores with
  | None => Raise KeyError
  | Some scores =>
      agg_score <- aggregate m scores ;;
      min_score <- Np.amin scores ;;
      max_score <- Np.amax scores ;;
      match agg_score with
      | None => Raise UnboundLocalError
      | Some agg_score =>
          Ok {| utt_id := utt_id;
                agg_score := agg_score;
                num_phones := length scores;
                min_score := min_score;
                max_score := max_score;
                std_score := Np.std scores |}
      end
  end.

(** The text of one line: the f-string of the [f.write]. *)
Definition format_row (r : Row) : string :=
  let tab := String Str.tab "" in
  let newline := String (ascii_of_nat 10) "" in
  utt_id r ++ tab ++ Fmt.fixed4 (agg_score r) ++ tab
  ++ Fmt.decimal (N.of_nat (num_phones r)) ++ tab
  ++ Fmt.fixed4 (min_score r) ++ tab ++ Fmt.fixed4 (max_score r) ++ tab
  ++ Fmt.fixed4 (std_score r) ++ newline.

(** [main()]: the rows of the output file.  An exception of the reading
    loop ends the run before the output file is opened. *)
Definition main `{Runtime} (method_opt : option string)
    (lines : list string) : result (list Row) :=
  m <- get_args method_opt ;;
  utterance_scores <- for_fold read_line Dict.empty lines ;;
  for_each (write_row m utterance_scores)
    (Str.sorted (Dict.keys utterance_scores)).

(** The lines of the output file as text. *)
Definition written `{Runtime} (method_opt : option string)
    (lines : list string) : result (list string) :=
  rows <- main method_opt lines ;;
  Ok (map format_row rows).

End AggML.

(** ** A run-time to evaluate the scripts with

    [float] and [int] on plain decimal literals (an optional sign, digits,
    and for [float] an optional fraction), and a square root rounded down
    to a multiple of 2^-20. *)

Module Plain.

Local Open Scope string_scope.

Definition digit (c : ascii) : option Z :=
  let n := N_of_ascii c in
  if N.leb 48 n && N.leb n 57 then Some (Z.of_N (n - 48)) else None.

(** The value of a string of digits after the digits read so far. *)
Fixpoint digits (acc : Z) (s : string) : option Z :=
  match s with
  | EmptyString => Some acc
  | String c r =>
      match digit c with
      | Some d => digits (10 * acc + d) r
      | None => None
      end
  end.

Definition unsigned_float (s : string) : option Q :=
  match Str.split Str.dot s with
  | [i] =>
      if (String.length i =? 0)%nat then None
      else option_map inject_Z (digits 0 i)
  | [i; f] =>
      if (String.length i + String.length f =? 0)%nat then None
      else
        match digits 0 i, digits 0 f with
        | Some a, Some b =>
            Some (inject_Z a
                  + inject_Z b / inject_Z (10 ^ Z.of_nat (String.length f)))
        | _, _ => None
        end
  | _ => None
  end.

Definition signed {A : Type} (neg : A -> A) (p : string -> option A)
    (s : string) : option A :=
  match Str.strip s with
  | String "-" r => option_map neg (p r)
  | String "+" r => p r
  | r => p r
  end.

Definition float (s : string) : option Q := signed Qopp unsigned_float s.

Definition int (s : string) : option Z :=
  signed Z.opp
    (fun r => if (String.length r =? 0)%nat then None else digits 0 r) s.

Definition sqrt (q : Q) : Q :=
  inject_Z (Z.sqrt (Qfloor (q * inject_Z (4 ^ 20)))) / inject_Z (2 ^ 20).

Lemma sqrt_proper : Proper (Qeq ==> Qeq) sqrt.
Proof.
  intros x y Hxy. unfold sqrt. now rewrite Hxy.
Qed.

Definition runtime : Runtime :=
  {| py_float := float; py_int := int; fsqrt := sqrt;
     fsqrt_proper := sqrt_proper |}.

End Plain.

(** ** Notions to state the properties of aggregate_ml_scores.py with

    What one line contributes to the reading loop, the records of a file,
    and when two outcomes of [main] are the same output. *)

Module Flat.

Local Open Scope string_scope.

(** The fields the loop body works on: those of the stripped line. *)
Definition parts_of (line : string) : list string :=
  Str.split Str.tab (Str.strip line).

(** The fields of the line as it stands in the file. *)
Definition raw_fields (line : string) : list string :=
  Str.split Str.tab line.

Inductive parsed : Type :=
  | Skip
  | Bad
  | Rec (utt_id : string) (score : Q).

Definition parse `{Runtime} (line : string) : parsed :=
  let parts := parts_of line in
  if (length parts <? 2)%nat then Skip
  else match py_float (nth 1 parts "") with
       | None => Bad
       | Some score => Rec (AggML.utt_id_of (nth 0 parts "")) score
       end.

Definition is_bad (p : parsed) : bool :=
  match p with Bad => true | _ => false end.

Definition record_of (p : parsed) : list (string * Q) :=
  match p with Rec u v => [(u, v)] | _ => [] end.

(** The (utterance id, score) records of the lines, in line order. *)
Definition records `{Runtime} (lines : list string) : list (string * Q) :=
  flat_map (fun line => record_of (parse line)) lines.

(** The scores recorded for one utterance id, in line order. *)
Definition values_of (k : string) (recs : list (string * Q)) : list Q :=
  map snd (filter (fun r => fst r =? k) recs).

(** Appending one score to the list of its utterance. *)
Fixpoint append (d : Dict.t (list Q)) (k : string) (v : Q)
    : Dict.t (list Q) :=
  match d with
  | [] => [(k, [v])]
  | (k', l) :: r =>
      if k' =? k then (k', (l ++ [v])%list) :: r
      else (k', l) :: append r k v
  end.

Definition build (recs : list (string * Q)) (d : Dict.t (list Q))
    : Dict.t (list Q) :=
  fold_left (fun d r => append d (fst r) (snd r)) recs d.

Fixpoint has_dot (s : string) : bool :=
  match s with
  | EmptyString => false
  | String c r => Ascii.eqb c Str.dot || has_dot r
  end.

(** Two rows with the same id and count and equal numbers. *)
Definition row_eqv (r r' : AggML.Row) : Prop :=
  AggML.utt_id r = AggML.utt_id r' /\
  AggML.agg_score r == AggML.agg_score r' /\
  AggML.num_phones r = AggML.num_phones r' /\
  AggML.min_score r == AggML.min_score r' /\
  AggML.max_score r == AggML.max_score r' /\
  AggML.std_score r == AggML.std_score r'.

(** Two outcomes that are the same: the same exception, or results
    related by [R]. *)
Definition same_outcome {A : Type} (R : A -> A -> Prop)
    (r r' : result A) : Prop :=
  match r, r' with
  | Ok a, Ok a' => R a a'
  | Raise e, Raise e' => e = e'
  | _, _ => False
  end.

(** The reading of "a line whose second tab-separated field fails to
    parse is fatal" on the fields of the line as it stands in the file. *)
Definition fatal_on_raw_value (rt : Runtime) : Prop :=
  forall mo m lines line,
    AggML.get_args mo = Ok m -> In line lines ->
    (2 <= length (raw_fields line))%nat ->
    py_float (nth 1 (raw_fields line) "") = None ->
    AggML.main mo lines = Raise ValueError.

(** A line that passes the length test and whose key has no dot. *)
Definition dotless (line : string) : bool :=
  (2 <=? length (parts_of line))%nat
  && negb (has_dot (nth 0 (parts_of line) "")).

(** Two optional floats that are both absent or both present and
    equal. *)
Definition same_assigned (a a' : option Q) : Prop :=
  match a, a' with
  | Some v, Some v' => v == v'
  | None, None => True
  | _, _ => False
  end.

End Flat.

(** ** The statistics, after the words of the specification

    These definitions do not come from the code: they say what the
    specification calls the mean, the median, the minimum, the maximum,
    the weighted mean and the population variance of a group of values,
    to compare the results of the scripts with. *)

Module Stat.

Local Open Scope string_scope.

Definition total (l : list Q) : Q := fold_right Qplus 0 l.

Definition count (l : list Q) : Q := inject_Z (Z.of_nat (length l)).

Definition arithmetic_mean (l : list Q) : Q := total l / count l.

Definition is_minimum (l : list Q) (m : Q) : Prop :=
  In m l /\ Forall (fun x => m <= x) l.

Definition is_maximum (l : list Q) (m : Q) : Prop :=
  In m l /\ Forall (fun x => x <= m) l.

(** The middle value of the values put in order; with an even count, the
    average of the two middle values. *)
Definition is_median (l : list Q) (v : Q) : Prop :=
  exists s, Permutation s l /\ StronglySorted Qle s /\
    let n := length l in
    v == if Nat.odd n then nth (n / 2) s 0
         else (nth (n / 2 - 1) s 0 + nth (n / 2) s 0) / 2.

(** The mean with each value weighted by its absolute magnitude. *)
Definition weighted_mean (l : list Q) : Q :=
  total (map (fun x => Qabs x * x) l) / total (map Qabs l).

(** The mean squared deviation from the mean: divisor [count]. *)
Definition population_variance (l : list Q) : Q :=
  total (map (fun x => (x - arithmetic_mean l) * (x - arithmetic_mean l)) l)
  / count l.

(** The statistic a method name stands for. *)
Definition statistic (m : string) (l : list Q) (v : Q) : Prop :=
  if m =? "mean" then v == arithmetic_mean l
  else if m =? "median" then is_median l v
  else if m =? "min" then is_minimum l v
  else if m =? "max" then is_maximum l v
  else if m =? "weighted" then v == weighted_mean l
  else False.

(** The five method names of the specification. *)
Definition methods : list string :=
  ["mean"; "median"; "min"; "max"; "weighted"].

(** The reading of "the aggregator accepts every method of the
    specification", for each of the two aggregating scripts. *)
Definition utt_accepts_all : Prop :=
  forall m flag, In m methods ->
    exists args, AggUtt.get_args (Some m) flag = Ok args.

Definition ml_accepts_all : Prop :=
  forall m, In m methods -> exists m', AggML.get_args (Some m) = Ok m'.

(** The phone ids excluded as silence. *)
Definition is_silence (ph : Z) : bool :=
  (ph =? 0)%Z || (ph =? 1)%Z || (ph =? 2)%Z.

(** The values of the entries that remain once silence is removed. *)
Definition scored_values (entries : list (Z * Q)) : list Q :=
  map snd (filter (fun e => negb (is_silence (fst e))) entries).

End Stat.

(** ** Sample inputs *)

Module Sample.

Local Open Scope string_scope.

Definition tabbed (fields : list string) : string :=
  String.concat (String Str.tab "") fields.

(** One line of an utterance score file: a mean of 0 over 2 phones. *)
Definition score_lines : list string := [tabbed ["utt1"; "0.0000"; "2"]].

Definition score_report : Score.Report :=
  Eval vm_compute in
    match @Score.main Plain.runtime Score.default_args score_lines with
    | Ok r => r
    | Raise _ => {| Score.rows := []; Score.averages := None |}
    end.

Definition score_row : Score.Row :=
  Eval vm_compute in
    hd {| Score.row_result :=
            {| Score.utt_id := ""; Score.gop_score := 0;
               Score.pronunciation_score := 0; Score.num_phones := 0 |};
          Score.row_grade := Score.Poor |}
       (Score.rows score_report).

Definition newline : string := String (ascii_of_nat 10) "".

(** A key followed by a tab and nothing else. *)
Definition empty_value_line : string := tabbed ["utt1.0"; ""] ++ newline.

(** A value that is not a number. *)
Definition bad_value_line : string := tabbed ["utt1.0"; "abc"] ++ newline.

(** The three lines of the end-to-end scenario of the specification, and
    the two lines of the utterance table it expects. *)
Definition scenario_lines : list string :=
  [tabbed ["utt1.0"; "0.5"] ++ newline;
   tabbed ["utt1.1"; "-0.5"] ++ newline;
   tabbed ["utt2.0"; "1.0"] ++ newline].

Definition scenario_table : list string :=
  [tabbed ["utt1"; "0.0000"; "2"; "-0.5000"; "0.5000"; "0.5000"] ++ newline;
   tabbed ["utt2"; "1.0000"; "1"; "1.0000"; "1.0000"; "0.0000"] ++ newline].

(** Lines for two utterances and one key without a dot. *)
Definition flat_lines : list string :=
  [tabbed ["utt2.0"; "1.0"] ++ newline;
   tabbed ["nodot"; "0.25"] ++ newline;
   tabbed ["utt1.0"; "0.5"] ++ newline;
   "short" ++ newline;
   tabbed ["utt1.1"; "-0.5"; "7"] ++ newline].

End Sample.

(** ** Notions to state the properties of aggregate_utterance_scores.py
    with *)

Module Table.

(** Every frame of every posterior holds exactly one (phone id, value)
    pair, as the inner loop requires. *)
Definition well_formed (table : list (string * AggUtt.post)) : Prop :=
  Forall (fun kg => Forall (fun frame => length frame = 1%nat) (snd kg))
    table.

(** The values of a posterior that are not silence, in frame order. *)
Definition scored (gops : AggUtt.post) : list Q :=
  Stat.scored_values (concat gops).

(** The entry [e] holds the aggregate under method [m] and the summary
    statistics of the values [vs]. *)
Definition computed_from `{Runtime} (m : string) (vs : list Q)
    (e : AggUtt.Entry) : Prop :=
  vs <> [] /\
  AggUtt.aggregate m vs = Ok (AggUtt.score e) /\
  AggUtt.num_phones e = length vs /\
  Np.amin vs = Ok (AggUtt.min_gop e) /\
  Np.amax vs = Ok (AggUtt.max_gop e) /\
  AggUtt.std_gop e = Np.std vs.

End Table.

(** ** Notions to state how the output lines are read back *)

Module Text.

Local Open Scope string_scope.

(** The string holds no occurrence of the character. *)
Fixpoint lacks (sep : ascii) (s : string) : bool :=
  match s with
  | EmptyString => true
  | String c r => negb (Ascii.eqb c sep) && lacks sep r
  end.

(** Every character is something else than white space. *)
Fixpoint all_plain (s : string) : bool :=
  match s with
  | EmptyString => true
  | String c r => negb (Str.isspace c) && all_plain r
  end.

(** The string is not empty and does not start with white space. *)
Definition starts_plain (s : string) : bool :=
  match s with
  | EmptyString => false
  | String c _ => negb (Str.isspace c)
  end.

(** The string is not empty and does not end with white space. *)
Fixpoint ends_plain (s : string) : bool :=
  match s with
  | EmptyString => false
  | String c r =>
      match r with
      | EmptyString => negb (Str.isspace c)
      | String _ _ => ends_plain r
      end
  end.

(** The five number fields of an output line, after the id. *)
Definition number_fields (r : AggML.Row) : list string :=
  [Fmt.fixed4 (AggML.agg_score r);
   Fmt.decimal (N.of_nat (AggML.num_phones r));
   Fmt.fixed4 (AggML.min_score r);
   Fmt.fixed4 (AggML.max_score r);
   Fmt.fixed4 (AggML.std_score r)].

End Text.

(** ** More sample inputs *)

Module MoreSamples.

Local Open Scope string_scope.

(** The rows of the end-to-end scenario, and the first of them. *)
Definition scenario_rows : list AggML.Row :=
  Eval vm_compute in
    match @AggML.main Plain.runtime (Some "mean") Sample.scenario_lines with
    | Ok rows => rows
    | Raise _ => []
    end.

Definition empty_id_row : AggML.Row :=
  {| AggML.utt_id := ""; AggML.agg_score := 0.25; AggML.num_phones := 1;
     AggML.min_score := 0.25; AggML.max_score := 0.25;
     AggML.std_score := 0 |}.

Definition scenario_row : AggML.Row :=
  Eval vm_compute in hd empty_id_row scenario_rows.

(** A table of three utterances, one of them all silence. *)
Definition table : list (string * AggUtt.post) :=
  [("utt2", [[(5%Z, 1)]; [(0%Z, 9)]; [(6%Z, 3)]]);
   ("sil", [[(0%Z, 1)]; [(2%Z, 4)]]);
   ("utt1", [[(7%Z, -2)]])].

End MoreSamples.

(** ** Python floats as binary64 numbers

    The modules below model a Python [float] as the IEEE 754 binary64
    number it is ([PrimFloat.float]), with NaN, the infinities, the two
    zeros and the rounding of every operation. *)

Module F64.

Local Open Scope float_scope.

(** [x == x]: false of NaN only. *)
Definition number (x : float) : bool := negb (is_nan x).

(** [float(n)] for a count [n]. *)
Definition of_nat (n : nat) : float :=
  of_uint63 (Uint63Axioms.of_Z (Z.of_nat n)).

(** The rational number a finite binary64 number is. *)
Definition exact (x : spec_float) : Q :=
  match x with
  | S754_finite s m e =>
      let v := if (0 <=? e)%Z then inject_Z (Zpos m * 2 ^ e)
               else Zpos m # Z.to_pos (2 ^ (- e)) in
      if s then Qopp v else v
  | _ => 0%Q
  end.

(** The binary64 number nearest to [m * 10 ^ e10], ties to even. *)
Definition of_decimal (m : positive) (e10 : Z) : float :=
  SF2Prim
    (if (0 <=? e10)%Z then
       binary_normalize prec emax (Zpos m * 10 ^ e10) 0 false
     else
       SFdiv prec emax (S754_finite false m 0)
         (S754_finite false (Z.to_pos (10 ^ (- e10))) 0)).

End F64.

(** The specification of binary64 numbers ([spec_float]): what a number
    is. *)

Module Binary64.

(** A number: anything but NaN. *)
Definition number (x : spec_float) : bool :=
  match x with S754_nan => false | _ => true end.

(** A finite number, zero included. *)
Definition finite (x : spec_float) : bool :=
  match x with S754_zero _ | S754_finite _ _ _ => true | _ => false end.

Definition nonzero (x : spec_float) : bool :=
  match x with S754_zero _ => false | _ => true end.

(** Zero, or finite with an exponent of at most [b]. *)
Definition below (b : Z) (x : spec_float) : Prop :=
  match x with
  | S754_zero _ => True
  | S754_finite _ _ e => (e <= b)%Z
  | _ => False
  end.

(** 1.0, 2.0, 10.0 and -2.0. *)
Definition one : spec_float := Eval vm_compute in Prim2SF 1%float.
Definition two : spec_float := Eval vm_compute in Prim2SF 2%float.
Definition ten : spec_float := Eval vm_compute in Prim2SF 10%float.
Definition minus_two : spec_float := Eval vm_compute in Prim2SF (-2)%float.

End Binary64.

(** ** [float(s)] on the strings Python accepts

    White space around the text, a sign, then [inf], [infinity] or [nan]
    in any case, or a decimal number: digits that may be grouped by
    single underscores, a fraction, an exponent. *)

Module Literal.

Local Open Scope string_scope.

Definition lower (c : ascii) : ascii :=
  let n := N_of_ascii c in
  if N.leb 65 n && N.leb n 90 then ascii_of_N (n + 32) else c.

Fixpoint lowercase (s : string) : string :=
  match s with
  | EmptyString => EmptyString
  | String c r => String (lower c) (lowercase r)
  end.

Definition is_digit (c : ascii) : bool :=
  match Plain.digit c with Some _ => true | None => false end.

(** [digit (["_"] digit)*]: the value after the digits read so far and
    the number of digits. *)
Fixpoint digitpart (after_digit : bool) (acc : Z) (count : nat)
    (s : string) : option (Z * nat) :=
  match s with
  | EmptyString => if after_digit then Some (acc, count) else None
  | String c r =>
      if Ascii.eqb c "_" then
        if after_digit then digitpart false acc count r else None
      else
        match Plain.digit c with
        | Some d => digitpart true (10 * acc + d)%Z (S count) r
        | None => None
        end
  end.

(** A digit part that may be absent. *)
Definition digits_opt (s : string) : option (Z * nat) :=
  match s with
  | EmptyString => Some (0%Z, O)
  | _ => digitpart false 0 O s
  end.

(** The digits of the number as an integer, and the number of them that
    follow the point. *)
Definition mantissa (s : string) : option (Z * nat) :=
  match Str.split Str.dot s with
  | [i] =>
      match digitpart false 0 O i with
      | Some (a, _) => Some (a, O)
      | None => None
      end
  | [i; f] =>
      if ((String.length i + String.length f)%nat =? 0)%nat then None
      else
        match digits_opt i, digits_opt f with
        | Some (a, _), Some (b, k) => Some ((a * 10 ^ Z.of_nat k + b)%Z, k)
        | _, _ => None
        end
  | _ => None
  end.

Definition exponent (s : string) : option Z :=
  match s with
  | String "-" r => option_map (fun p => (- fst p)%Z) (digitpart false 0 O r)
  | String "+" r => option_map fst (digitpart false 0 O r)
  | r => option_map fst (digitpart false 0 O r)
  end.

Definition scaled (m : Z) (e10 : Z) : float :=
  match m with
  | Zpos p => F64.of_decimal p e10
  | _ => PrimFloat.zero
  end.

Definition unsigned (s : string) : option float :=
  let s := lowercase s in
  if (s =? "inf") || (s =? "infinity") then Some PrimFloat.infinity
  else if s =? "nan" then Some PrimFloat.nan
  else
    match Str.split "e" s with
    | [m] =>
        match mantissa m with
        | Some (a, k) => Some (scaled a (- Z.of_nat k))
        | None => None
        end
    | [m; x] =>
        match mantissa m, exponent x with
        | Some (a, k), Some e => Some (scaled a (e - Z.of_nat k))
        | _, _ => None
        end
    | _ => None
    end.

(** [float(s)]. *)
Definition float (s : string) : option float :=
  match Str.strip s with
  | String "-" r => option_map PrimFloat.opp (unsigned r)
  | String "+" r => unsigned r
  | r => unsigned r
  end.

End Literal.

(** [float(s)] as the binary64 scripts see it; the development is
    parametric in it, and [Literal.float] is the instance used to
    evaluate them. *)
Class Runtime64 : Type := { py_float64 : string -> option float }.

Module Plain64.

Definition runtime : Runtime64 := {| py_float64 := Literal.float |}.

End Plain64.

(** ** Python built-ins on binary64 floats *)

Module Py64.

Local Open Scope float_scope.

(** The comparison operators: each is false when an operand is NaN. *)
Definition ge (a b : float) : bool := b <=? a.
Definition gt (a b : float) : bool := b <? a.
Definition lt (a b : float) : bool := a <? b.

(** [max(a, b)] keeps its first argument unless the second is strictly
    greater; [min(a, b)] keeps it unless the second is strictly smaller. *)
Definition max (a b : float) : float := if gt b a then b else a.
Definition min (a b : float) : float := if lt b a then b else a.

End Py64.

(** ** [format(x, '.4f')] on binary64 floats *)

Module Fmt64.

Local Open Scope string_scope.

(** The exact value rounded to four decimals, ties to even; the sign is
    that of the float, also when the digits are all zero. *)
Definition fixed4 (x : float) : string :=
  match Prim2SF x with
  | S754_nan => "nan"
  | S754_infinity s => if s then "-inf" else "inf"
  | S754_zero s => (if s then "-" else "") ++ "0.0000"
  | S754_finite s m e =>
      let v := F64.exact (S754_finite false m e) in
      let n := Z.to_N (Fmt.round_half_even (v * 10000)%Q) in
      (if s then "-" else "")
      ++ Fmt.decimal (n / 10000) ++ "." ++ Fmt.padded 4 (n mod 10000)
  end.

End Fmt64.

(** ** numpy reductions on one-dimensional binary64 arrays *)

Module Np64.

Local Open Scope float_scope.

(** The sum of an array as [np.add.reduce] computes it: fewer than 8
    elements are added from left to right; up to 128 elements are added
    into 8 running sums, which are then added in pairs, and the rest
    follows from left to right; a longer array is split in two halves.
    The reduction starts from 0.0. *)
Definition add8 (r a : list float) : list float :=
  map (fun p => fst p + snd p) (combine r a).

Fixpoint accumulate (k : nat) (r a : list float)
    : list float * list float :=
  match k with
  | O => (r, a)
  | S k => accumulate k (add8 r (firstn 8 a)) (skipn 8 a)
  end.

Definition block (a : list float) : float :=
  let (r, rest) :=
    accumulate (length a / 8 - 1) (firstn 8 a) (skipn 8 a) in
  let r (i : nat) := nth i r 0 in
  let res := ((r 0%nat + r 1%nat) + (r 2%nat + r 3%nat))
             + ((r 4%nat + r 5%nat) + (r 6%nat + r 7%nat)) in
  fold_left add rest res.

Fixpoint pairwise_sum (depth : nat) (a : list float) : float :=
  let n := length a in
  if (n <? 8)%nat then fold_left add a 0
  else if (n <=? 128)%nat then block a
  else
    match depth with
    | O => block a
    | S depth =>
        let n2 := (n / 2)%nat in
        let n2 := (n2 - n2 mod 8)%nat in
        pairwise_sum depth (firstn n2 a) + pairwise_sum depth (skipn n2 a)
    end.

Definition sum (a : list float) : float := 0 + pairwise_sum (length a) a.

(** [np.mean(a)]: the sum divided by the count; nan on the empty array. *)
Definition mean (a : list float) : float := sum a / F64.of_nat (length a).

(** [np.minimum], [np.maximum]: the first operand is kept when it is at
    most (at least) the second or is NaN, so that a NaN operand is
    returned. *)
Definition minimum (x y : float) : float :=
  if (x <=? y) || is_nan x then x else y.
Definition maximum (x y : float) : float :=
  if (y <=? x) || is_nan x then x else y.

(** [np.min(a)], [np.max(a)]: a [ValueError] on the empty array. *)
Definition amin (a : list float) : result float :=
  match a with
  | [] => Raise ValueError
  | x :: r => Ok (fold_left minimum r x)
  end.

Definition amax (a : list float) : result float :=
  match a with
  | [] => Raise ValueError
  | x :: r => Ok (fold_left maximum r x)
  end.

(** [a[lo:hi]]. *)
Definition slice (lo hi : nat) (a : list float) : list float :=
  firstn (hi - lo) (skipn lo a).

(** [np.median(a)]: nan if an element is NaN; else the mean of the middle
    element, or of the two middle elements, of the array put in order. *)
Definition median (a : list float) : float :=
  if existsb is_nan a then nan
  else
    let part := Py.sorted leb a in
    let n := length part in
    let index := (n / 2)%nat in
    if Nat.odd n then mean (slice index (index + 1) part)
    else mean (slice (index - 1) (index + 1) part).

(** [np.abs(a)]. *)
Definition absolute (a : list float) : list float := map abs a.

(** [np.multiply(a, w)]. *)
Definition multiply (a w : list float) : list float :=
  map (fun p => fst p * snd p) (combine a w).

(** [np.average(a, weights=w)]. *)
Definition average (a w : list float) : result float :=
  let scl := sum w in
  if scl =? 0 then Raise ZeroDivisionError
  else Ok (sum (multiply a w) / scl).

(** [np.var(a)] with [ddof=0]. *)
Definition var (a : list float) : float :=
  let arrmean := sum a / F64.of_nat (length a) in
  let x := map (fun v => v - arrmean) a in
  let x := map (fun v => v * v) x in
  sum x / F64.of_nat (length a).

(** [np.std(a)]. *)
Definition std (a : list float) : float := sqrt (var a).

End Np64.

(** ** compute_pronunciation_score.py on binary64 floats *)

Module Score64.

Local Open Scope float_scope.

(** [gop_to_score(gop_value, baseline=None, min_score=0, max_score=100)].
    The integer constants of the source are the floats of the same
    value: Python compares and combines an [int] with a [float] by its
    value. *)
Definition gop_to_score (gop_value : float) (baseline : option float)
    (min_score max_score : float) : float :=
  let score :=
    match baseline with
    | Some baseline =>
        let diff := gop_value - baseline in
        if Py64.ge diff 0 then max_score
        else if Py64.ge diff (-2) then max_score + (diff / 2) * 10
        else if Py64.ge diff (-5) then 90 + ((diff + 2) / 3) * 40
        else Py64.max (50 + ((diff + 5) / 5) * 50) min_score
    | None =>
        if Py64.ge gop_value 0 then 90 + Py64.min (gop_value * 2) 10
        else if Py64.ge gop_value (-1) then 80 + (gop_value + 1) * 10
        else if Py64.ge gop_value (-3) then 60 + ((gop_value + 1) / 2) * 20
        else if Py64.ge gop_value (-5) then 40 + ((gop_value + 3) / 2) * 20
        else Py64.max (40 + ((gop_value + 5) / 5) * 40) min_score
    end in
  Py64.max (Py64.min score max_score) min_score.

(** The value assigned to [score] before the final clamp. *)
Definition raw_score (gop_value : float) (baseline : option float)
    (min_score max_score : float) : float :=
  match baseline with
  | Some baseline =>
      let diff := gop_value - baseline in
      if Py64.ge diff 0 then max_score
      else if Py64.ge diff (-2) then max_score + (diff / 2) * 10
      else if Py64.ge diff (-5) then 90 + ((diff + 2) / 3) * 40
      else Py64.max (50 + ((diff + 5) / 5) * 50) min_score
  | None =>
      if Py64.ge gop_value 0 then 90 + Py64.min (gop_value * 2) 10
      else if Py64.ge gop_value (-1) then 80 + (gop_value + 1) * 10
      else if Py64.ge gop_value (-3) then 60 + ((gop_value + 1) / 2) * 20
      else if Py64.ge gop_value (-5) then 40 + ((gop_value + 3) / 2) * 20
      else Py64.max (40 + ((gop_value + 5) / 5) * 40) min_score
  end.

(** The raw value and the baseline can be compared: both are numbers,
    and they are not the same infinity. *)
Definition comparable (gop_value : float) (baseline : option float) : Prop :=
  F64.number gop_value = true /\
  match baseline with
  | Some b =>
      F64.number b = true /\
      (is_infinity gop_value = true -> is_infinity b = true ->
       gop_value <> b)
  | None => True
  end.

(** The raw value and the baseline cannot be compared: one of them is
    NaN, or they are the same infinity. *)
Definition incomparable (gop_value : float) (baseline : option float)
    : Prop :=
  is_nan gop_value = true \/
  exists b, baseline = Some b /\
    (is_nan b = true \/ (is_infinity gop_value = true /\ gop_value = b)).

(** The reading of "for every raw value, baseline and bounds with
    [min_score <= max_score] the score lies in [[min_score, max_score]]". *)
Definition always_in_range : Prop :=
  forall gop_value baseline min_score max_score,
    (min_score <=? max_score) = true ->
    (min_score <=? gop_to_score gop_value baseline min_score max_score)
      = true /\
    (gop_to_score gop_value baseline min_score max_score <=? max_score)
      = true.

End Score64.

(** ** aggregate_utterance_scores.py on binary64 floats *)

Module AggUtt64.

Local Open Scope string_scope.

Record Entry : Type := {
  score : float;
  num_phones : nat;
  min_gop : float;
  max_gop : float;
  std_gop : float
}.

Definition post : Type := list (list (Z * float)).

Fixpoint gop_values_of (args : AggUtt.Args) (gops : post)
    : result (list float) :=
  match gops with
  | [] => Ok []
  | [(ph, gop)] :: rest =>
      vs <- gop_values_of args rest ;;
      if AggUtt.skip_silence args && existsb (Z.eqb ph) [0; 1; 2]%Z
      then Ok vs
      else Ok (gop :: vs)
  | _ :: _ => Raise ValueError
  end.

Definition aggregate (m : string) (gop_values : list float)
    : result float :=
  if m =? "mean" then Ok (Np64.mean gop_values)
  else if m =? "median" then Ok (Np64.median gop_values)
  else if m =? "min" then Np64.amin gop_values
  else if m =? "weighted" then
    let weights := Np64.absolute gop_values in
    if Py64.gt (Np64.sum weights) 0 then Np64.average gop_values weights
    else Ok (Np64.mean gop_values)
  else Raise UnboundLocalError.

Definition body (args : AggUtt.Args) (scores : Dict.t Entry)
    (kg : string * post) : result (Dict.t Entry) :=
  let (key, gops) := kg in
  gop_values <- gop_values_of args gops ;;
  if (length gop_values =? 0)%nat then Ok scores
  else
    score <- aggregate (AggUtt.method args) gop_values ;;
    min_gop <- Np64.amin gop_values ;;
    max_gop <- Np64.amax gop_values ;;
    Ok (Dict.set key
          {| score := score;
             num_phones := length gop_values;
             min_gop := min_gop;
             max_gop := max_gop;
             std_gop := Np64.std gop_values |} scores).

End AggUtt64.

(** ** aggregate_ml_scores.py on binary64 floats *)

Module AggML64.

Local Open Scope string_scope.

Definition read_line `{Runtime64} (utterance_scores : Dict.t (list float))
    (line : string) : result (Dict.t (list float)) :=
  let parts := Str.split Str.tab (Str.strip line) in
  if (length parts <? 2)%nat then Ok utterance_scores
  else
    let phone_key := nth 0 parts "" in
    match py_float64 (nth 1 parts "") with
    | None => Raise ValueError
    | Some score =>
        let utt_id := AggML.utt_id_of phone_key in
        let utterance_scores :=
          if negb (Dict.mem utt_id utterance_scores)
          then Dict.set utt_id [] utterance_scores
          else utterance_scores in
        match Dict.get utt_id utterance_scores with
        | Some l => Ok (Dict.set utt_id (l ++ [score])%list utterance_scores)
        | None => Raise KeyError
        end
    end.

Record Row : Type := {
  utt_id : string;
  agg_score : float;
  num_phones : nat;
  min_score : float;
  max_score : float;
  std_score : float
}.

Definition aggregate (m : string) (scores : list float)
    : result (option float) :=
  if m =? "mean" then Ok (Some (Np64.mean scores))
  else if m =? "median" then Ok (Some (Np64.median scores))
  else if m =? "min" then v <- Np64.amin scores ;; Ok (Some v)
  else if m =? "max" then v <- Np64.amax scores ;; Ok (Some v)
  else Ok None.

Definition write_row (m : string) (utterance_scores : Dict.t (list float))
    (utt_id : string) : result Row :=
  match Dict.get utt_id utterance_scores with
  | None => Raise KeyError
  | Some scores =>
      agg_score <- aggregate m scores ;;
      min_score <- Np64.amin scores ;;
      max_score <- Np64.amax scores ;;
      match agg_score with
      | None => Raise UnboundLocalError
      | Some agg_score =>
          Ok {| utt_id := utt_id;
                agg_score := agg_score;
                num_phones := length scores;
                min_score := min_score;
                max_score := max_score;
                std_score := Np64.std scores |}
      end
  end.

Definition format_row (r : Row) : string :=
  let tab := String Str.tab "" in
  let newline := String (ascii_of_nat 10) "" in
  utt_id r ++ tab ++ Fmt64.fixed4 (agg_score r) ++ tab
  ++ Fmt.decimal (N.of_nat (num_phones r)) ++ tab
  ++ Fmt64.fixed4 (min_score r) ++ tab ++ Fmt64.fixed4 (max_score r) ++ tab
  ++ Fmt64.fixed4 (std_score r) ++ newline.

Definition main `{Runtime64} (method_opt : option string)
    (lines : list string) : result (list Row) :=
  m <- AggML.get_args method_opt ;;
  utterance_scores <- for_fold read_line Dict.empty lines ;;
  for_each (write_row m utterance_scores)
    (Str.sorted (Dict.keys utterance_scores)).

Definition written `{Runtime64} (method_opt : option string)
    (lines : list string) : result (list string) :=
  rows <- main method_opt lines ;;
  Ok (map format_row rows).

End AggML64.

(** ** Notions to state the properties of a group of binary64 values
    with *)

Module Group64.
Local Open Scope float_scope.

(** No value of the group is NaN. *)
Definition numbers (values : list float) : Prop :=
  Forall (fun x => F64.number x = true) values.

(** [lo] and [hi] are values of the group, and every value lies between
    them. *)
Definition spans (values : list float) (lo hi : float) : Prop :=
  In lo values /\ In hi values /\
  Forall (fun x => (lo <=? x) = true /\ (x <=? hi) = true) values.

(** [lo <= v <= hi]. *)
Definition between (lo v hi : float) : Prop :=
  (lo <=? v) = true /\ (v <=? hi) = true.

(** [x] and [y] are the same number, or both are NaN. *)
Definition same_number (x y : float) : Prop :=
  (x =? y) = true \/ (is_nan x = true /\ is_nan y = true).

(** The aggregate is one of the group's values under the method: the
    minimum, the maximum, the median of an odd number of values, or the
    mean of one value. *)
Definition picks_a_value (m : string) (values : list float) : Prop :=
  m = "min"%string \/ m = "max"%string \/
  (m = "median"%string /\ Nat.odd (length values) = true) \/
  (m = "mean"%string /\ length values = 1%nat).
End Group64.

(** ** Notions to state the properties of aggregate_ml_scores.py on
    binary64 floats with *)

Module Flat64.

Local Open Scope string_scope.

Inductive parsed : Type :=
  | Skip
  | Bad
  | Rec (utt_id : string) (score : float).

Definition parse `{Runtime64} (line : string) : parsed :=
  let parts := Flat.parts_of line in
  if (length parts <? 2)%nat then Skip
  else match py_float64 (nth 1 parts "") with
       | None => Bad
       | Some score => Rec (AggML.utt_id_of (nth 0 parts "")) score
       end.

Definition is_bad (p : parsed) : bool :=
  match p with Bad => true | _ => false end.

Definition record_of (p : parsed) : list (string * float) :=
  match p with Rec u v => [(u, v)] | _ => [] end.

(** The (utterance id, score) records of the lines, in line order. *)
Definition records `{Runtime64} (lines : list string)
    : list (string * float) :=
  flat_map (fun line => record_of (parse line)) lines.

(** The scores recorded for one utterance id, in line order. *)
Definition values_of (k : string) (recs : list (string * float))
    : list float :=
  map snd (filter (fun r => fst r =? k) recs).

(** Appending one score to the list of its utterance. *)
Fixpoint append (d : Dict.t (list float)) (k : string) (v : float)
    : Dict.t (list float) :=
  match d with
  | [] => [(k, [v])]
  | (k', l) :: r =>
      if k' =? k then (k', (l ++ [v])%list) :: r
      else (k', l) :: append r k v
  end.

Definition build (recs : list (string * float)) (d : Dict.t (list float))
    : Dict.t (list float) :=
  fold_left (fun d r => append d (fst r) (snd r)) recs d.

(** The row that the writing loop makes of the group [values] of the
    utterance [k]. *)
Definition row_of (m k : string) (values : list float) (row : AggML64.Row)
    : Prop :=
  AggML64.write_row m [(k, values)] k = Ok row.

(** Two rows for the same utterance and the same scores up to their
    order: the same id and count and, when no score is NaN, a minimum and
    a maximum that are equal and, under every method but the mean, an
    aggregate that is the same number. *)
Definition regrouped (mo : option string) (r r' : AggML64.Row) : Prop :=
  AggML64.utt_id r = AggML64.utt_id r' /\
  AggML64.num_phones r = AggML64.num_phones r' /\
  exists m values values',
    AggML.get_args mo = Ok m /\ Permutation values values' /\
    row_of m (AggML64.utt_id r) values r /\
    row_of m (AggML64.utt_id r') values' r' /\
    (Group64.numbers values ->
     (AggML64.min_score r =? AggML64.min_score r')%float = true /\
     (AggML64.max_score r =? AggML64.max_score r')%float = true /\
     (m <> "mean" ->
      Group64.same_number (AggML64.agg_score r) (AggML64.agg_score r'))).

(** The reading of "for every permutation of the input lines the
    aggregator produces exactly the same output". *)
Definition order_invariant (rt : Runtime64) : Prop :=
  forall mo lines lines',
    Permutation lines lines' ->
    AggML64.written mo lines = AggML64.written mo lines'.

(** The reading of "for every non-empty group the mean lies between the
    minimum and the maximum", on the rows of the output. *)
Definition mean_always_between (rt : Runtime64) : Prop :=
  forall lines rows row,
    AggML64.main (Some "mean") lines = Ok rows -> In row rows ->
    Group64.between (AggML64.min_score row) (AggML64.agg_score row)
      (AggML64.max_score row).

End Flat64.

(** ** Sample inputs for the binary64 scripts *)

Module Sample64.

Local Open Scope string_scope.

Definition line (key value : string) : string :=
  Sample.tabbed [key; value] ++ Sample.newline.

(** Three phones of one utterance with the same score. *)
Definition equal_lines : list string :=
  [line "utt1.0" "-2.99965"; line "utt1.1" "-2.99965";
   line "utt1.2" "-2.99965"].

(** Three phones of one utterance, to be read in this order and in the
    opposite one. *)
Definition mixed_lines : list string :=
  [line "utt1.0" "1.27"; line "utt1.1" "-2.37"; line "utt1.2" "-0.00025"].

(** Two phones of one utterance with the same large score. *)
Definition large_lines : list string :=
  [line "utt1.0" "1.7e308"; line "utt1.1" "1.7e308"].

End Sample64.

(** * Part II: properties *)

(** ** Comparisons, [max] and [min] *)

Module PyFacts.

Lemma ge_true a b : Py.ge a b = true <-> b <= a.
Proof. unfold Py.ge. apply Qle_bool_iff. Qed.

Lemma ge_false a b : Py.ge a b = false <-> a < b.
Proof.
  unfold Py.ge. split; intro H.
  - apply Qnot_le_lt. intro Hle. apply Qle_bool_iff in Hle. congruence.
  - destruct (Qle_bool b a) eqn:E; [|reflexivity].
    apply Qle_bool_iff in E. lra.
Qed.

Lemma gt_true a b : Py.gt a b = true <-> b < a.
Proof. unfold Py.gt. rewrite negb_true_iff. apply (ge_false b a). Qed.

Lemma gt_false a b : Py.gt a b = false <-> a <= b.
Proof. unfold Py.gt. rewrite negb_false_iff. apply (ge_true b a). Qed.

Lemma lt_true a b : Py.lt a b = true <-> a < b.
Proof. unfold Py.lt. rewrite negb_true_iff. apply (ge_false a b). Qed.

Lemma lt_false a b : Py.lt a b = false <-> b <= a.
Proof. unfold Py.lt. rewrite negb_false_iff. apply (ge_true a b). Qed.

Lemma max_spec a b :
  (a < b /\ Py.max a b = b) \/ (b <= a /\ Py.max a b = a).
Proof.
  unfold Py.max. destruct (Py.gt b a) eqn:E.
  - left. apply gt_true in E. auto.
  - right. apply gt_false in E. auto.
Qed.

Lemma min_spec a b :
  (b < a /\ Py.min a b = b) \/ (a <= b /\ Py.min a b = a).
Proof.
  unfold Py.min. destruct (Py.lt b a) eqn:E.
  - left. apply lt_true in E. auto.
  - right. apply lt_false in E. auto.
Qed.

Lemma clamp_id score lo hi :
  lo <= score <= hi -> Py.max (Py.min score hi) lo = score.
Proof.
  intros [Hlo Hhi].
  destruct (min_spec score hi) as [[H1 E1] | [H1 E1]]; [lra|].
  rewrite E1. destruct (max_spec score lo) as [[H2 E2] | [H2 E2]]; [lra|].
  exact E2.
Qed.

End PyFacts.

(** ** The normalizer *)

Module ScoreFacts.

Import Score.

(** Case analysis on a Python comparison, with the order fact in scope. *)
Ltac py_cases :=
  repeat match goal with
  | |- context [Py.ge ?a ?b] =>
      let E := fresh "E" in
      destruct (Py.ge a b) eqn:E;
      [apply PyFacts.ge_true in E | apply PyFacts.ge_false in E]
  end.

(** Which branch [gop_to_score] takes, without a baseline. *)
Lemma free_mode_branches g lo hi :
  let clamp s := Py.max (Py.min s hi) lo in
  (0 <= g -> gop_to_score g None lo hi = clamp (free_branch1 g)) /\
  (-1 <= g < 0 -> gop_to_score g None lo hi = clamp (free_branch2 g)) /\
  (-3 <= g < -1 -> gop_to_score g None lo hi = clamp (free_branch3 g)) /\
  (-5 <= g < -3 -> gop_to_score g None lo hi = clamp (free_branch4 g)) /\
  (g < -5 -> gop_to_score g None lo hi = clamp (free_branch5 lo g)).
Proof.
  cbv zeta. unfold gop_to_score, free_branch1, free_branch2, free_branch3,
    free_branch4, free_branch5.
  repeat split; intros; py_cases; try reflexivity; lra.
Qed.

(** Which branch [gop_to_score] takes, with a baseline. *)
Lemma baseline_mode_branches g b lo hi :
  let clamp s := Py.max (Py.min s hi) lo in
  let diff := g - b in
  (0 <= diff -> gop_to_score g (Some b) lo hi = clamp (rel_branch1 hi diff)) /\
  (-2 <= diff < 0 ->
     gop_to_score g (Some b) lo hi = clamp (rel_branch2 hi diff)) /\
  (-5 <= diff < -2 ->
     gop_to_score g (Some b) lo hi = clamp (rel_branch3 diff)) /\
  (diff < -5 -> gop_to_score g (Some b) lo hi = clamp (rel_branch4 lo diff)).
Proof.
  cbv zeta. unfold gop_to_score, rel_branch1, rel_branch2, rel_branch3,
    rel_branch4.
  repeat split; intros; py_cases; try reflexivity; lra.
Qed.

(** The breakpoints at which the adjoining formulas do agree, for
    [min_score = 0] and [max_score = 100]. *)
Lemma branches_agree_elsewhere :
  rel_branch1 100 0 == rel_branch2 100 0 /\
  rel_branch2 100 (-2) == rel_branch3 (-2) /\
  rel_branch3 (-5) == rel_branch4 0 (-5) /\
  free_branch1 0 == free_branch2 0 /\
  free_branch3 (-3) == free_branch4 (-3).
Proof. repeat split; vm_compute; reflexivity. Qed.

(** Just below -1 the score is at most 60, and just below -5 at least 32:
    the values 80 at -1 and 20 at -5 are jumps of the curve, not limits. *)
Lemma score_left_of_jumps g :
  (-3 <= g < -1 -> gop_to_score g None 0 100 <= 60) /\
  (-6 <= g < -5 -> 32 <= gop_to_score g None 0 100).
Proof.
  destruct (free_mode_branches g 0 100) as [_ [_ [H3 [_ H5]]]].
  cbv zeta in H3, H5.
  assert (E3 : 60 + (g + 1) / 2 * 20 == 70 + 10 * g) by field.
  assert (E5 : 40 + (g + 5) / 5 * 40 == 80 + 8 * g) by field.
  split; intro Hg.
  - rewrite (H3 Hg). unfold free_branch3.
    rewrite PyFacts.clamp_id; [|split]; rewrite E3; lra.
  - rewrite H5 by lra. unfold free_branch5.
    destruct (PyFacts.max_spec (40 + (g + 5) / 5 * 40) 0) as [[Hm E] | [Hm E]];
      rewrite E; rewrite E5 in Hm; [lra|].
    rewrite PyFacts.clamp_id; [|split]; rewrite E5; lra.
Qed.

(** C1 (evaluation of the code where the claim fails).  Without a baseline
    and with [min_score = 0], [max_score = 100], the formulas of the
    branches that meet at -1 give 80 and 60, and those that meet at -5
    give 20 and 40; accordingly [gop_to_score] returns 80 at -1 but 59.99
    at -1.001, and 20 at -5 but 39.992 at -5.001. *)
Theorem free_mode_jumps :
  free_branch2 (-1) == 80 /\ free_branch3 (-1) == 60 /\
  free_branch4 (-5) == 20 /\ free_branch5 0 (-5) == 40 /\
  gop_to_score (-1) None 0 100 == 80 /\
  gop_to_score (-1 - 1 / 1000) None 0 100 == 5999 / 100 /\
  gop_to_score (-5) None 0 100 == 20 /\
  gop_to_score (-5 - 1 / 1000) None 0 100 == 39992 / 1000.
Proof. repeat split; vm_compute; reflexivity. Qed.

Lemma read_line_score `{Runtime} args line r :
  read_line args line = Ok (Some r) ->
  pronunciation_score r =
    gop_to_score (gop_score r) (baseline args) (min_score args)
      (max_score args).
Proof.
  unfold read_line.
  destruct (length _ <? 2)%nat; [discriminate|].
  destruct (py_float _) as [g|]; [|discriminate].
  destruct (2 <? length _)%nat.
  - destruct (py_int _); simpl; [|discriminate].
    intro E. injection E as <-. reflexivity.
  - simpl. intro E. injection E as <-. reflexivity.
Qed.

Lemma read_lines_scores `{Runtime} args lines :
  forall results, read_lines args lines = Ok results ->
  Forall (fun r => pronunciation_score r =
            gop_to_score (gop_score r) (baseline args) (min_score args)
              (max_score args)) results.
Proof.
  induction lines as [|line rest IH]; simpl; intros results E.
  - injection E as <-. constructor.
  - destruct (read_line args line) as [r|] eqn:E1; simpl in E; [|discriminate].
    destruct (read_lines args rest) as [rs|] eqn:E2; simpl in E; [|discriminate].
    injection E as <-. specialize (IH rs eq_refl).
    destruct r as [r|]; [|exact IH].
    constructor; [|exact IH]. now apply read_line_score with (line := line).
Qed.

Lemma exit_on_exception_ok {A} (r : result A) a :
  exit_on_exception r = Ok a -> r = Ok a.
Proof. destruct r as [x|[]]; simpl; congruence. Qed.

(** C7.  In every row of the report the grade is [grade_of] applied to the
    row's pronunciation score, which is the clamped result of
    [gop_to_score]; [grade_of] reads nothing but that score and compares
    it with the constants 90, 80, 70 and 60, so the grade does not depend
    on the baseline, [min_score] or [max_score] otherwise.  A score of 90
    is Excellent and a score of 89.999 is Good. *)
Theorem grade_by_fixed_thresholds :
  (forall (rt : Runtime) args lines report row,
     main args lines = Ok report -> In row (rows report) ->
     pronunciation_score (row_result row) =
       gop_to_score (gop_score (row_result row)) (baseline args)
         (min_score args) (max_score args) /\
     row_grade row = grade_of (pronunciation_score (row_result row))) /\
  (forall score,
     (90 <= score -> grade_of score = Excellent) /\
     (80 <= score < 90 -> grade_of score = Good) /\
     (70 <= score < 80 -> grade_of score = Fair) /\
     (60 <= score < 70 -> grade_of score = NeedsImprovement) /\
     (score < 60 -> grade_of score = Poor)) /\
  grade_of 90 = Excellent /\ grade_of 89.999 = Good.
Proof.
  split; [|split; [|split; reflexivity]].
  - intros rt args lines report row Hmain Hin. unfold main in Hmain.
    destruct (exit_on_exception (read_lines args lines)) as [results|] eqn:E;
      simpl in Hmain; [|discriminate].
    apply exit_on_exception_ok in E. injection Hmain as <-. simpl in Hin.
    apply in_map_iff in Hin. destruct Hin as [r [<- Hr]].
    pose proof (read_lines_scores args lines results E) as Hall.
    rewrite Forall_forall in Hall. split; [|reflexivity].
    simpl. now apply Hall.
  - intro score. unfold grade_of.
    repeat split; intros; py_cases; try reflexivity; lra.
Qed.

Lemma grade_by_fixed_thresholds_witness :
  @main Plain.runtime default_args Sample.score_lines
    = Ok Sample.score_report /\
  In Sample.score_row (rows Sample.score_report) /\
  row_grade Sample.score_row = Excellent.
Proof.
  split; [vm_compute; reflexivity|].
  split; [left; reflexivity|].
  destruct (proj1 grade_by_fixed_thresholds Plain.runtime default_args
              Sample.score_lines Sample.score_report Sample.score_row)
    as [_ Hg]; [vm_compute; reflexivity | left; reflexivity |].
  rewrite Hg. reflexivity.
Defined.

End ScoreFacts.

(** ** [sorted] *)

Module SortFacts.

Section Generic.
Context {A : Type} (leb : A -> A -> bool) (eqv : A -> A -> Prop).
Context (eqv_equiv : Equivalence eqv).
Hypothesis leb_total : forall a b, leb a b = true \/ leb b a = true.
Hypothesis leb_trans :
  forall a b c, leb a b = true -> leb b c = true -> leb a c = true.
Hypothesis leb_antisym :
  forall a b, leb a b = true -> leb b a = true -> eqv a b.
Hypothesis leb_proper : Proper (eqv ==> eqv ==> eq) leb.

Local Abbreviation insert := (Py.insert leb).
Local Abbreviation sorted := (Py.sorted leb).
Local Abbreviation le := (fun a b => leb a b = true).

Lemma leb_false_flip a b : leb a b = false -> leb b a = true.
Proof. intro H. destruct (leb_total a b); congruence. Qed.

Lemma insert_perm x l : Permutation (insert x l) (x :: l).
Proof.
  induction l as [|h t IH]; simpl; [reflexivity|].
  destruct (leb h x); [|reflexivity].
  rewrite IH. apply perm_swap.
Qed.

(** [sorted] as a right fold over the reversed list. *)
Lemma sorted_fold_right l : sorted l = fold_right insert [] (rev l).
Proof.
  unfold Py.sorted. now rewrite <- fold_left_rev_right.
Qed.

Lemma fold_insert_perm l : Permutation (fold_right insert [] l) l.
Proof.
  induction l as [|h t IH]; simpl; [reflexivity|].
  rewrite insert_perm. now constructor.
Qed.

Lemma sorted_perm l : Permutation (sorted l) l.
Proof.
  rewrite sorted_fold_right, fold_insert_perm. symmetry.
  apply Permutation_rev.
Qed.

Lemma insert_sorted x l :
  StronglySorted le l -> StronglySorted le (insert x l).
Proof.
  induction 1 as [|h t Hs IH Hh]; simpl.
  - repeat constructor.
  - destruct (leb h x) eqn:E.
    + constructor; [exact IH|].
      rewrite Forall_forall in *. intros y Hy.
      apply (Permutation_in _ (insert_perm x t)) in Hy.
      destruct Hy as [<- | Hy]; auto.
    + apply leb_false_flip in E.
      constructor; [now constructor|].
      constructor; [exact E|].
      rewrite Forall_forall in *. intros y Hy.
      apply leb_trans with h; auto.
Qed.

Lemma sorted_sorted l : StronglySorted le (sorted l).
Proof.
  rewrite sorted_fold_right.
  induction (rev l) as [|h t IH]; simpl; [constructor|].
  now apply insert_sorted.
Qed.

Lemma insert_eqv x l l' :
  Forall2 eqv l l' -> Forall2 eqv (insert x l) (insert x l').
Proof.
  induction 1 as [|h h' t t' Hh Ht IH]; simpl.
  - repeat constructor. reflexivity.
  - rewrite (leb_proper h h' Hh x x (reflexivity x)).
    destruct (leb h' x).
    + now constructor.
    + constructor; [reflexivity|]. now constructor.
Qed.

Lemma Forall2_eqv_refl l : Forall2 eqv l l.
Proof. induction l; constructor; [reflexivity | assumption]. Qed.

Lemma Forall2_eqv_trans l1 l2 l3 :
  Forall2 eqv l1 l2 -> Forall2 eqv l2 l3 -> Forall2 eqv l1 l3.
Proof.
  intro H. revert l3. induction H as [|a b l1 l2 Hab H12 IH]; intros l3 H23.
  - inversion H23. constructor.
  - inversion H23 as [|b' c l2' l3' Hbc H23']; subst.
    constructor; [now transitivity b | now apply IH].
Qed.

Lemma insert_two x y t :
  Forall2 eqv (if leb y x then y :: x :: t else x :: y :: t)
              (if leb x y then x :: y :: t else y :: x :: t).
Proof.
  destruct (leb y x) eqn:Eyx, (leb x y) eqn:Exy.
  - constructor; [now apply leb_antisym|].
    constructor; [now apply leb_antisym | apply Forall2_eqv_refl].
  - apply Forall2_eqv_refl.
  - apply Forall2_eqv_refl.
  - apply leb_false_flip in Eyx. congruence.
Qed.

Lemma insert_comm x y l :
  Forall2 eqv (insert x (insert y l)) (insert y (insert x l)).
Proof.
  induction l as [|h t IH]; simpl.
  - apply insert_two.
  - destruct (leb h y) eqn:Ehy, (leb h x) eqn:Ehx; simpl;
      rewrite ?Ehy, ?Ehx.
    + constructor; [reflexivity | exact IH].
    + assert (Exy : leb x y = true).
      { apply leb_trans with h; [now apply leb_false_flip | exact Ehy]. }
      simpl. rewrite ?Exy, ?Ehy. apply Forall2_eqv_refl.
    + assert (Eyx : leb y x = true).
      { apply leb_trans with h; [now apply leb_false_flip | exact Ehx]. }
      simpl. rewrite ?Eyx, ?Ehx. apply Forall2_eqv_refl.
    + apply insert_two.
Qed.

Lemma fold_insert_perm_eqv l l' :
  Permutation l l' ->
  Forall2 eqv (fold_right insert [] l) (fold_right insert [] l').
Proof.
  induction 1 as [|x l l' _ IH|x y l|l1 l2 l3 _ IH1 _ IH2]; simpl.
  - constructor.
  - now apply insert_eqv.
  - apply insert_comm.
  - now apply Forall2_eqv_trans with (fold_right insert [] l2).
Qed.

(** Sorting two permutations of a list gives the same list, up to [eqv]. *)
Lemma sorted_perm_eqv l l' :
  Permutation l l' -> Forall2 eqv (sorted l) (sorted l').
Proof.
  intro HP. rewrite !sorted_fold_right. apply fold_insert_perm_eqv.
  now rewrite <- !Permutation_rev.
Qed.

End Generic.

(** *** Floats *)

Lemma Qle_bool_total a b : Qle_bool a b = true \/ Qle_bool b a = true.
Proof.
  rewrite !Qle_bool_iff. destruct (Qlt_le_dec a b); [left|right]; lra.
Qed.

Lemma Qle_bool_trans a b c :
  Qle_bool a b = true -> Qle_bool b c = true -> Qle_bool a c = true.
Proof. rewrite !Qle_bool_iff. lra. Qed.

Lemma sorted_Q_perm l : Permutation (Py.sorted Qle_bool l) l.
Proof. apply sorted_perm. Qed.

Lemma sorted_Q_sorted l : StronglySorted Qle (Py.sorted Qle_bool l).
Proof.
  pose proof (sorted_sorted Qle_bool Qle_bool_total Qle_bool_trans l) as H.
  induction H as [|h t Hs IH Hh]; constructor; [exact IH|].
  rewrite Forall_forall in *. intros y Hy. apply Qle_bool_iff. auto.
Qed.

(** *** Strings *)

Lemma ascii_compare_refl c : Ascii.compare c c = Eq.
Proof. unfold Ascii.compare. apply N.compare_refl. Qed.

Lemma string_leb_trans a b c :
  String.leb a b = true -> String.leb b c = true -> String.leb a c = true.
Proof.
  unfold String.leb. revert b c.
  induction a as [|x a IH]; intros [|y b] [|z c]; simpl;
    try reflexivity; try discriminate.
  unfold Ascii.compare.
  destruct (N.compare_spec (N_of_ascii x) (N_of_ascii y)) as [Exy|Exy|Exy];
    try discriminate;
    destruct (N.compare_spec (N_of_ascii y) (N_of_ascii z)) as [Eyz|Eyz|Eyz];
    try discriminate; intros H1 H2.
  - replace (N_of_ascii x ?= N_of_ascii z)%N with Eq
      by (symmetry; apply N.compare_eq_iff; congruence).
    now apply IH with b.
  - replace (N_of_ascii x ?= N_of_ascii z)%N with Lt
      by (symmetry; apply N.compare_lt_iff; lia).
    reflexivity.
  - replace (N_of_ascii x ?= N_of_ascii z)%N with Lt
      by (symmetry; apply N.compare_lt_iff; lia).
    reflexivity.
  - replace (N_of_ascii x ?= N_of_ascii z)%N with Lt
      by (symmetry; apply N.compare_lt_iff; lia).
    reflexivity.
Qed.

Lemma Forall2_eq {A} (l l' : list A) : Forall2 eq l l' -> l = l'.
Proof. induction 1; congruence. Qed.

Lemma sorted_str_perm l : Permutation (Str.sorted l) l.
Proof. apply sorted_perm. Qed.

Lemma sorted_str_sorted l :
  StronglySorted (fun a b => String.leb a b = true) (Str.sorted l).
Proof. apply sorted_sorted; [exact String.leb_total | exact string_leb_trans]. Qed.

(** Sorting two permutations of a list of strings gives the same list. *)
Lemma sorted_str_perm_eq l l' :
  Permutation l l' -> Str.sorted l = Str.sorted l'.
Proof.
  intro HP. apply Forall2_eq. unfold Str.sorted.
  apply sorted_perm_eqv; auto.
  - exact eq_equivalence.
  - exact String.leb_total.
  - exact string_leb_trans.
  - exact String.leb_antisym.
  - intros a a' -> b b' ->. reflexivity.
Qed.

End SortFacts.

(** ** The numpy reductions *)

Module NpFacts.

Lemma sum_acc l : forall a, fold_left Qplus l a == a + Np.sum l.
Proof.
  unfold Np.sum. induction l as [|x l IH]; intro a; simpl.
  - ring.
  - rewrite (IH (a + x)), (IH (0 + x)). ring.
Qed.

Lemma sum_cons x l : Np.sum (x :: l) == x + Np.sum l.
Proof. unfold Np.sum at 1. simpl. rewrite sum_acc. ring. Qed.

Lemma sum_app l1 l2 : Np.sum (l1 ++ l2) == Np.sum l1 + Np.sum l2.
Proof.
  induction l1 as [|x l1 IH]; simpl.
  - unfold Np.sum at 2. simpl. ring.
  - rewrite !sum_cons, IH. ring.
Qed.

Lemma size_cons x l : Np.size (x :: l) == 1 + Np.size l.
Proof.
  unfold Np.size. cbn [length]. rewrite Nat2Z.inj_succ, <- Z.add_1_l.
  rewrite inject_Z_plus. reflexivity.
Qed.

Lemma size_nonneg l : 0 <= Np.size l.
Proof.
  unfold Np.size. change 0 with (inject_Z 0). rewrite <- Zle_Qle. lia.
Qed.

Lemma size_pos l : l <> [] -> 0 < Np.size l.
Proof.
  destruct l as [|x l]; [congruence|]. intros _.
  rewrite size_cons. pose proof (size_nonneg l). lra.
Qed.

Lemma mean_times_size l : l <> [] -> Np.mean l * Np.size l == Np.sum l.
Proof.
  intro Hne. pose proof (size_pos l Hne). unfold Np.mean. field. lra.
Qed.

Lemma mean_one x : Np.mean [x] == x.
Proof. unfold Np.mean, Np.sum, Np.size. simpl. field. Qed.

Lemma mean_two x y : Np.mean [x; y] == (x + y) / 2.
Proof. unfold Np.mean, Np.sum, Np.size. simpl. field. Qed.

(** *** Minimum and maximum *)

Lemma minimum_spec x y :
  (x < y /\ Np.minimum x y = x) \/ (y <= x /\ Np.minimum x y = y).
Proof.
  unfold Np.minimum. destruct (Py.lt x y) eqn:E.
  - left. apply PyFacts.lt_true in E. auto.
  - right. apply PyFacts.lt_false in E. auto.
Qed.

Lemma maximum_spec x y :
  (y < x /\ Np.maximum x y = x) \/ (x <= y /\ Np.maximum x y = y).
Proof.
  unfold Np.maximum. destruct (Py.gt x y) eqn:E.
  - left. apply PyFacts.gt_true in E. auto.
  - right. apply PyFacts.gt_false in E. auto.
Qed.

Lemma fold_minimum_spec r : forall x,
  let m := fold_left Np.minimum r x in
  In m (x :: r) /\ Forall (fun y => m <= y) (x :: r).
Proof.
  induction r as [|y r IH]; intro x; cbn zeta.
  - simpl. split; [now left|]. constructor; [lra | constructor].
  - cbn [fold_left]. destruct (IH (Np.minimum x y)) as [Hin Hall].
    remember (fold_left Np.minimum r (Np.minimum x y)) as m eqn:Em. clear Em.
    split.
    + destruct Hin as [Hm | Hm]; [|right; now right].
      rewrite <- Hm.
      destruct (minimum_spec x y) as [[_ ->] | [_ ->]];
        [now left | right; now left].
    + inversion Hall as [|? ? Hhd Htl]; subst.
      destruct (minimum_spec x y) as [[Hxy E] | [Hxy E]]; rewrite E in Hhd;
        (constructor; [lra|]); (constructor; [lra | exact Htl]).
Qed.

Lemma fold_maximum_spec r : forall x,
  let m := fold_left Np.maximum r x in
  In m (x :: r) /\ Forall (fun y => y <= m) (x :: r).
Proof.
  induction r as [|y r IH]; intro x; cbn zeta.
  - simpl. split; [now left|]. constructor; [lra | constructor].
  - cbn [fold_left]. destruct (IH (Np.maximum x y)) as [Hin Hall].
    remember (fold_left Np.maximum r (Np.maximum x y)) as m eqn:Em. clear Em.
    split.
    + destruct Hin as [Hm | Hm]; [|right; now right].
      rewrite <- Hm.
      destruct (maximum_spec x y) as [[_ ->] | [_ ->]];
        [now left | right; now left].
    + inversion Hall as [|? ? Hhd Htl]; subst.
      destruct (maximum_spec x y) as [[Hxy E] | [Hxy E]]; rewrite E in Hhd;
        (constructor; [lra|]); (constructor; [lra | exact Htl]).
Qed.

(** [np.min] returns an element of the array that is below all of them. *)
Lemma amin_spec l m :
  Np.amin l = Ok m -> In m l /\ Forall (fun y => m <= y) l.
Proof.
  destruct l as [|x r]; simpl; [discriminate|].
  intro E. injection E as <-. apply fold_minimum_spec.
Qed.

Lemma amax_spec l m :
  Np.amax l = Ok m -> In m l /\ Forall (fun y => y <= m) l.
Proof.
  destruct l as [|x r]; simpl; [discriminate|].
  intro E. injection E as <-. apply fold_maximum_spec.
Qed.

Lemma amin_ok l : l <> [] -> exists m, Np.amin l = Ok m.
Proof. destruct l; [congruence|]. intros _. simpl. eauto. Qed.

Lemma amax_ok l : l <> [] -> exists m, Np.amax l = Ok m.
Proof. destruct l; [congruence|]. intros _. simpl. eauto. Qed.

(** *** Median *)

Lemma skipn_nth {A} (d : A) l : forall k,
  (k < length l)%nat -> skipn k l = nth k l d :: skipn (S k) l.
Proof.
  induction l as [|x l IH]; intros k Hk; simpl in Hk; [lia|].
  destruct k as [|k]; [reflexivity|].
  cbn [skipn nth]. rewrite (IH k) by lia. reflexivity.
Qed.

Lemma slice_one l k :
  (k < length l)%nat -> Np.slice k (k + 1) l = [nth k l 0].
Proof.
  intro Hk. unfold Np.slice. replace (k + 1 - k)%nat with 1%nat by lia.
  rewrite (skipn_nth 0 l k Hk). reflexivity.
Qed.

Lemma slice_two l k :
  (1 <= k < length l)%nat ->
  Np.slice (k - 1) (k + 1) l = [nth (k - 1) l 0; nth k l 0].
Proof.
  intro Hk. unfold Np.slice.
  replace (k + 1 - (k - 1))%nat with 2%nat by lia.
  rewrite (skipn_nth 0 l (k - 1)) by lia.
  replace (S (k - 1)) with k by lia.
  rewrite (skipn_nth 0 l k) by lia. reflexivity.
Qed.

Lemma sorted_length l : length (Py.sorted Qle_bool l) = length l.
Proof. apply Permutation_length, SortFacts.sorted_Q_perm. Qed.

Lemma half_lt n : (0 < n)%nat -> (n / 2 < n)%nat.
Proof. intro H. apply Nat.div_lt; lia. Qed.

Lemma even_half_pos n : (0 < n)%nat -> Nat.odd n = false -> (1 <= n / 2)%nat.
Proof.
  intros Hn Hodd. destruct n as [|[|n]]; [lia | discriminate |].
  change (S (S n)) with (2 + n)%nat.
  replace (2 + n)%nat with (n + 1 * 2)%nat by lia.
  rewrite Nat.div_add by lia. lia.
Qed.

(** With an odd number of elements the median is the middle element of
    the sorted array. *)
Lemma median_odd a :
  Nat.odd (length a) = true ->
  Np.median a == nth (length a / 2) (Py.sorted Qle_bool a) 0.
Proof.
  intro Hodd. unfold Np.median. rewrite sorted_length, Hodd.
  assert (0 < length a)%nat by (destruct a; [discriminate | simpl; lia]).
  rewrite slice_one by (rewrite sorted_length; now apply half_lt).
  apply mean_one.
Qed.

(** With an even number it is the mean of the two middle elements. *)
Lemma median_even a :
  a <> [] -> Nat.odd (length a) = false ->
  Np.median a ==
    (nth (length a / 2 - 1) (Py.sorted Qle_bool a) 0
     + nth (length a / 2) (Py.sorted Qle_bool a) 0) / 2.
Proof.
  intros Hne Hodd. unfold Np.median. rewrite sorted_length, Hodd.
  assert (0 < length a)%nat by (destruct a; [congruence | simpl; lia]).
  rewrite slice_two.
  - apply mean_two.
  - rewrite sorted_length. split; [now apply even_half_pos | now apply half_lt].
Qed.

(** *** Variance and standard deviation *)

Local Abbreviation sq_dev := (fun mu v : Q => (v - mu) * (v - mu)).

(** [np.var] is the sum of the squared deviations from the mean, divided
    by the number of elements. *)
Lemma var_unfold a :
  Np.var a = Np.sum (map (sq_dev (Np.mean a)) a) / Np.size a.
Proof. unfold Np.var, Np.mean. now rewrite map_map. Qed.

End NpFacts.

(** ** The reductions compute the statistics of the specification *)

Module StatFacts.

Local Open Scope string_scope.

Lemma sum_total l : Np.sum l == Stat.total l.
Proof.
  induction l as [|x l IH]; [reflexivity|].
  rewrite NpFacts.sum_cons, IH. reflexivity.
Qed.

Lemma total_eqv l l' : Forall2 Qeq l l' -> Stat.total l == Stat.total l'.
Proof.
  induction 1 as [|x y l l' Hxy _ IH]; simpl; [reflexivity|].
  now rewrite Hxy, IH.
Qed.

Lemma mean_arithmetic l : Np.mean l == Stat.arithmetic_mean l.
Proof.
  unfold Np.mean, Stat.arithmetic_mean. rewrite sum_total. reflexivity.
Qed.

Lemma amin_is_minimum l m : Np.amin l = Ok m -> Stat.is_minimum l m.
Proof. apply NpFacts.amin_spec. Qed.

Lemma amax_is_maximum l m : Np.amax l = Ok m -> Stat.is_maximum l m.
Proof. apply NpFacts.amax_spec. Qed.

Lemma median_is_median l : l <> [] -> Stat.is_median l (Np.median l).
Proof.
  intro Hne. exists (Py.sorted Qle_bool l).
  split; [apply SortFacts.sorted_Q_perm|].
  split; [apply SortFacts.sorted_Q_sorted|].
  cbv zeta. destruct (Nat.odd (length l)) eqn:Hodd.
  - now apply NpFacts.median_odd.
  - now apply NpFacts.median_even.
Qed.

Lemma multiply_absolute l :
  Forall2 Qeq (Np.multiply l (Np.absolute l))
              (map (fun x => Qabs x * x) l).
Proof.
  unfold Np.multiply, Np.absolute.
  induction l as [|x l IH]; simpl; constructor; [ring | exact IH].
Qed.

Lemma average_weighted l :
  0 < Np.sum (Np.absolute l) ->
  exists v, Np.average l (Np.absolute l) = Ok v /\
            v == Stat.weighted_mean l.
Proof.
  intro Hpos. unfold Np.average.
  destruct (Qeq_bool (Np.sum (Np.absolute l)) 0) eqn:E.
  - apply Qeq_bool_iff in E. lra.
  - eexists. split; [reflexivity|].
    unfold Stat.weighted_mean.
    rewrite !sum_total, (total_eqv _ _ (multiply_absolute l)).
    reflexivity.
Qed.

Lemma var_population l : Np.var l == Stat.population_variance l.
Proof.
  rewrite NpFacts.var_unfold. unfold Stat.population_variance.
  rewrite sum_total. change (Np.size l) with (Stat.count l).
  apply Qdiv_comp; [|reflexivity].
  apply total_eqv.
  pose proof (mean_arithmetic l) as Hmu. revert Hmu.
  generalize (Np.mean l), (Stat.arithmetic_mean l). intros mu mu' Hmu.
  induction l as [|x l IH]; simpl; constructor; [|exact IH].
  now rewrite Hmu.
Qed.

Lemma absolute_total_nonneg l : 0 <= Np.sum (Np.absolute l).
Proof.
  induction l as [|x l IH]; [unfold Np.sum; simpl; lra|].
  unfold Np.absolute in *. cbn [map]. rewrite NpFacts.sum_cons.
  pose proof (Qabs_nonneg x). lra.
Qed.

(** A zero sum of magnitudes means that every value is zero. *)
Lemma absolute_total_zero l :
  Np.sum (Np.absolute l) == 0 -> Forall (fun x => x == 0) l.
Proof.
  induction l as [|x l IH]; intro Hz; constructor.
  - unfold Np.absolute in Hz. cbn [map] in Hz.
    rewrite NpFacts.sum_cons in Hz.
    pose proof (absolute_total_nonneg l) as Hl. unfold Np.absolute in Hl.
    pose proof (Qabs_nonneg x) as Hx.
    assert (Hx0 : Qabs x == 0) by lra.
    revert Hx0. apply Qabs_case; intros; lra.
  - apply IH. unfold Np.absolute in *. cbn [map] in Hz.
    rewrite NpFacts.sum_cons in Hz.
    pose proof (absolute_total_nonneg l) as Hl. unfold Np.absolute in Hl.
    pose proof (Qabs_nonneg x) as Hx. lra.
Qed.

Lemma sum_zero l : Forall (fun x => x == 0) l -> Np.sum l == 0.
Proof.
  induction 1 as [|x l Hx _ IH]; [reflexivity|].
  rewrite NpFacts.sum_cons, Hx, IH. reflexivity.
Qed.

Lemma mean_zero l : Forall (fun x => x == 0) l -> Np.mean l == 0.
Proof.
  intro H. unfold Np.mean. rewrite (sum_zero l H).
  unfold Qdiv. ring.
Qed.

End StatFacts.

(** ** aggregate_utterance_scores.py *)

Module AggUttFacts.

Import AggUtt.
Local Open Scope string_scope.

Lemma get_args_ok m flag args :
  get_args (Some m) flag = Ok args ->
  method args = m /\ skip_silence args = true /\ In m choices.
Proof.
  unfold get_args. destruct (existsb (String.eqb m) choices) eqn:E;
    [|discriminate].
  intro H. injection H as <-. simpl. repeat split.
  - now destruct flag.
  - apply existsb_exists in E. destruct E as [c [Hc Hmc]].
    apply String.eqb_eq in Hmc. now subst.
Qed.

Lemma get_args_accepts m flag :
  In m choices ->
  get_args (Some m) flag = Ok {| method := m; skip_silence := true |}.
Proof.
  intro Hin. unfold get_args.
  replace (existsb (String.eqb m) choices) with true.
  - now destruct flag.
  - symmetry. apply existsb_exists. exists m. split; [exact Hin|].
    apply String.eqb_refl.
Qed.

(** The inner loop keeps the values of the entries that are not silence,
    in order, when each frame holds one entry. *)
Lemma gop_values_of_entries args entries :
  skip_silence args = true ->
  gop_values_of args (map (fun e => [e]) entries)
    = Ok (Stat.scored_values entries).
Proof.
  intro Hskip. unfold Stat.scored_values.
  induction entries as [|[ph gop] rest IH]; [reflexivity|].
  cbn [map gop_values_of]. rewrite IH. cbn [bind]. rewrite Hskip.
  cbn [andb filter fst].
  replace (existsb (Z.eqb ph) [0; 1; 2]%Z) with (Stat.is_silence ph).
  - destruct (Stat.is_silence ph); reflexivity.
  - unfold Stat.is_silence. cbn [existsb].
    rewrite orb_false_r, orb_assoc, !(Z.eqb_sym ph). reflexivity.
Qed.

(** The method chain succeeds on a non-empty list for each accepted
    method. *)
Lemma aggregate_ok m values :
  In m choices -> values <> [] -> exists v, aggregate m values = Ok v.
Proof.
  intros Hin Hne. unfold aggregate.
  destruct Hin as [<- | [<- | [<- | [<- | []]]]]; cbn [String.eqb Ascii.eqb Bool.eqb];
    try (eexists; reflexivity).
  - now apply NpFacts.amin_ok.
  - destruct (Py.gt (Np.sum (Np.absolute values)) 0) eqn:E.
    + apply PyFacts.gt_true in E.
      destruct (StatFacts.average_weighted values E) as [v [Hv _]]. eauto.
    + eexists. reflexivity.
Qed.

Lemma length_zero_iff {A} (l : list A) : (length l =? 0)%nat = true <-> l = [].
Proof.
  rewrite Nat.eqb_eq. split; [apply length_zero_iff_nil | now intros ->].
Qed.

(** One run of the loop body on a group that is empty after filtering. *)
Lemma body_empty `{Runtime} args scores key gops :
  gop_values_of args gops = Ok [] ->
  body args scores (key, gops) = Ok scores.
Proof. intro E. unfold body. rewrite E. reflexivity. Qed.

(** One run of the loop body on a group that is not. *)
Lemma body_nonempty `{Runtime} args scores key gops values v :
  gop_values_of args gops = Ok values -> values <> [] ->
  aggregate (method args) values = Ok v ->
  exists mn mx,
    Np.amin values = Ok mn /\ Np.amax values = Ok mx /\
    body args scores (key, gops) =
      Ok (Dict.set key
            {| score := v; num_phones := length values; min_gop := mn;
               max_gop := mx; std_gop := Np.std values |} scores).
Proof.
  intros E Hne Hv.
  destruct (NpFacts.amin_ok values Hne) as [mn Hmn].
  destruct (NpFacts.amax_ok values Hne) as [mx Hmx].
  exists mn, mx. repeat split; try assumption.
  unfold body. rewrite E. cbn [bind].
  destruct (length values =? 0)%nat eqn:El.
  - apply length_zero_iff in El. contradiction.
  - rewrite Hv, Hmn, Hmx. reflexivity.
Qed.

(** C3.  Whatever the accepted method and whether or not [--skip-silence]
    is given, the loop body for one utterance removes the entries whose
    phone id is 0, 1 or 2 first: a group with nothing left adds no entry,
    and otherwise the entry's score is the method applied to the remaining
    values and its [num_phones], [min_gop], [max_gop] and [std_gop] are
    their count, minimum, maximum and population standard deviation (the
    root, through [fsqrt], of the population variance, divisor count).
    For the entries (0, 1.0), (5, -2.0), (1, 3.0) the entry has
    [num_phones = 1] and [min_gop = max_gop = -2]. *)
Theorem silence_removed_before_statistics (rt : Runtime) :
  (forall m flag args key entries scores,
     get_args (Some m) flag = Ok args ->
     let values := Stat.scored_values entries in
     let gops := map (fun e => [e]) entries in
     (values = [] -> body args scores (key, gops) = Ok scores) /\
     (values <> [] ->
      exists e,
        body args scores (key, gops) = Ok (Dict.set key e scores) /\
        aggregate m values = Ok (score e) /\
        num_phones e = length values /\
        Stat.is_minimum values (min_gop e) /\
        Stat.is_maximum values (max_gop e) /\
        std_gop e == fsqrt (Stat.population_variance values))) /\
  (forall m flag args,
     get_args (Some m) flag = Ok args ->
     exists e,
       body args Dict.empty
         ("utt", [[(0%Z, 1)]; [(5%Z, -2)]; [(1%Z, 3)]]) = Ok [("utt", e)] /\
       num_phones e = 1%nat /\ min_gop e == -2 /\ max_gop e == -2).
Proof.
  assert (General : forall m flag args key entries scores,
     get_args (Some m) flag = Ok args ->
     let values := Stat.scored_values entries in
     let gops := map (fun e => [e]) entries in
     (values = [] -> body args scores (key, gops) = Ok scores) /\
     (values <> [] ->
      exists e,
        body args scores (key, gops) = Ok (Dict.set key e scores) /\
        aggregate m values = Ok (score e) /\
        num_phones e = length values /\
        Stat.is_minimum values (min_gop e) /\
        Stat.is_maximum values (max_gop e) /\
        std_gop e == fsqrt (Stat.population_variance values))).
  { intros m flag args key entries scores Hargs values gops.
    destruct (get_args_ok _ _ _ Hargs) as [Hm [Hskip Hin]].
    pose proof (gop_values_of_entries args entries Hskip) as Hvals.
    fold values gops in Hvals. split.
    - intro Hnil. rewrite Hnil in Hvals. now apply body_empty.
    - intro Hne.
      destruct (aggregate_ok m values Hin Hne) as [v Hv].
      rewrite <- Hm in Hv.
      destruct (body_nonempty args scores key gops values v Hvals Hne Hv)
        as [mn [mx [Hmn [Hmx Hbody]]]].
      eexists. split; [exact Hbody|]. cbn.
      split; [now rewrite <- Hm|].
      repeat split.
      + now apply NpFacts.amin_spec.
      + now apply NpFacts.amin_spec.
      + now apply NpFacts.amax_spec.
      + now apply NpFacts.amax_spec.
      + unfold Np.std. apply fsqrt_proper, StatFacts.var_population. }
  split; [exact General|].
  intros m flag args Hargs.
  destruct (General m flag args "utt"
              [(0%Z, 1); (5%Z, -2); (1%Z, 3)] Dict.empty Hargs)
    as [_ Hex].
  destruct Hex as [e [Hbody [_ [Hn [[Hmin _] [[Hmax _] _]]]]]];
    [discriminate|].
  exists e. split; [exact Hbody|]. split; [exact Hn|].
  cbn in Hmin, Hmax.
  destruct Hmin as [<- | []], Hmax as [<- | []]. split; reflexivity.
Qed.

Lemma silence_removed_before_statistics_witness :
  get_args (Some "median") false
    = Ok {| method := "median"; skip_silence := true |} /\
  exists e,
    @body Plain.runtime {| method := "median"; skip_silence := true |}
      Dict.empty ("utt", [[(0%Z, 1)]; [(5%Z, -2)]; [(1%Z, 3)]])
      = Ok [("utt", e)] /\
    num_phones e = 1%nat /\ min_gop e == -2 /\ max_gop e == -2.
Proof.
  split; [reflexivity|].
  apply (proj2 (silence_removed_before_statistics Plain.runtime)
           "median" false).
  reflexivity.
Defined.

(** C5.  Under the weighted method, when the magnitudes of the values of
    a non-empty group sum to zero, every value is zero and the loop body
    succeeds with the plain mean of the values, which is zero, as the
    group's score. *)
Theorem weighted_zero_sum_gives_mean (rt : Runtime)
    flag args key gops values scores :
  get_args (Some "weighted") flag = Ok args ->
  gop_values_of args gops = Ok values ->
  values <> [] ->
  Np.sum (Np.absolute values) == 0 ->
  Forall (fun x => x == 0) values /\
  exists e,
    body args scores (key, gops) = Ok (Dict.set key e scores) /\
    score e = Np.mean values /\
    score e == Stat.arithmetic_mean values /\
    score e == 0.
Proof.
  intros Hargs Hvals Hne Hz.
  destruct (get_args_ok _ _ _ Hargs) as [Hm _].
  pose proof (StatFacts.absolute_total_zero values Hz) as Hall.
  split; [exact Hall|].
  assert (Hv : aggregate (method args) values = Ok (Np.mean values)).
  { rewrite Hm. unfold aggregate. cbn [String.eqb Ascii.eqb Bool.eqb].
    replace (Py.gt (Np.sum (Np.absolute values)) 0) with false;
      [reflexivity|].
    symmetry. apply PyFacts.gt_false. lra. }
  destruct (body_nonempty args scores key gops values _ Hvals Hne Hv)
    as [mn [mx [_ [_ Hbody]]]].
  eexists. split; [exact Hbody|]. cbn.
  split; [reflexivity|].
  split; [apply StatFacts.mean_arithmetic | now apply StatFacts.mean_zero].
Qed.

Lemma weighted_zero_sum_gives_mean_witness :
  exists e,
    @body Plain.runtime {| method := "weighted"; skip_silence := true |}
      Dict.empty ("utt", [[(7%Z, 0)]; [(1%Z, 5)]; [(8%Z, 0)]])
      = Ok (Dict.set "utt" e Dict.empty) /\
    score e == 0.
Proof.
  destruct (weighted_zero_sum_gives_mean Plain.runtime false
              {| method := "weighted"; skip_silence := true |} "utt"
              [[(7%Z, 0)]; [(1%Z, 5)]; [(8%Z, 0)]] [0; 0] Dict.empty)
    as [_ [e [Hbody [_ [_ Hzero]]]]].
  - reflexivity.
  - reflexivity.
  - discriminate.
  - reflexivity.
  - exists e. split; [exact Hbody | exact Hzero].
Defined.

End AggUttFacts.

(** ** aggregate_ml_scores.py: the reading loop *)

Module ReaderFacts.

Import AggML Flat.
Local Open Scope string_scope.

(** *** The dictionary *)

Lemma get_append k d u v :
  Dict.get k (append d u v) =
    if u =? k then
      Some (match Dict.get k d with Some l => l ++ [v] | None => [v] end)%list
    else Dict.get k d.
Proof.
  induction d as [|[k' l] r IH]; simpl.
  - destruct (u =? k); reflexivity.
  - destruct (k' =? u) eqn:Eu.
    + apply String.eqb_eq in Eu. subst k'. simpl.
      destruct (u =? k); reflexivity.
    + simpl. destruct (k' =? k) eqn:Ek.
      * apply String.eqb_eq in Ek. subst k'.
        rewrite String.eqb_sym, Eu. reflexivity.
      * exact IH.
Qed.

(** The two dictionary updates of the loop body amount to [append]. *)
Lemma body_update d u v :
  let d1 := if negb (Dict.mem u d) then Dict.set u [] d else d in
  exists l, Dict.get u d1 = Some l /\
            Dict.set u (l ++ [v])%list d1 = append d u v.
Proof.
  induction d as [|[k' l'] r IH]; cbn zeta.
  - cbn [Dict.mem existsb negb Dict.set Dict.get].
    rewrite String.eqb_refl. exists []. split; [reflexivity|].
    reflexivity.
  - cbn [Dict.mem existsb fst]. destruct (k' =? u) eqn:Eu.
    + cbn [orb negb Dict.get]. rewrite Eu. exists l'.
      split; [reflexivity|]. simpl. rewrite Eu. reflexivity.
    + cbn [orb]. cbn zeta in IH. fold (Dict.mem u r).
      destruct (negb (Dict.mem u r)) eqn:Em.
      * destruct IH as [l [Hg Hs]]. exists l.
        cbn [Dict.set]. rewrite Eu. cbn [Dict.get Dict.set append].
        rewrite Eu. split; [exact Hg|]. now rewrite Hs.
      * destruct IH as [l [Hg Hs]]. exists l.
        cbn [Dict.get Dict.set append]. rewrite Eu.
        split; [exact Hg|]. now rewrite Hs.
Qed.

(** The loop body in terms of what the line contributes. *)
Lemma read_line_parse `{Runtime} d line :
  read_line d line =
    match parse line with
    | Skip => Ok d
    | Bad => Raise ValueError
    | Rec u v => Ok (append d u v)
    end.
Proof.
  unfold read_line, parse, parts_of.
  destruct (length _ <? 2)%nat; [reflexivity|].
  destruct (py_float _) as [v|]; [|reflexivity].
  destruct (body_update d (utt_id_of (nth 0 (Str.split Str.tab (Str.strip line)) "")) v)
    as [l [Hg Hs]].
  cbn zeta in Hg, Hs. rewrite Hg, Hs. reflexivity.
Qed.

(** The reading loop: the first line with an unparsable value ends it;
    otherwise the records are appended in order. *)
Lemma read_lines_parse `{Runtime} lines : forall d,
  for_fold read_line d lines =
    if existsb (fun line => is_bad (parse line)) lines
    then Raise ValueError
    else Ok (build (records lines) d).
Proof.
  induction lines as [|line rest IH]; intro d; [reflexivity|].
  cbn [for_fold existsb]. rewrite read_line_parse.
  unfold records. cbn [flat_map]. fold (records rest).
  destruct (parse line) as [| |u v]; cbn [bind is_bad orb record_of app].
  - apply IH.
  - reflexivity.
  - rewrite IH. reflexivity.
Qed.

Lemma read_lines_parse_at_empty `{Runtime} lines :
  for_fold read_line Dict.empty lines =
    if existsb (fun line => is_bad (parse line)) lines
    then Raise ValueError
    else Ok (build (records lines) Dict.empty).
Proof. apply read_lines_parse. Qed.

Lemma get_build k recs : forall d,
  Dict.get k (build recs d) =
    match Dict.get k d, values_of k recs with
    | Some l, vs => Some (l ++ vs)%list
    | None, [] => None
    | None, vs => Some vs
    end.
Proof.
  unfold build, values_of.
  induction recs as [|[u v] recs IH]; intro d; cbn [fold_left filter fst snd].
  - simpl. destruct (Dict.get k d); [now rewrite app_nil_r | reflexivity].
  - rewrite IH, get_append.
    destruct (u =? k) eqn:E; cbn [map snd].
    + destruct (Dict.get k d) as [l|].
      * now rewrite <- app_assoc.
      * reflexivity.
    + reflexivity.
Qed.

Lemma get_build_empty k recs :
  Dict.get k (build recs Dict.empty) =
    match values_of k recs with [] => None | vs => Some vs end.
Proof. rewrite get_build. reflexivity. Qed.

Lemma get_None_keys {V} k (d : Dict.t V) :
  Dict.get k d = None <-> ~ In k (Dict.keys d).
Proof.
  induction d as [|[k' v] r IH]; simpl.
  - tauto.
  - destruct (k' =? k) eqn:E.
    + apply String.eqb_eq in E. split; [discriminate | tauto].
    + apply String.eqb_neq in E. rewrite IH. tauto.
Qed.

Lemma keys_append d u v :
  Dict.keys (append d u v) =
    if Dict.mem u d then Dict.keys d else (Dict.keys d ++ [u])%list.
Proof.
  induction d as [|[k' l] r IH]; [reflexivity|].
  cbn [append Dict.mem existsb fst]. destruct (k' =? u) eqn:E.
  - reflexivity.
  - cbn [orb Dict.keys map fst]. fold (Dict.mem u r).
    unfold Dict.keys in IH. rewrite IH.
    destruct (Dict.mem u r); reflexivity.
Qed.

Lemma mem_keys {V} u (d : Dict.t V) :
  Dict.mem u d = true <-> In u (Dict.keys d).
Proof.
  unfold Dict.mem, Dict.keys. rewrite existsb_exists, in_map_iff.
  split; intros [[k v] [H1 H2]]; exists (k, v); simpl in *.
  - apply String.eqb_eq in H2. auto.
  - subst. split; [assumption | apply String.eqb_refl].
Qed.

Lemma keys_append_NoDup d u v :
  NoDup (Dict.keys d) -> NoDup (Dict.keys (append d u v)).
Proof.
  intro Hnd. rewrite keys_append. destruct (Dict.mem u d) eqn:E; [exact Hnd|].
  apply NoDup_app; [exact Hnd | repeat constructor; simpl; tauto |].
  intros x Hx [<- | []].
  apply mem_keys in Hx. congruence.
Qed.

Lemma keys_build_NoDup recs : forall d,
  NoDup (Dict.keys d) -> NoDup (Dict.keys (build recs d)).
Proof.
  unfold build. induction recs as [|[u v] recs IH]; intros d Hnd; simpl.
  - exact Hnd.
  - apply IH. now apply keys_append_NoDup.
Qed.

(** The keys of the dictionary are the ids that have a record. *)
Lemma keys_build_In k recs :
  In k (Dict.keys (build recs Dict.empty)) <-> values_of k recs <> [].
Proof.
  split.
  - intros Hin Hnil.
    assert (Hg : Dict.get k (build recs Dict.empty) = None)
      by (rewrite get_build_empty, Hnil; reflexivity).
    apply get_None_keys in Hg. contradiction.
  - intro Hne. destruct (in_dec string_dec k
                           (Dict.keys (build recs Dict.empty))) as [|Hn];
      [assumption|].
    apply get_None_keys in Hn. rewrite get_build_empty in Hn.
    destruct (values_of k recs); [congruence | discriminate].
Qed.

(** *** Reordering the lines *)

Lemma filter_perm {A} (f : A -> bool) l l' :
  Permutation l l' -> Permutation (filter f l) (filter f l').
Proof.
  induction 1 as [|x l l' _ IH|x y l|l1 l2 l3 _ IH1 _ IH2]; simpl.
  - constructor.
  - destruct (f x); [now constructor | exact IH].
  - destruct (f x), (f y); try reflexivity. apply perm_swap.
  - now transitivity (filter f l2).
Qed.

Lemma existsb_perm {A} (f : A -> bool) l l' :
  Permutation l l' -> existsb f l = existsb f l'.
Proof.
  intro HP.
  destruct (existsb f l) eqn:E, (existsb f l') eqn:E'; try reflexivity.
  - apply existsb_exists in E. destruct E as [x [Hx Hf]].
    apply (Permutation_in _ HP) in Hx.
    assert (existsb f l' = true) by (apply existsb_exists; eauto).
    congruence.
  - apply existsb_exists in E'. destruct E' as [x [Hx Hf]].
    apply (Permutation_in _ (Permutation_sym HP)) in Hx.
    assert (existsb f l = true) by (apply existsb_exists; eauto).
    congruence.
Qed.

End ReaderFacts.

(** ** aggregate_ml_scores.py: the writing loop and [main] *)

Module AggMLFacts.

Import AggML Flat.
Local Open Scope string_scope.

Lemma ml_get_args_ok mo m : get_args mo = Ok m -> In m choices.
Proof.
  unfold get_args.
  destruct (existsb _ choices) eqn:E; [|discriminate].
  intro H. injection H as <-.
  apply existsb_exists in E. destruct E as [c [Hc Hmc]].
  apply String.eqb_eq in Hmc. now subst.
Qed.

Lemma ml_get_args_accepts m : In m choices -> get_args (Some m) = Ok m.
Proof.
  intro Hin. unfold get_args.
  replace (existsb (String.eqb m) choices) with true; [reflexivity|].
  symmetry. apply existsb_exists. exists m. split; [exact Hin|].
  apply String.eqb_refl.
Qed.

Lemma ml_aggregate_ok m scores :
  In m choices -> scores <> [] ->
  exists v, aggregate m scores = Ok (Some v).
Proof.
  intros Hin Hne. unfold aggregate.
  destruct Hin as [<- | [<- | [<- | [<- | []]]]];
    cbn [String.eqb Ascii.eqb Bool.eqb]; try (eexists; reflexivity).
  - destruct (NpFacts.amin_ok scores Hne) as [v ->]. eexists. reflexivity.
  - destruct (NpFacts.amax_ok scores Hne) as [v ->]. eexists. reflexivity.
Qed.

(** The writing loop body on a group that is not empty. *)
Lemma write_row_ok `{Runtime} m d k scores :
  In m choices -> Dict.get k d = Some scores -> scores <> [] ->
  exists v mn mx,
    aggregate m scores = Ok (Some v) /\ Np.amin scores = Ok mn /\
    Np.amax scores = Ok mx /\
    write_row m d k =
      Ok {| utt_id := k; agg_score := v; num_phones := length scores;
            min_score := mn; max_score := mx;
            std_score := Np.std scores |}.
Proof.
  intros Hin Hg Hne.
  destruct (ml_aggregate_ok m scores Hin Hne) as [v Hv].
  destruct (NpFacts.amin_ok scores Hne) as [mn Hmn].
  destruct (NpFacts.amax_ok scores Hne) as [mx Hmx].
  exists v, mn, mx. repeat split; try assumption.
  unfold write_row. rewrite Hg, Hv, Hmn, Hmx. reflexivity.
Qed.

Lemma write_row_utt_id `{Runtime} m d k row :
  write_row m d k = Ok row -> utt_id row = k.
Proof.
  unfold write_row. destruct (Dict.get k d) as [scores|]; [|discriminate].
  destruct (aggregate m scores) as [[v|]|]; [| |discriminate];
    (destruct (Np.amin scores); [|discriminate]);
    (destruct (Np.amax scores); [|discriminate]);
    cbn [bind]; [|discriminate].
  intro E. injection E as <-. reflexivity.
Qed.

Lemma for_each_utt_ids `{Runtime} m d ks : forall rows,
  for_each (write_row m d) ks = Ok rows -> map utt_id rows = ks.
Proof.
  induction ks as [|k ks IH]; intros rows E; cbn [for_each] in E.
  - injection E as <-. reflexivity.
  - destruct (write_row m d k) as [row|] eqn:Er; [|discriminate].
    destruct (for_each (write_row m d) ks) as [rs|]; [|discriminate].
    cbn [bind] in E. injection E as <-. cbn [map].
    rewrite (write_row_utt_id _ _ _ _ Er), (IH rs eq_refl). reflexivity.
Qed.

Lemma for_each_ok {A B} (f : A -> result B) (P : A -> B -> Prop) ks :
  (forall k, In k ks -> exists b, f k = Ok b /\ P k b) ->
  exists bs, for_each f ks = Ok bs /\ Forall2 P ks bs.
Proof.
  induction ks as [|k ks IH]; intro Hall.
  - exists []. split; [reflexivity | constructor].
  - destruct (Hall k (or_introl eq_refl)) as [b [Hb HP]].
    destruct IH as [bs [Hbs HF]]; [intros; apply Hall; now right|].
    exists (b :: bs). cbn [for_each]. rewrite Hb, Hbs.
    split; [reflexivity | now constructor].
Qed.

(** *** Strings in order *)

Lemma leb_empty_l s : String.leb "" s = true.
Proof. destruct s; reflexivity. Qed.

Lemma leb_empty_r s : String.leb s "" = true -> s = "".
Proof. destruct s; [reflexivity | discriminate]. Qed.

Lemma ltb_empty s : s <> "" -> String.ltb "" s = true.
Proof. destruct s; [congruence | reflexivity]. Qed.

Lemma leb_neq_ltb a b : String.leb a b = true -> a <> b -> String.ltb a b = true.
Proof.
  unfold String.leb, String.ltb. intros Hle Hne.
  destruct (String.compare a b) eqn:E; try reflexivity; try discriminate.
  apply String.compare_eq_iff in E. contradiction.
Qed.

(** A sorted list of distinct strings is strictly increasing. *)
Lemma sorted_strict l :
  NoDup l -> StronglySorted (fun a b => String.leb a b = true) l ->
  StronglySorted (fun a b => String.ltb a b = true) l.
Proof.
  intros Hnd Hs. induction Hs as [|a l Hs IH Ha]; constructor.
  - apply IH. now inversion Hnd.
  - inversion Hnd as [|? ? Hnotin _]; subst.
    rewrite Forall_forall in *. intros b Hb.
    apply leb_neq_ltb; [now apply Ha|]. intros ->. contradiction.
Qed.

Lemma sorted_keys_NoDup l : NoDup l -> NoDup (Str.sorted l).
Proof.
  intro Hnd.
  apply (Permutation_NoDup (Permutation_sym (SortFacts.sorted_str_perm l))).
  exact Hnd.
Qed.


(** *** Fields *)

Lemma split_nonempty sep s : (1 <= length (Str.split sep s))%nat.
Proof.
  induction s as [|c r IH]; simpl; [lia|].
  destruct (Ascii.eqb c sep); simpl; [lia|].
  destruct (Str.split sep r); simpl in *; lia.
Qed.

Lemma split_cons_length sep c r :
  length (Str.split sep (String c r)) =
    if Ascii.eqb c sep then S (length (Str.split sep r))
    else length (Str.split sep r).
Proof.
  simpl. destruct (Ascii.eqb c sep); [reflexivity|].
  pose proof (split_nonempty sep r).
  destruct (Str.split sep r); simpl in *; [lia | reflexivity].
Qed.

Lemma lstrip_fields sep s :
  (length (Str.split sep (Str.lstrip s)) <= length (Str.split sep s))%nat.
Proof.
  induction s as [|c r IH]; [reflexivity|].
  cbn [Str.lstrip]. destruct (Str.isspace c); [|reflexivity].
  rewrite split_cons_length. destruct (Ascii.eqb c sep); lia.
Qed.

Lemma rstrip_fields sep s :
  (length (Str.split sep (Str.rstrip s)) <= length (Str.split sep s))%nat.
Proof.
  induction s as [|c r IH]; [reflexivity|].
  cbn [Str.rstrip]. pose proof (split_nonempty sep r) as Hr.
  destruct (Str.rstrip r) as [|c' r'] eqn:E.
  - destruct (Str.isspace c).
    + rewrite split_cons_length. simpl. destruct (Ascii.eqb c sep); lia.
    + rewrite !split_cons_length. simpl in *.
      destruct (Ascii.eqb c sep); lia.
  - rewrite (split_cons_length sep c r), (split_cons_length sep c).
    destruct (Ascii.eqb c sep); lia.
Qed.

(** Stripping a line never adds a field. *)
Lemma parts_of_raw_fields line :
  (length (parts_of line) <= length (raw_fields line))%nat.
Proof.
  unfold parts_of, raw_fields, Str.strip.
  etransitivity; [apply rstrip_fields | apply lstrip_fields].
Qed.

Lemma split_no_dot s : has_dot s = false -> Str.split Str.dot s = [s].
Proof.
  induction s as [|c r IH]; [reflexivity|].
  cbn [has_dot Str.split]. intro H. apply orb_false_iff in H.
  destruct H as [Hc Hr]. rewrite Hc, (IH Hr). reflexivity.
Qed.

(** *** [main] *)

Lemma no_bad_existsb `{Runtime} lines :
  (forall l, In l lines -> parse l <> Bad) ->
  existsb (fun line => is_bad (parse line)) lines = false.
Proof.
  intro Hall. destruct (existsb _ lines) eqn:E; [|reflexivity].
  apply existsb_exists in E. destruct E as [l [Hl Hb]].
  specialize (Hall l Hl). destruct (parse l); simpl in Hb; congruence.
Qed.

Lemma main_unfold `{Runtime} mo m lines :
  get_args mo = Ok m ->
  main mo lines =
    if existsb (fun line => is_bad (parse line)) lines
    then Raise ValueError
    else
      let d := build (records lines) Dict.empty in
      for_each (write_row m d) (Str.sorted (Dict.keys d)).
Proof.
  intro Hm. unfold main. rewrite Hm. cbn [bind].
  rewrite ReaderFacts.read_lines_parse_at_empty. destruct (existsb _ lines); reflexivity.
Qed.

Lemma sorted_keys_In `{Runtime} lines k :
  In k (Str.sorted (Dict.keys (build (records lines) Dict.empty))) ->
  values_of k (records lines) <> [] /\
  Dict.get k (build (records lines) Dict.empty)
    = Some (values_of k (records lines)).
Proof.
  intro Hin.
  apply (Permutation_in _ (SortFacts.sorted_str_perm _)) in Hin.
  apply ReaderFacts.keys_build_In in Hin. split; [exact Hin|].
  rewrite ReaderFacts.get_build_empty.
  destruct (values_of k (records lines)); [congruence | reflexivity].
Qed.

(** When the method is accepted and every value parses, [main] writes
    one row per utterance id, in sorted order. *)
Lemma main_ok `{Runtime} mo m lines :
  get_args mo = Ok m ->
  (forall l, In l lines -> parse l <> Bad) ->
  exists rows,
    main mo lines = Ok rows /\
    Forall2 (fun k row =>
               utt_id row = k /\
               num_phones row = length (values_of k (records lines)))
      (Str.sorted (Dict.keys (build (records lines) Dict.empty))) rows.
Proof.
  intros Hm Hall. rewrite (main_unfold mo m lines Hm).
  rewrite (no_bad_existsb lines Hall). cbv zeta.
  apply for_each_ok. intros k Hk.
  destruct (sorted_keys_In lines k Hk) as [Hne Hg].
  destruct (write_row_ok m _ k _ (ml_get_args_ok mo m Hm) Hg Hne)
    as [v [mn [mx [_ [_ [_ Hrow]]]]]].
  eexists. split; [exact Hrow|]. split; reflexivity.
Qed.


(** The end-to-end scenario of the specification. *)
Example scenario_written :
  @written Plain.runtime (Some "mean") Sample.scenario_lines
    = Ok Sample.scenario_table.
Proof. vm_compute. reflexivity. Qed.

(** C6 (as amended).  A line with fewer than two tab-separated fields,
    counted on the line as it stands or after [strip], is skipped and
    leaves the groups unchanged.  A line that, after [strip], has at least
    two fields and whose second field [float] rejects ends the run with
    [ValueError] before any row is written, wherever it stands in the
    file. *)
Theorem short_lines_skipped_bad_values_fatal (rt : Runtime) :
  (forall d line,
     (length (raw_fields line) < 2)%nat \/ (length (parts_of line) < 2)%nat ->
     read_line d line = Ok d) /\
  (forall mo m lines line,
     get_args mo = Ok m -> In line lines ->
     (2 <= length (parts_of line))%nat ->
     py_float (nth 1 (parts_of line) "") = None ->
     main mo lines = Raise ValueError).
Proof.
  split.
  - intros d line Hshort.
    assert (Hlen : (length (parts_of line) < 2)%nat).
    { pose proof (parts_of_raw_fields line). lia. }
    rewrite ReaderFacts.read_line_parse. unfold parse.
    apply Nat.ltb_lt in Hlen. rewrite Hlen. reflexivity.
  - intros mo m lines line Hm Hin Hlen Hbad.
    rewrite (main_unfold mo m lines Hm).
    replace (existsb (fun l => is_bad (parse l)) lines) with true;
      [reflexivity|].
    symmetry. apply existsb_exists. exists line. split; [exact Hin|].
    unfold parse. replace (length (parts_of line) <? 2)%nat with false
      by (symmetry; apply Nat.ltb_ge; exact Hlen).
    rewrite Hbad. reflexivity.
Qed.

Lemma short_lines_skipped_bad_values_fatal_witness :
  @read_line Plain.runtime Dict.empty "short" = Ok Dict.empty /\
  @main Plain.runtime (Some "median")
    (Sample.flat_lines ++ [Sample.bad_value_line]) = Raise ValueError.
Proof.
  split.
  - apply (proj1 (short_lines_skipped_bad_values_fatal Plain.runtime)).
    left. vm_compute. lia.
  - apply (proj2 (short_lines_skipped_bad_values_fatal Plain.runtime)
             (Some "median") "median" _ Sample.bad_value_line).
    + reflexivity.
    + apply in_or_app. right. left. reflexivity.
    + vm_compute. lia.
    + vm_compute. reflexivity.
Defined.

(** C6 (the claim as stated fails).  The line made of a key, a tab and
    the line end has two tab-separated fields, the second of which
    [float] rejects; yet it is skipped and the run ends normally. *)
Lemma raw_value_not_fatal : ~ fatal_on_raw_value Plain.runtime.
Proof.
  intro Hfatal.
  specialize (Hfatal (Some "mean") "mean" [Sample.empty_value_line]
                Sample.empty_value_line eq_refl (or_introl eq_refl)).
  assert (H2 : (2 <= length (raw_fields Sample.empty_value_line))%nat)
    by (vm_compute; lia).
  specialize (Hfatal H2 eq_refl). vm_compute in Hfatal. discriminate.
Qed.

Lemma utt_id_of_dotless phone_key :
  has_dot phone_key = false -> utt_id_of phone_key = "".
Proof.
  intro H. unfold utt_id_of. rewrite (split_no_dot _ H). reflexivity.
Qed.

Lemma parse_dotless `{Runtime} line :
  dotless line = true -> parse line <> Bad ->
  exists v, parse line = Rec "" v.
Proof.
  unfold dotless, parse. intros Hd Hnb.
  apply andb_true_iff in Hd. destruct Hd as [Hlen Hdot].
  apply Nat.leb_le in Hlen. apply negb_true_iff in Hdot.
  replace (length (parts_of line) <? 2)%nat with false in *
    by (symmetry; apply Nat.ltb_ge; exact Hlen).
  destruct (py_float _) as [v|]; [|congruence].
  exists v. now rewrite (utt_id_of_dotless _ Hdot).
Qed.

Lemma values_of_app k recs recs' :
  values_of k (recs ++ recs') = (values_of k recs ++ values_of k recs')%list.
Proof. unfold values_of. now rewrite filter_app, map_app. Qed.

(** Every line with a dotless key has its score in the group of the
    empty id. *)
Lemma dotless_count `{Runtime} lines :
  (forall l, In l lines -> parse l <> Bad) ->
  (length (filter dotless lines)
   <= length (values_of "" (records lines)))%nat.
Proof.
  induction lines as [|l rest IH]; intro Hall; [simpl; lia|].
  assert (IH' : (length (filter dotless rest)
                 <= length (values_of "" (records rest)))%nat)
    by (apply IH; intros; apply Hall; now right).
  unfold records. cbn [flat_map filter]. fold (records rest).
  rewrite values_of_app, length_app.
  destruct (dotless l) eqn:Hd; [|lia].
  destruct (parse_dotless l Hd (Hall l (or_introl eq_refl))) as [v Hv].
  rewrite Hv. cbn. lia.
Qed.

(** C10.  A key without a dot has the empty string as its utterance id.
    When the method is accepted and every value parses, a file with such
    a line is not rejected: the first row written has the empty id, it
    counts the scores of all the records whose id is empty, among them
    those of every line with a dotless key, and every later row has a
    non-empty id, which the empty id precedes. *)
Theorem dotless_keys_share_the_empty_id (rt : Runtime) :
  (forall phone_key,
     has_dot phone_key = false -> utt_id_of phone_key = "") /\
  (forall mo m lines line,
     get_args mo = Ok m ->
     (forall l, In l lines -> parse l <> Bad) ->
     In line lines -> dotless line = true ->
     exists row rest,
       main mo lines = Ok (row :: rest) /\
       utt_id row = "" /\
       num_phones row = length (values_of "" (records lines)) /\
       (1 <= length (filter dotless lines) <= num_phones row)%nat /\
       Forall (fun r => utt_id r <> "" /\ String.ltb "" (utt_id r) = true)
         rest).
Proof.
  split; [exact utt_id_of_dotless|].
  intros mo m lines line Hm Hall Hin Hd.
  destruct (main_ok mo m lines Hm Hall) as [rows [Hmain HF]].
  set (ks := Str.sorted (Dict.keys (build (records lines) Dict.empty))) in *.
  assert (Hcount : (1 <= length (filter dotless lines))%nat).
  { assert (Hf : In line (filter dotless lines))
      by (apply filter_In; auto).
    destruct (filter dotless lines); [contradiction | simpl; lia]. }
  pose proof (dotless_count lines Hall) as Hle.
  assert (Hks : In "" ks).
  { apply (Permutation_in _ (Permutation_sym (SortFacts.sorted_str_perm _))).
    apply ReaderFacts.keys_build_In.
    destruct (values_of "" (records lines)); [simpl in Hle; lia | discriminate]. }
  assert (Hnd : NoDup ks)
    by (apply sorted_keys_NoDup, ReaderFacts.keys_build_NoDup; constructor).
  pose proof (SortFacts.sorted_str_sorted
                (Dict.keys (build (records lines) Dict.empty))) as Hs.
  fold ks in Hs.
  destruct ks as [|h t]; [contradiction|].
  assert (Hh : h = "").
  { destruct Hks as [-> | Ht]; [reflexivity|].
    apply StronglySorted_inv in Hs. destruct Hs as [_ Hall'].
    rewrite Forall_forall in Hall'. apply leb_empty_r. now apply Hall'. }
  subst h.
  inversion HF as [|k row ks' rest [Hid Hnum] HF' ]; subst.
  exists row, rest. split; [exact Hmain|]. split; [exact Hid|].
  split; [exact Hnum|]. split; [lia|].
  inversion Hnd as [|? ? Hnotin _]; subst.
  clear - HF' Hnotin. induction HF' as [|k r t rest [Hid _] _ IH].
  - constructor.
  - constructor.
    + assert (Hne : utt_id r <> "").
      { rewrite Hid. intros ->. apply Hnotin. now left. }
      split; [exact Hne | now apply ltb_empty].
    + apply IH. intro Hin. apply Hnotin. now right.
Qed.

Lemma dotless_keys_share_the_empty_id_witness :
  exists row rest,
    @main Plain.runtime (Some "max") Sample.flat_lines = Ok (row :: rest) /\
    utt_id row = "" /\ (1 <= num_phones row)%nat.
Proof.
  destruct (proj2 (dotless_keys_share_the_empty_id Plain.runtime)
              (Some "max") "max" Sample.flat_lines
              (Sample.tabbed ["nodot"; "0.25"] ++ Sample.newline))
    as [row [rest [Hmain [Hid [_ [Hn _]]]]]].
  - reflexivity.
  - intros l Hl. repeat (destruct Hl as [<- | Hl]; [vm_compute; discriminate|]).
    destruct Hl.
  - right. left. reflexivity.
  - vm_compute. reflexivity.
  - exists row, rest. split; [exact Hmain|]. split; [exact Hid | lia].
Defined.

End AggMLFacts.

(** ** The two aggregators side by side *)

Module Aggregators.

Local Open Scope string_scope.


Lemma utt_statistic m values v :
  In m AggUtt.choices -> values <> [] ->
  (m = "weighted" -> 0 < Stat.total (map Qabs values)) ->
  AggUtt.aggregate m values = Ok v -> Stat.statistic m values v.
Proof.
  intros Hin Hne Hw. unfold AggUtt.aggregate, Stat.statistic.
  destruct Hin as [<- | [<- | [<- | [<- | []]]]];
    cbn [String.eqb Ascii.eqb Bool.eqb].
  - intro E. injection E as <-. apply StatFacts.mean_arithmetic.
  - intro E. injection E as <-. now apply StatFacts.median_is_median.
  - apply StatFacts.amin_is_minimum.
  - specialize (Hw eq_refl). rewrite <- StatFacts.sum_total in Hw.
    fold (Np.absolute values) in Hw.
    replace (Py.gt (Np.sum (Np.absolute values)) 0) with true
      by (symmetry; now apply PyFacts.gt_true).
    destruct (StatFacts.average_weighted values Hw) as [v' [Hv' Heq]].
    rewrite Hv'. intro E. injection E as <-. exact Heq.
Qed.

Lemma ml_statistic m scores v :
  In m AggML.choices -> scores <> [] ->
  AggML.aggregate m scores = Ok (Some v) -> Stat.statistic m scores v.
Proof.
  intros Hin Hne. unfold AggML.aggregate, Stat.statistic.
  destruct Hin as [<- | [<- | [<- | [<- | []]]]];
    cbn [String.eqb Ascii.eqb Bool.eqb].
  - intro E. injection E as <-. apply StatFacts.mean_arithmetic.
  - intro E. injection E as <-. now apply StatFacts.median_is_median.
  - destruct (Np.amin scores) as [mn|] eqn:Hmn; [|discriminate].
    cbn [bind]. intro E. injection E as <-.
    now apply StatFacts.amin_is_minimum.
  - destruct (Np.amax scores) as [mx|] eqn:Hmx; [|discriminate].
    cbn [bind]. intro E. injection E as <-.
    now apply StatFacts.amax_is_maximum.
Qed.



End Aggregators.

(** * Part III: further properties of the three scripts *)

(** ** [gop_to_score] beyond its breakpoints *)

Module ScoreMore.

Import Score.

(** Divisions by the constants of the curve, as multiplications. *)
Ltac const_div :=
  unfold Qdiv in *;
  change (/ 2) with (1 # 2) in *;
  change (/ 3) with (1 # 3) in *;
  change (/ 5) with (1 # 5) in *.

Lemma clamp_mono s1 s2 lo hi :
  s1 <= s2 -> Py.max (Py.min s1 hi) lo <= Py.max (Py.min s2 hi) lo.
Proof.
  intro Hs.
  destruct (PyFacts.min_spec s1 hi) as [[A1 E1] | [A1 E1]];
  destruct (PyFacts.min_spec s2 hi) as [[A2 E2] | [A2 E2]];
  rewrite E1, E2;
  match goal with |- Py.max ?x _ <= Py.max ?y _ =>
    destruct (PyFacts.max_spec x lo) as [[B1 F1] | [B1 F1]];
    destruct (PyFacts.max_spec y lo) as [[B2 F2] | [B2 F2]];
    rewrite ?F1, ?F2
  end; lra.
Qed.

(** Under the final clamp the inner [max(..., min_score)] of the lowest
    branch changes nothing. *)
Lemma clamp_absorb s lo hi :
  lo <= hi -> Py.max (Py.min (Py.max s lo) hi) lo = Py.max (Py.min s hi) lo.
Proof.
  intro Hle.
  destruct (PyFacts.max_spec s lo) as [[A E] | [A E]]; rewrite E;
    [|reflexivity].
  destruct (PyFacts.min_spec lo hi) as [[B F] | [B F]]; [lra|]. rewrite F.
  destruct (PyFacts.min_spec s hi) as [[C G] | [C G]]; [lra|]. rewrite G.
  destruct (PyFacts.max_spec lo lo) as [[D H] | [D H]]; [lra|]. rewrite H.
  destruct (PyFacts.max_spec s lo) as [[D' H'] | [D' H']]; [|lra].
  now rewrite H'.
Qed.

Lemma clamp_inverted s lo hi : hi < lo -> Py.max (Py.min s hi) lo = lo.
Proof.
  intro Hinv.
  destruct (PyFacts.min_spec s hi) as [[A E] | [A E]]; rewrite E;
  match goal with |- Py.max ?x _ = _ =>
    destruct (PyFacts.max_spec x lo) as [[B F] | [B F]]; rewrite F
  end; try reflexivity; lra.
Qed.

(** X2.  With a baseline and [max_score] at least 100, a higher raw value never
    gets a lower score. *)
Theorem baseline_mode_monotone g1 g2 b min_score max_score :
  100 <= max_score -> g1 <= g2 ->
  gop_to_score g1 (Some b) min_score max_score
    <= gop_to_score g2 (Some b) min_score max_score.
Proof.
  intros Hhi Hg. destruct (Qlt_le_dec max_score min_score) as [Hinv | Hle].
  - unfold gop_to_score. rewrite !clamp_inverted by exact Hinv. lra.
  - unfold gop_to_score.
    ScoreFacts.py_cases; rewrite ?clamp_absorb by exact Hle;
      apply clamp_mono; const_div; lra.
Qed.

Lemma baseline_mode_monotone_witness :
  gop_to_score (-7) (Some 1) 0 100 <= gop_to_score (-3) (Some 1) 0 100.
Proof. apply baseline_mode_monotone; lra. Defined.

(** Case analysis on every [max] and [min] of the goal. *)
Ltac minmax_cases :=
  repeat match goal with
  | |- context [Py.max ?x ?y] =>
      let A := fresh "A" in let E := fresh "E" in
      destruct (PyFacts.max_spec x y) as [[A E] | [A E]];
      rewrite ?E in *; clear E
  | |- context [Py.min ?x ?y] =>
      let A := fresh "A" in let E := fresh "E" in
      destruct (PyFacts.min_spec x y) as [[A E] | [A E]];
      rewrite ?E in *; clear E
  | H : context [Py.max ?x ?y] |- _ =>
      let A := fresh "A" in let E := fresh "E" in
      destruct (PyFacts.max_spec x y) as [[A E] | [A E]];
      rewrite ?E in *; clear E
  | H : context [Py.min ?x ?y] |- _ =>
      let A := fresh "A" in let E := fresh "E" in
      destruct (PyFacts.min_spec x y) as [[A E] | [A E]];
      rewrite ?E in *; clear E
  end.

(** X3.  Without a baseline, from -5 upwards a higher raw value never gets a
    lower score, whatever the two bounds. *)
Theorem free_mode_monotone_from_minus_five g1 g2 min_score max_score :
  -5 <= g1 -> g1 <= g2 ->
  gop_to_score g1 None min_score max_score
    <= gop_to_score g2 None min_score max_score.
Proof.
  intros Hlow Hg. unfold gop_to_score.
  ScoreFacts.py_cases; try lra; apply clamp_mono;
    minmax_cases; const_div; lra.
Qed.

Lemma free_mode_monotone_from_minus_five_witness :
  gop_to_score (-4) None 0 100 <= gop_to_score (1 # 2) None 0 100.
Proof. apply free_mode_monotone_from_minus_five; lra. Defined.

End ScoreMore.

(** ** compute_pronunciation_score.py: [main] *)

Module ScoreMainMore.

Import Score.
Local Open Scope string_scope.

Local Abbreviation parts_of := Flat.parts_of.

(** The reading loop body raises nothing but [ValueError]. *)
Lemma read_line_raises `{Runtime} args line e :
  read_line args line = Raise e -> e = ValueError.
Proof.
  unfold read_line.
  destruct (length _ <? 2)%nat; [discriminate|].
  destruct (py_float _); [|congruence].
  destruct (2 <? length _)%nat; [|discriminate].
  destruct (py_int _); [discriminate | simpl; congruence].
Qed.

Lemma read_lines_raises `{Runtime} args lines e :
  read_lines args lines = Raise e -> e = ValueError.
Proof.
  induction lines as [|line rest IH]; simpl; [discriminate|].
  destruct (read_line args line) as [r|e1] eqn:E1; simpl.
  - destruct (read_lines args rest) as [rs|e2]; simpl; [discriminate|].
    intro E. injection E as <-. now apply IH.
  - intro E. injection E as <-. now apply read_line_raises in E1.
Qed.

Lemma read_lines_bad `{Runtime} args lines line e :
  In line lines -> read_line args line = Raise e ->
  read_lines args lines = Raise ValueError.
Proof.
  intros Hin Hbad.
  destruct (read_lines args lines) as [rs|e'] eqn:E.
  - exfalso. revert rs E.
    induction lines as [|l rest IH]; [contradiction|].
    intros rs E. simpl in E.
    destruct (read_line args l) as [r|] eqn:E1; simpl in E; [|discriminate].
    destruct (read_lines args rest) as [rs'|] eqn:E2; simpl in E;
      [|discriminate].
    destruct Hin as [-> | Hin]; [congruence|].
    now apply (IH Hin rs').
  - now rewrite (read_lines_raises _ _ _ E).
Qed.

(** X5.  A line with at least two fields whose second field [float] rejects,
    or with at least three whose third field [int] rejects, ends the run
    with exit status 1 and no report, wherever it stands in the file. *)
Theorem score_main_exits_on_bad_number (rt : Runtime) args lines line :
  In line lines ->
  (2 <= length (parts_of line))%nat ->
  py_float (nth 1 (parts_of line) "") = None \/
  ((2 < length (parts_of line))%nat /\
   py_int (nth 2 (parts_of line) "") = None) ->
  main args lines = Raise (SystemExit 1).
Proof.
  intros Hin Hlen Hbad.
  assert (Hline : read_line args line = Raise ValueError).
  { unfold read_line. fold (parts_of line).
    replace (length (parts_of line) <? 2)%nat with false
      by (symmetry; apply Nat.ltb_ge; exact Hlen).
    destruct Hbad as [Hf | [Hlen3 Hi]].
    - now rewrite Hf.
    - destruct (py_float _); [|reflexivity].
      replace (2 <? length (parts_of line))%nat with true
        by (symmetry; apply Nat.ltb_lt; exact Hlen3).
      now rewrite Hi. }
  unfold main. rewrite (read_lines_bad args lines line _ Hin Hline).
  reflexivity.
Qed.

Lemma score_main_exits_on_bad_number_witness :
  @main Plain.runtime default_args
    (Sample.score_lines ++ [Sample.tabbed ["utt2"; "0.5"; "two"]])
    = Raise (SystemExit 1).
Proof.
  apply (score_main_exits_on_bad_number Plain.runtime default_args _
           (Sample.tabbed ["utt2"; "0.5"; "two"])).
  - apply in_or_app. right. left. reflexivity.
  - vm_compute. lia.
  - right. split; [vm_compute; lia | vm_compute; reflexivity].
Defined.

(** A line the loop keeps: at least two fields after [strip]. *)
Local Abbreviation kept :=
  (fun line : string => (2 <=? length (parts_of line))%nat).

Lemma read_line_kept `{Runtime} args line r :
  read_line args line = Ok r ->
  match r with
  | None => kept line = false
  | Some x => kept line = true /\ utt_id x = nth 0 (parts_of line) ""
  end.
Proof.
  unfold read_line. fold (parts_of line).
  destruct (length (parts_of line) <? 2)%nat eqn:El.
  - intro E. injection E as <-. apply Nat.ltb_lt in El.
    apply Nat.leb_gt. lia.
  - apply Nat.ltb_ge in El.
    destruct (py_float _); [|discriminate].
    destruct (2 <? length (parts_of line))%nat.
    + destruct (py_int _); cbn [bind]; [|discriminate].
      intro E. injection E as <-. split; [now apply Nat.leb_le | reflexivity].
    + cbn [bind]. intro E. injection E as <-.
      split; [now apply Nat.leb_le | reflexivity].
Qed.

Lemma read_lines_ids `{Runtime} args lines : forall results,
  read_lines args lines = Ok results ->
  map utt_id results
    = map (fun line => nth 0 (parts_of line) "") (filter kept lines).
Proof.
  induction lines as [|line rest IH]; intros results E; simpl in E.
  - injection E as <-. reflexivity.
  - destruct (read_line args line) as [r|] eqn:E1; simpl in E; [|discriminate].
    destruct (read_lines args rest) as [rs|] eqn:E2; simpl in E;
      [|discriminate].
    injection E as <-. specialize (IH rs eq_refl).
    pose proof (read_line_kept args line r E1) as Hk.
    cbn [filter]. destruct r as [x|].
    + destruct Hk as [-> Hid]. cbn [map]. now rewrite Hid, IH.
    + rewrite Hk. exact IH.
Qed.

Lemma read_lines_total `{Runtime} args lines :
  (forall line, In line lines -> exists r, read_line args line = Ok r) ->
  exists results, read_lines args lines = Ok results.
Proof.
  induction lines as [|line rest IH]; intro Hall; simpl.
  - eauto.
  - destruct (Hall line (or_introl eq_refl)) as [r ->].
    destruct IH as [rs ->]; [intros; apply Hall; now right|].
    simpl. eauto.
Qed.

(** X6.  When every line is read without error, the report has one row for
    each line with at least two fields, in the order of the file: the
    ids of the rows are the first fields of those lines, neither sorted
    nor merged. *)
Theorem report_rows_follow_the_file (rt : Runtime) args lines :
  (forall line, In line lines -> exists r, read_line args line = Ok r) ->
  exists report,
    main args lines = Ok report /\
    map (fun row => utt_id (row_result row)) (rows report)
      = map (fun line => nth 0 (parts_of line) "") (filter kept lines).
Proof.
  intro Hall. destruct (read_lines_total args lines Hall) as [results E].
  unfold main. rewrite E. cbn [exit_on_exception bind].
  eexists. split; [reflexivity|]. cbn [rows].
  rewrite map_map. cbn [row_result write_row].
  exact (read_lines_ids args lines results E).
Qed.

Lemma report_rows_follow_the_file_witness :
  exists report,
    @main Plain.runtime default_args
      [Sample.tabbed ["b"; "-1.5"; "4"]; "skipped";
       Sample.tabbed ["a"; "0.5"]; Sample.tabbed ["b"; "2"]]
      = Ok report /\
    map (fun row => utt_id (row_result row)) (rows report) = ["b"; "a"; "b"].
Proof.
  apply (report_rows_follow_the_file Plain.runtime default_args).
  intros line Hin.
  repeat (destruct Hin as [<- | Hin]; [eexists; vm_compute; reflexivity|]).
  destruct Hin.
Defined.

End ScoreMainMore.

(** ** Dictionaries: assignment and lookup *)

Module DictFacts.

Local Open Scope string_scope.

Section Facts.
Context {V : Type}.
Implicit Types d : Dict.t V.

Lemma get_set_same k v d : Dict.get k (Dict.set k v d) = Some v.
Proof.
  induction d as [|[k' v'] r IH]; simpl.
  - now rewrite String.eqb_refl.
  - destruct (k' =? k) eqn:E; simpl; rewrite E; [reflexivity | exact IH].
Qed.

Lemma get_set_other k k' v d :
  k <> k' -> Dict.get k' (Dict.set k v d) = Dict.get k' d.
Proof.
  intro Hne. induction d as [|[k0 v0] r IH]; simpl.
  - apply String.eqb_neq in Hne. now rewrite Hne.
  - destruct (k0 =? k) eqn:E; simpl.
    + apply String.eqb_eq in E. subst k0.
      apply String.eqb_neq in Hne. now rewrite Hne.
    + destruct (k0 =? k'); [reflexivity | exact IH].
Qed.

Lemma keys_set k v d :
  Dict.keys (Dict.set k v d) =
    if Dict.mem k d then Dict.keys d else (Dict.keys d ++ [k])%list.
Proof.
  induction d as [|[k' v'] r IH]; [reflexivity|].
  cbn [Dict.set Dict.mem existsb fst]. destruct (k' =? k) eqn:E.
  - reflexivity.
  - cbn [orb Dict.keys map fst]. fold (Dict.mem k r).
    unfold Dict.keys in IH. rewrite IH.
    destruct (Dict.mem k r); reflexivity.
Qed.

Lemma keys_set_In k k' v d :
  In k' (Dict.keys (Dict.set k v d)) <-> k' = k \/ In k' (Dict.keys d).
Proof.
  rewrite keys_set. destruct (Dict.mem k d) eqn:E.
  - apply ReaderFacts.mem_keys in E. split; [tauto|].
    intros [-> | H]; assumption.
  - rewrite in_app_iff. simpl. split.
    + intros [H | [<- | []]]; auto.
    + intros [-> | H]; auto.
Qed.

Lemma keys_set_NoDup k v d :
  NoDup (Dict.keys d) -> NoDup (Dict.keys (Dict.set k v d)).
Proof.
  intro Hnd. rewrite keys_set. destruct (Dict.mem k d) eqn:E; [exact Hnd|].
  apply NoDup_app; [exact Hnd | repeat constructor; simpl; tauto |].
  intros x Hx [<- | []]. apply ReaderFacts.mem_keys in Hx. congruence.
Qed.

Lemma get_Some_keys k d :
  In k (Dict.keys d) -> exists v, Dict.get k d = Some v.
Proof.
  intro Hin. destruct (Dict.get k d) as [v|] eqn:E; [eauto|].
  apply ReaderFacts.get_None_keys in E. contradiction.
Qed.

End Facts.

End DictFacts.

(** ** aggregate_utterance_scores.py: [main] *)

Module AggUttMain.

Import AggUtt.
Local Open Scope string_scope.

(** *** The inner loop *)

Lemma gop_values_well_formed args gops :
  skip_silence args = true ->
  Forall (fun frame => length frame = 1%nat) gops ->
  gop_values_of args gops = Ok (Table.scored gops).
Proof.
  intros Hskip Hwf. unfold Table.scored, Stat.scored_values.
  induction Hwf as [|frame rest Hframe _ IH]; [reflexivity|].
  destruct frame as [|[ph gop] [|]]; try discriminate.
  cbn [gop_values_of concat app]. rewrite IH. cbn [bind]. rewrite Hskip.
  cbn [andb filter fst].
  replace (existsb (Z.eqb ph) [0; 1; 2]%Z) with (Stat.is_silence ph).
  - destruct (Stat.is_silence ph); reflexivity.
  - unfold Stat.is_silence. cbn [existsb].
    rewrite orb_false_r, orb_assoc, !(Z.eqb_sym ph). reflexivity.
Qed.

Lemma gop_values_malformed args gops :
  Exists (fun frame => length frame <> 1%nat) gops ->
  gop_values_of args gops = Raise ValueError.
Proof.
  induction gops as [|frame rest IH]; intro Hex.
  - inversion Hex.
  - destruct frame as [|[ph gop] [|]]; try reflexivity.
    cbn [gop_values_of]. rewrite IH; [reflexivity|].
    inversion Hex as [? ? Hbad | ? ? Hrest]; subst;
      [simpl in Hbad; congruence | exact Hrest].
Qed.

(** *** Exceptions of the outer loop *)

Lemma amin_raises l e : Np.amin l = Raise e -> e = ValueError.
Proof. destruct l; simpl; congruence. Qed.

Lemma amax_raises l e : Np.amax l = Raise e -> e = ValueError.
Proof. destruct l; simpl; congruence. Qed.

Lemma gop_values_raises args gops e :
  gop_values_of args gops = Raise e -> e = ValueError.
Proof.
  induction gops as [|frame rest IH]; [discriminate|].
  destruct frame as [|[ph gop] [|]]; cbn [gop_values_of]; try congruence.
  destruct (gop_values_of args rest) as [vs|e']; cbn [bind].
  - destruct (_ && _); discriminate.
  - intro E. injection E as <-. now apply IH.
Qed.

Lemma aggregate_raises m values e :
  aggregate m values = Raise e -> forall n, e <> SystemExit n.
Proof.
  unfold aggregate.
  destruct (m =? "mean"); [discriminate|].
  destruct (m =? "median"); [discriminate|].
  destruct (m =? "min").
  { intros E n. apply amin_raises in E. congruence. }
  destruct (m =? "weighted"); [|intros E n; congruence].
  destruct (Py.gt _ 0); [|discriminate].
  unfold Np.average. destruct (Qeq_bool _ 0); [|discriminate].
  intros E n. congruence.
Qed.

(** The loop body never ends with [SystemExit] itself: whatever it
    raises is caught by the handler around the loop. *)
Lemma body_raises `{Runtime} args scores kg e :
  body args scores kg = Raise e -> forall n, e <> SystemExit n.
Proof.
  destruct kg as [key gops]. unfold body.
  destruct (gop_values_of args gops) as [vs|e1] eqn:E1; cbn [bind].
  2:{ intros E n. injection E as <-. apply gop_values_raises in E1.
      congruence. }
  destruct (length vs =? 0)%nat; [discriminate|].
  destruct (aggregate (method args) vs) as [v|e2] eqn:E2; cbn [bind].
  2:{ intros E n. injection E as <-. now apply (aggregate_raises _ _ _ E2). }
  destruct (Np.amin vs) as [mn|e3] eqn:E3; cbn [bind].
  2:{ intros E n. injection E as <-. apply amin_raises in E3. congruence. }
  destruct (Np.amax vs) as [mx|e4] eqn:E4; cbn [bind]; [discriminate|].
  intros E n. injection E as <-. apply amax_raises in E4. congruence.
Qed.

Lemma for_fold_raises `{Runtime} args table : forall scores e,
  for_fold (body args) scores table = Raise e -> forall n, e <> SystemExit n.
Proof.
  induction table as [|kg rest IH]; intros scores e; [discriminate|].
  cbn [for_fold].
  destruct (body args scores kg) as [scores'|e1] eqn:E1; cbn [bind].
  - apply IH.
  - intros E n. injection E as <-. now apply (body_raises _ _ _ _ E1).
Qed.

Lemma for_fold_stops `{Runtime} args table kg :
  In kg table ->
  (forall scores, exists e, body args scores kg = Raise e) ->
  forall scores, exists e, for_fold (body args) scores table = Raise e.
Proof.
  intros Hin Hbad.
  induction table as [|kg' rest IH]; [contradiction|].
  intro scores. cbn [for_fold].
  destruct (body args scores kg') as [scores'|e1] eqn:E1; cbn [bind].
  - destruct Hin as [-> | Hin].
    + destruct (Hbad scores) as [e He]. congruence.
    + now apply IH.
  - eauto.
Qed.

(** X9.  A frame that does not hold exactly one (phone id, value) pair, in any
    posterior of the table, ends the run with exit status 1: nothing is
    written. *)
Theorem utt_main_exits_on_malformed_frame (rt : Runtime)
    m flag args table key gops :
  get_args (Some m) flag = Ok args ->
  In (key, gops) table ->
  Exists (fun frame => length frame <> 1%nat) gops ->
  main (Some m) flag table = Raise (SystemExit 1).
Proof.
  intros Hargs Hin Hbad. unfold main. rewrite Hargs. cbn [bind].
  destruct (for_fold_stops args table (key, gops) Hin) with (scores := @Dict.empty Entry)
    as [e He].
  { intro scores. exists ValueError. unfold body.
    now rewrite (gop_values_malformed args gops Hbad). }
  rewrite He.
  pose proof (for_fold_raises args table _ _ He) as Hne.
  destruct e; try reflexivity. now destruct (Hne status).
Qed.

Lemma utt_main_exits_on_malformed_frame_witness :
  @main Plain.runtime (Some "mean") false
    [("utt1", [[(5%Z, 1)]]); ("utt2", [[(5%Z, 1); (6%Z, 2)]])]
    = Raise (SystemExit 1).
Proof.
  apply (utt_main_exits_on_malformed_frame Plain.runtime "mean" false
           {| method := "mean"; skip_silence := true |} _
           "utt2" [[(5%Z, 1); (6%Z, 2)]]).
  - reflexivity.
  - right. left. reflexivity.
  - left. simpl. lia.
Defined.

End AggUttMain.

(** ** aggregate_utterance_scores.py: the rows [main] writes *)

Module AggUttRows.

Import AggUtt.
Local Open Scope string_scope.

Section Invariant.
Context `{Runtime} (m : string) (args : Args).
Hypothesis Hmethod : method args = m.
Hypothesis Hskip : skip_silence args = true.
Hypothesis Hin : In m choices.

(** What the [scores] dictionary holds once the posteriors [P] have been
    processed. *)
Definition holds (scores : Dict.t Entry) (P : string * post -> Prop)
    : Prop :=
  NoDup (Dict.keys scores) /\
  (forall key e, Dict.get key scores = Some e ->
     exists gops, P (key, gops) /\
                  Table.computed_from m (Table.scored gops) e) /\
  (forall key gops, P (key, gops) -> Table.scored gops <> [] ->
     In key (Dict.keys scores)).

Lemma body_holds scores P key gops :
  Forall (fun frame => length frame = 1%nat) gops ->
  holds scores P ->
  exists scores',
    body args scores (key, gops) = Ok scores' /\
    holds scores' (fun x => P x \/ x = (key, gops)).
Proof.
  intros Hwf [Hnd [Hget Hkeys]].
  pose proof (AggUttMain.gop_values_well_formed args gops Hskip Hwf) as Hvals.
  destruct (Table.scored gops) as [|x vs] eqn:Evs.
  - exists scores. split; [now apply AggUttFacts.body_empty|].
    split; [exact Hnd|]. split.
    + intros k e Hk. destruct (Hget k e Hk) as [g [Hg Hc]]. eauto.
    + intros k g [HP | Heq] Hne; [now apply (Hkeys k g)|].
      injection Heq as -> ->. congruence.
  - assert (Hne : x :: vs <> []) by discriminate.
    destruct (AggUttFacts.aggregate_ok m (x :: vs) Hin Hne) as [v Hv].
    assert (Hv' := Hv). rewrite <- Hmethod in Hv'.
    destruct (AggUttFacts.body_nonempty args scores key gops (x :: vs) v
                Hvals Hne Hv') as [mn [mx [Hmn [Hmx Hbody]]]].
    eexists. split; [exact Hbody|].
    split; [now apply DictFacts.keys_set_NoDup|]. split.
    + intros k e Hk. destruct (string_dec key k) as [<- | Hneq].
      * rewrite DictFacts.get_set_same in Hk. injection Hk as <-.
        exists gops. split; [now right|]. rewrite Evs.
        unfold Table.computed_from. cbn. tauto.
      * rewrite DictFacts.get_set_other in Hk by exact Hneq.
        destruct (Hget k e Hk) as [g [Hg Hc]]. eauto.
    + intros k g [HP | Heq] Hne'; apply DictFacts.keys_set_In.
      * right. now apply (Hkeys k g).
      * injection Heq as -> ->. now left.
Qed.

Lemma for_fold_holds table : forall scores P,
  Table.well_formed table ->
  holds scores P ->
  exists scores',
    for_fold (body args) scores table = Ok scores' /\
    holds scores' (fun x => P x \/ In x table).
Proof.
  induction table as [|[key gops] rest IH]; intros scores P Hwf Hh.
  - exists scores. split; [reflexivity|].
    destruct Hh as [Hnd [Hget Hkeys]]. split; [exact Hnd|]. split.
    + intros k e Hk. destruct (Hget k e Hk) as [g [Hg Hc]]. eauto.
    + intros k g [HP | []] Hne. now apply (Hkeys k g).
  - pose proof (Forall_inv Hwf) as Hframe.
    pose proof (Forall_inv_tail Hwf) as Hrest. cbn [snd] in Hframe.
    destruct (body_holds scores P key gops Hframe Hh) as [s1 [Hb Hh1]].
    destruct (IH s1 _ Hrest Hh1) as [s2 [Hf [Hnd [Hget Hkeys]]]].
    exists s2. cbn [for_fold]. unfold post in *. rewrite Hb. cbn [bind].
    split; [exact Hf|]. split; [exact Hnd|]. split.
    + intros k e Hk. destruct (Hget k e Hk) as [g [Hg Hc]].
      exists g. split; [|exact Hc]. simpl.
      destruct Hg as [[HP | Heq] | Hr];
        [left | right; left; symmetry | right; right]; assumption.
    + intros k g HP Hne. apply (Hkeys k g); [|exact Hne].
      simpl in HP. destruct HP as [HP | [Heq | Hrest']];
        [left; left | left; right; symmetry | right]; assumption.
Qed.

End Invariant.

(** The writing loop never fails: one line per key, in sorted order. *)
Lemma write_ok `{Runtime} (scores : Dict.t Entry) :
  exists out,
    write scores = Ok out /\
    Forall2 (fun key ke => fst ke = key /\
                           Dict.get key scores = Some (snd ke))
      (Str.sorted (Dict.keys scores)) out.
Proof.
  unfold write. apply AggMLFacts.for_each_ok. intros key Hkey.
  apply (Permutation_in _ (SortFacts.sorted_str_perm _)) in Hkey.
  destruct (DictFacts.get_Some_keys key scores Hkey) as [e He].
  exists (key, e). rewrite He. auto.
Qed.

Lemma Forall2_fst {A B} (P : A -> A * B -> Prop) ks out :
  Forall2 P ks out -> (forall k ke, P k ke -> fst ke = k) ->
  map fst out = ks.
Proof.
  intros HF HP. induction HF as [|k ke ks out Hk _ IH]; [reflexivity|].
  cbn [map]. now rewrite (HP k ke Hk), IH.
Qed.

Lemma main_rows `{Runtime} m flag table :
  In m choices -> Table.well_formed table ->
  exists out,
    main (Some m) flag table = Ok out /\
    StronglySorted (fun a b => String.ltb a b = true) (map fst out) /\
    (forall key,
       In key (map fst out) <->
       exists gops, In (key, gops) table /\ Table.scored gops <> []) /\
    Forall (fun ke =>
              exists gops,
                In (fst ke, gops) table /\
                Table.computed_from m (Table.scored gops) (snd ke)) out.
Proof.
  intros Hin Hwf. unfold main.
  rewrite (AggUttFacts.get_args_accepts m flag Hin). cbn [bind].
  destruct (for_fold_holds m {| method := m; skip_silence := true |}
              eq_refl eq_refl Hin table Dict.empty (fun _ => False) Hwf)
    as [scores [Hfold [Hnd [Hget Hkeys]]]].
  { split; [constructor|]. split; [discriminate | contradiction]. }
  rewrite Hfold. cbn [exit_on_exception bind].
  destruct (write_ok scores) as [out [Hwrite HF]].
  rewrite Hwrite. cbn [exit_on_exception].
  exists out. split; [reflexivity|].
  assert (Hfst : map fst out = Str.sorted (Dict.keys scores))
    by (apply (Forall2_fst _ _ _ HF); tauto).
  split; [|split].
  - rewrite Hfst. apply AggMLFacts.sorted_strict.
    + now apply AggMLFacts.sorted_keys_NoDup.
    + apply SortFacts.sorted_str_sorted.
  - intro key. rewrite Hfst. split.
    + intro Hk. apply (Permutation_in _ (SortFacts.sorted_str_perm _)) in Hk.
      destruct (DictFacts.get_Some_keys key scores Hk) as [e He].
      destruct (Hget key e He) as [gops [[[] | Hg] Hc]].
      exists gops. split; [exact Hg | apply Hc].
    + intros [gops [Hg Hne]].
      apply (Permutation_in _ (Permutation_sym (SortFacts.sorted_str_perm _))).
      apply (Hkeys key gops); [now right | exact Hne].
  - clear Hfst Hwrite. induction HF as [|k ke ks out' [Hk Hke] _ IH];
      constructor; [|exact IH].
    destruct (Hget k (snd ke) Hke) as [gops [[[] | Hg] Hc]].
    exists gops. rewrite Hk. auto.
Qed.

(** X10.  For an accepted method and a table whose frames each hold one pair,
    [main] succeeds.  The keys of the lines written are strictly
    increasing; a key is written exactly when the table has a posterior
    under that key with a value that is not silence; and every line
    holds the aggregate, count, minimum, maximum and standard deviation
    of the non-silence values of one posterior of the table under its
    key. *)
Theorem utt_main_rows (rt : Runtime) m flag table :
  In m choices -> Table.well_formed table ->
  exists out,
    main (Some m) flag table = Ok out /\
    StronglySorted (fun a b => String.ltb a b = true) (map fst out) /\
    (forall key,
       In key (map fst out) <->
       exists gops, In (key, gops) table /\ Table.scored gops <> []) /\
    Forall (fun ke =>
              exists gops,
                In (fst ke, gops) table /\
                Table.computed_from m (Table.scored gops) (snd ke)) out.
Proof. apply main_rows. Qed.

Lemma utt_main_rows_witness :
  exists out,
    @main Plain.runtime (Some "median") false
      [("utt2", [[(5%Z, 1)]; [(0%Z, 9)]; [(6%Z, 3)]]);
       ("sil", [[(0%Z, 1)]; [(2%Z, 4)]]);
       ("utt1", [[(7%Z, -2)]])] = Ok out /\
    StronglySorted (fun a b => String.ltb a b = true) (map fst out).
Proof.
  destruct (utt_main_rows Plain.runtime "median" false
              [("utt2", [[(5%Z, 1)]; [(0%Z, 9)]; [(6%Z, 3)]]);
               ("sil", [[(0%Z, 1)]; [(2%Z, 4)]]);
               ("utt1", [[(7%Z, -2)]])])
    as [out [Hmain [Hsorted _]]].
  - right. left. reflexivity.
  - repeat constructor.
  - exists out. split; [exact Hmain | exact Hsorted].
Defined.

End AggUttRows.

(** ** aggregate_ml_scores.py: keys, counts and rows *)

Module AggMLMore.

Import AggML Flat.
Local Open Scope string_scope.

(** *** Splitting and joining *)

Lemma split_app sep a b :
  Str.split sep (a ++ String sep b)
    = (Str.split sep a ++ Str.split sep b)%list.
Proof.
  induction a as [|c a IH].
  - change (Str.split sep (String sep b)
            = (EmptyString :: Str.split sep b)).
    cbn [Str.split]. now rewrite Ascii.eqb_refl.
  - change (String c a ++ String sep b) with (String c (a ++ String sep b)).
    cbn [Str.split]. rewrite IH. destruct (Ascii.eqb c sep); [reflexivity|].
    pose proof (AggMLFacts.split_nonempty sep a) as Hne.
    destruct (Str.split sep a); [simpl in Hne; lia | reflexivity].
Qed.

(** Joining the fields of a string with the separator gives the string
    back. *)
Lemma join_split sep s :
  Str.join (String sep "") (Str.split sep s) = s.
Proof.
  unfold Str.join. induction s as [|c r IH]; [reflexivity|].
  cbn [Str.split]. pose proof (AggMLFacts.split_nonempty sep r) as Hne.
  destruct (Ascii.eqb c sep) eqn:E.
  - apply Ascii.eqb_eq in E. subst c.
    destruct (Str.split sep r) as [|f fs]; [simpl in Hne; lia|].
    change (String.concat (String sep "") ("" :: f :: fs))
      with ("" ++ String sep "" ++ String.concat (String sep "") (f :: fs)).
    rewrite IH. reflexivity.
  - destruct (Str.split sep r) as [|f fs]; [simpl in Hne; lia|].
    destruct fs as [|g fs].
    + change (String c f = String c r). change (f = r) in IH. now rewrite IH.
    + change (String c (f ++ String sep ""
                ++ String.concat (String sep "") (g :: fs)) = String c r).
      change (f ++ String sep "" ++ String.concat (String sep "") (g :: fs)
              = r) in IH.
      now rewrite IH.
Qed.

(** X12.  The key built from an utterance id, a dot and a phone index without
    dots gives the utterance id back, dots of the id included. *)
Theorem utt_id_of_key_round_trip utt phone_index :
  has_dot phone_index = false ->
  utt_id_of (utt ++ String Str.dot phone_index) = utt.
Proof.
  intro Hd. unfold utt_id_of.
  rewrite split_app, (AggMLFacts.split_no_dot _ Hd), removelast_last.
  apply join_split.
Qed.

Lemma utt_id_of_key_round_trip_witness :
  utt_id_of ("spk1.utt.007" ++ String Str.dot "12") = "spk1.utt.007".
Proof. apply utt_id_of_key_round_trip. reflexivity. Defined.

End AggMLMore.

(** ** aggregate_ml_scores.py: the rows [main] writes *)

Module AggMLRows.

Import AggML Flat.
Local Open Scope string_scope.

Local Abbreviation kept :=
  (fun line : string => (2 <=? length (parts_of line))%nat).

Lemma values_of_nonempty k recs :
  values_of k recs <> [] <-> exists v, In (k, v) recs.
Proof.
  unfold values_of. split.
  - intro Hne. destruct (filter _ recs) as [|[u v] r] eqn:E;
      [simpl in Hne; congruence|].
    assert (Hin : In (u, v) (filter (fun r => fst r =? k) recs))
      by (rewrite E; now left).
    apply filter_In in Hin. destruct Hin as [Hin Hk].
    apply String.eqb_eq in Hk. simpl in Hk. subst u. eauto.
  - intros [v Hv] Hnil.
    assert (Hin : In (k, v) (filter (fun r => fst r =? k) recs))
      by (apply filter_In; split; [exact Hv | apply String.eqb_refl]).
    destruct (filter _ recs); [contradiction | discriminate].
Qed.

(** When every value parses, each line with at least two fields gives
    one record. *)
Lemma records_length `{Runtime} lines :
  (forall l, In l lines -> parse l <> Bad) ->
  length (records lines) = length (filter kept lines).
Proof.
  induction lines as [|l rest IH]; intro Hall; [reflexivity|].
  unfold records. cbn [flat_map filter]. fold (records rest).
  rewrite length_app, IH by (intros; apply Hall; now right).
  specialize (Hall l (or_introl eq_refl)). unfold parse in *. revert Hall.
  destruct (length (parts_of l) <? 2)%nat eqn:El; intro Hall.
  - apply Nat.ltb_lt in El.
    replace (2 <=? length (parts_of l))%nat with false
      by (symmetry; apply Nat.leb_gt; lia).
    reflexivity.
  - apply Nat.ltb_ge in El.
    replace (2 <=? length (parts_of l))%nat with true
      by (symmetry; now apply Nat.leb_le).
    revert Hall. destruct (py_float _); intro Hall;
      [reflexivity | congruence].
Qed.

Lemma group_size_cons k u v recs :
  length (values_of k ((u, v) :: recs))
    = ((if String.eqb u k then 1 else 0) + length (values_of k recs))%nat.
Proof.
  unfold values_of. cbn [filter fst]. destruct (u =? k); reflexivity.
Qed.

Lemma list_sum_map_add {A} (f g : A -> nat) l :
  list_sum (map (fun a => (f a + g a)%nat) l)
    = (list_sum (map f l) + list_sum (map g l))%nat.
Proof.
  unfold list_sum. induction l as [|a l IH]; [reflexivity|].
  cbn [map fold_right]. rewrite IH. lia.
Qed.

Lemma indicator_absent u ks :
  ~ In u ks ->
  list_sum (map (fun k => if String.eqb u k then 1%nat else 0%nat) ks) = 0%nat.
Proof.
  unfold list_sum. induction ks as [|k ks IH]; intro Hn; [reflexivity|].
  cbn [map fold_right]. rewrite IH by (intro; apply Hn; now right).
  destruct (u =? k) eqn:E; [|reflexivity].
  apply String.eqb_eq in E. exfalso. apply Hn. now left.
Qed.

Lemma indicator_once u ks :
  NoDup ks -> In u ks ->
  list_sum (map (fun k => if String.eqb u k then 1%nat else 0%nat) ks) = 1%nat.
Proof.
  induction 1 as [|k ks Hnotin Hnd IH]; intro Hin; [contradiction|].
  change (((if String.eqb u k then 1 else 0)
           + list_sum (map (fun k => if String.eqb u k then 1 else 0) ks))%nat
          = 1%nat).
  destruct (u =? k) eqn:E.
  - apply String.eqb_eq in E. subst k.
    now rewrite indicator_absent.
  - apply String.eqb_neq in E. destruct Hin as [-> | Hin]; [congruence|].
    now rewrite IH.
Qed.

(** Over distinct keys that cover the ids of the records, the sizes of
    the groups add up to the number of records. *)
Lemma group_sizes_add_up recs : forall ks,
  NoDup ks -> (forall u v, In (u, v) recs -> In u ks) ->
  list_sum (map (fun k => length (values_of k recs)) ks) = length recs.
Proof.
  induction recs as [|[u v] recs IH]; intros ks Hnd Hcov.
  - clear. induction ks as [|k ks IHk]; [reflexivity | exact IHk].
  - rewrite (map_ext _ _ (fun k => group_size_cons k u v recs)).
    rewrite list_sum_map_add, indicator_once, IH.
    + reflexivity.
    + exact Hnd.
    + intros u' v' Hin. apply (Hcov u' v'). now right.
    + exact Hnd.
    + apply (Hcov u v). now left.
Qed.

Lemma Forall2_list_sum {A B} (f : A -> nat) (g : B -> nat) l l' :
  Forall2 (fun a b => g b = f a) l l' ->
  list_sum (map g l') = list_sum (map f l).
Proof.
  unfold list_sum. induction 1 as [|a b l l' Hab _ IH]; [reflexivity|].
  cbn [map fold_right]. now rewrite Hab, IH.
Qed.

(** X14.  When the method is accepted and every value parses, no score is lost
    or counted twice: the phone counts of the rows written add up to the
    number of lines with at least two fields. *)
Theorem phone_counts_add_up (rt : Runtime) mo m lines :
  get_args mo = Ok m ->
  (forall l, In l lines -> parse l <> Bad) ->
  exists rows,
    main mo lines = Ok rows /\
    list_sum (map num_phones rows) = length (filter kept lines).
Proof.
  intros Hm Hall.
  destruct (AggMLFacts.main_ok mo m lines Hm Hall) as [rows [Hmain HF]].
  exists rows. split; [exact Hmain|].
  rewrite <- (records_length lines Hall).
  set (d := build (records lines) Dict.empty) in *.
  rewrite (Forall2_list_sum
             (fun k => length (values_of k (records lines))) num_phones
             (Str.sorted (Dict.keys d)) rows).
  - apply group_sizes_add_up.
    + apply AggMLFacts.sorted_keys_NoDup, ReaderFacts.keys_build_NoDup.
      constructor.
    + intros u v Hin.
      apply (Permutation_in _
               (Permutation_sym (SortFacts.sorted_str_perm _))).
      apply ReaderFacts.keys_build_In, values_of_nonempty. eauto.
  - revert HF. apply Forall2_impl. tauto.
Qed.

Lemma phone_counts_add_up_witness :
  exists rows,
    @main Plain.runtime (Some "min") Sample.flat_lines = Ok rows /\
    list_sum (map num_phones rows) = 4%nat.
Proof.
  destruct (phone_counts_add_up Plain.runtime (Some "min") "min"
              Sample.flat_lines) as [rows [Hmain Hsum]].
  - reflexivity.
  - intros l Hl. repeat (destruct Hl as [<- | Hl]; [vm_compute; discriminate|]).
    destruct Hl.
  - exists rows. split; [exact Hmain | exact Hsum].
Defined.

(** The content of one row, for the scores [vs] of its utterance. *)
Local Abbreviation row_of := (fun (rt : Runtime) (m : string) (vs : list Q)
    (row : Row) =>
  vs <> [] /\
  num_phones row = length vs /\
  Stat.statistic m vs (agg_score row) /\
  Stat.is_minimum vs (min_score row) /\
  Stat.is_maximum vs (max_score row) /\
  std_score row == fsqrt (Stat.population_variance vs)).



End AggMLRows.

(** ** From the aggregator's output to the normalizer's input *)

Module Pipeline.

Import Text.
Local Open Scope string_scope.

Local Abbreviation T := (String Str.tab "").
Local Abbreviation NL := (String (ascii_of_nat 10) "").

(** *** Appending *)

Lemma append_assoc (a b c : string) : (a ++ b) ++ c = a ++ (b ++ c).
Proof. induction a as [|x a IH]; simpl; [reflexivity | now rewrite IH]. Qed.

Lemma append_empty_r (a : string) : a ++ "" = a.
Proof. induction a as [|x a IH]; simpl; [reflexivity | now rewrite IH]. Qed.

Lemma all_plain_app a b :
  all_plain (a ++ b) = all_plain a && all_plain b.
Proof.
  induction a as [|x a IH]; simpl; [reflexivity|].
  now rewrite IH, andb_assoc.
Qed.

Lemma starts_plain_app a b :
  starts_plain a = true -> starts_plain (a ++ b) = true.
Proof. destruct a; [discriminate | simpl; auto]. Qed.

Lemma ends_plain_app a b :
  ends_plain b = true -> ends_plain (a ++ b) = true.
Proof.
  intro Hb. induction a as [|x a IH]; [exact Hb|].
  change (String x a ++ b) with (String x (a ++ b)). cbn [ends_plain].
  destruct (a ++ b) eqn:E; [discriminate IH | exact IH].
Qed.

Lemma all_plain_ends s : all_plain s = true -> s <> "" -> ends_plain s = true.
Proof.
  induction s as [|c r IH]; [congruence|].
  cbn [all_plain ends_plain]. intros H _. apply andb_true_iff in H.
  destruct H as [Hc Hr]. destruct r; [exact Hc|].
  apply IH; [exact Hr | discriminate].
Qed.

Lemma all_plain_starts s :
  all_plain s = true -> s <> "" -> starts_plain s = true.
Proof.
  destruct s; [congruence|]. cbn. intros H _.
  apply andb_true_iff in H. tauto.
Qed.

Lemma all_plain_lacks_tab s : all_plain s = true -> lacks Str.tab s = true.
Proof.
  induction s as [|c r IH]; [reflexivity|].
  cbn [all_plain lacks]. intro H. apply andb_true_iff in H.
  destruct H as [Hc Hr]. rewrite (IH Hr), andb_true_r.
  destruct (Ascii.eqb c Str.tab) eqn:E; [|reflexivity].
  apply Ascii.eqb_eq in E. subst c. discriminate Hc.
Qed.

(** *** Stripping and splitting *)

Lemma lstrip_starts_plain s : starts_plain s = true -> Str.lstrip s = s.
Proof.
  destruct s as [|c r]; [discriminate|]. cbn. intro H.
  apply negb_true_iff in H. now rewrite H.
Qed.

Lemma rstrip_ends_plain s : ends_plain s = true -> Str.rstrip s = s.
Proof.
  induction s as [|c r IH]; [discriminate|].
  cbn [ends_plain Str.rstrip]. destruct r as [|c' r'].
  - intro H. apply negb_true_iff in H. cbn. now rewrite H.
  - intro H. rewrite (IH H). reflexivity.
Qed.

Lemma rstrip_app_blank a b :
  Str.rstrip b = "" -> Str.rstrip (a ++ b) = Str.rstrip a.
Proof.
  intro Hb. induction a as [|x a IH]; [exact Hb|].
  change (String x a ++ b) with (String x (a ++ b)).
  cbn [Str.rstrip]. now rewrite IH.
Qed.

Lemma split_lacks sep s : lacks sep s = true -> Str.split sep s = [s].
Proof.
  induction s as [|c r IH]; [reflexivity|].
  cbn [lacks Str.split]. intro H. apply andb_true_iff in H.
  destruct H as [Hc Hr]. apply negb_true_iff in Hc.
  now rewrite Hc, (IH Hr).
Qed.

(** The fields of a line come back when none holds a tab, the first
    starts and the last ends with something else than white space. *)
Lemma split_concat fields :
  fields <> [] -> Forall (fun f => lacks Str.tab f = true) fields ->
  Str.split Str.tab (String.concat T fields) = fields.
Proof.
  intros Hne Hall. induction Hall as [|f fs Hf Hfs IH]; [congruence|].
  destruct fs as [|g fs].
  - cbn [String.concat]. now apply split_lacks.
  - change (String.concat T (f :: g :: fs))
      with (f ++ T ++ String.concat T (g :: fs)).
    change (T ++ String.concat T (g :: fs))
      with (String Str.tab (String.concat T (g :: fs))).
    rewrite AggMLMore.split_app, (split_lacks _ _ Hf), IH by discriminate.
    reflexivity.
Qed.

Lemma concat_starts f fs :
  starts_plain f = true -> starts_plain (String.concat T (f :: fs)) = true.
Proof.
  intro Hf. destruct fs; [exact Hf|].
  change (String.concat T (f :: s :: fs))
    with (f ++ T ++ String.concat T (s :: fs)).
  now apply starts_plain_app.
Qed.

Lemma concat_ends fields :
  ends_plain (last fields "") = true ->
  ends_plain (String.concat T fields) = true.
Proof.
  induction fields as [|f fs IH]; [discriminate|].
  destruct fs as [|g fs]; [auto|].
  change (last (f :: g :: fs) "") with (last (g :: fs) "").
  change (String.concat T (f :: g :: fs))
    with (f ++ T ++ String.concat T (g :: fs)).
  intro H. rewrite <- append_assoc. apply ends_plain_app. now apply IH.
Qed.

Lemma parts_of_line fields :
  Forall (fun f => lacks Str.tab f = true) fields ->
  starts_plain (hd "" fields) = true ->
  ends_plain (last fields "") = true ->
  Flat.parts_of (String.concat T fields ++ NL) = fields.
Proof.
  intros Hall Hfirst Hlast.
  assert (Hne : fields <> []) by (destruct fields; [discriminate | discriminate]).
  unfold Flat.parts_of, Str.strip.
  destruct fields as [|f fs]; [congruence|]. cbn [hd] in Hfirst.
  rewrite lstrip_starts_plain
    by (apply starts_plain_app; now apply concat_starts).
  rewrite rstrip_app_blank by reflexivity.
  rewrite rstrip_ends_plain by now apply concat_ends.
  now apply split_concat.
Qed.

(** *** The text of numbers *)

Lemma uint_all_plain d : all_plain (NilEmpty.string_of_uint d) = true.
Proof. induction d; simpl; auto. Qed.

Lemma decimal_all_plain n : all_plain (Fmt.decimal n) = true.
Proof.
  unfold Fmt.decimal, NilZero.string_of_uint.
  destruct (N.to_uint n) eqn:E; try reflexivity;
    rewrite <- E; apply uint_all_plain.
Qed.

Lemma decimal_nonempty n : Fmt.decimal n <> "".
Proof.
  unfold Fmt.decimal, NilZero.string_of_uint.
  destruct (N.to_uint n); discriminate.
Qed.

Lemma zeros_all_plain k : all_plain (Fmt.zeros k) = true.
Proof. induction k; simpl; auto. Qed.

Lemma fixed4_all_plain x : all_plain (Fmt.fixed4 x) = true.
Proof.
  unfold Fmt.fixed4, Fmt.padded.
  rewrite !all_plain_app, !decimal_all_plain, zeros_all_plain.
  destruct (Py.lt x 0); reflexivity.
Qed.

Lemma fixed4_nonempty x : Fmt.fixed4 x <> "".
Proof.
  unfold Fmt.fixed4. intro E.
  assert (Hlen : String.length (Fmt.fixed4 x) = 0%nat)
    by (unfold Fmt.fixed4; now rewrite E).
  unfold Fmt.fixed4 in Hlen.
  pose proof (decimal_nonempty
                (Z.to_N (Fmt.round_half_even (Qabs x * 10000)) / 10000))
    as Hd.
  destruct (Py.lt x 0); [discriminate E|].
  destruct (Fmt.decimal _); [congruence | discriminate E].
Qed.

Lemma number_fields_plain r :
  Forall (fun f => all_plain f = true /\ f <> "") (number_fields r).
Proof.
  unfold number_fields.
  repeat constructor;
    try apply fixed4_all_plain; try apply fixed4_nonempty;
    try apply decimal_all_plain; try apply decimal_nonempty.
Qed.

(** *** Output lines *)

Lemma format_row_concat r :
  AggML.format_row r
    = String.concat T (AggML.utt_id r :: number_fields r) ++ NL.
Proof.
  unfold AggML.format_row, number_fields. cbn [String.concat].
  now rewrite !append_assoc.
Qed.

(** The fields of an output line whose id has no tab and starts with
    something else than white space: the id and the five numbers. *)
Lemma parts_of_format_row r :
  lacks Str.tab (AggML.utt_id r) = true ->
  starts_plain (AggML.utt_id r) = true ->
  Flat.parts_of (AggML.format_row r) = AggML.utt_id r :: number_fields r.
Proof.
  intros Htab Hstart. rewrite format_row_concat.
  pose proof (number_fields_plain r) as Hnum.
  apply parts_of_line.
  - constructor; [exact Htab|].
    revert Hnum. apply Forall_impl. intros f [Hf _].
    now apply all_plain_lacks_tab.
  - exact Hstart.
  - apply all_plain_ends; [apply fixed4_all_plain | apply fixed4_nonempty].
Qed.

(** With an empty id the line starts with the tab, which [strip]
    removes: the fields are the five numbers alone. *)
Lemma parts_of_format_row_empty_id r :
  AggML.utt_id r = "" ->
  Flat.parts_of (AggML.format_row r) = number_fields r.
Proof.
  intro Hid. rewrite format_row_concat, Hid.
  pose proof (number_fields_plain r) as Hnum.
  change (String.concat T ("" :: number_fields r))
    with (String Str.tab (String.concat T (number_fields r))).
  change (Flat.parts_of
            (String Str.tab (String.concat T (number_fields r)) ++ NL))
    with (Flat.parts_of (String.concat T (number_fields r) ++ NL)).
  apply parts_of_line.
  - revert Hnum. apply Forall_impl. intros f [Hf _].
    now apply all_plain_lacks_tab.
  - apply all_plain_starts; [apply fixed4_all_plain | apply fixed4_nonempty].
  - apply all_plain_ends; [apply fixed4_all_plain | apply fixed4_nonempty].
Qed.

End Pipeline.

(** ** The normalizer reading the rows of aggregate_ml_scores.py *)

Module PipelineRows.

Import Text.
Local Open Scope string_scope.

(** *** The ids the aggregator writes *)

Lemma lstrip_starts s :
  Str.lstrip s = "" \/ starts_plain (Str.lstrip s) = true.
Proof.
  induction s as [|c r IH]; [now left|].
  cbn [Str.lstrip]. destruct (Str.isspace c) eqn:E; [exact IH|].
  right. cbn. now rewrite E.
Qed.

Lemma rstrip_starts s :
  starts_plain s = true -> starts_plain (Str.rstrip s) = true.
Proof.
  destruct s as [|c r]; [discriminate|]. cbn [starts_plain Str.rstrip].
  intro H. destruct (Str.rstrip r).
  - apply negb_true_iff in H. rewrite H. cbn. now rewrite H.
  - exact H.
Qed.

Lemma strip_starts s : Str.strip s = "" \/ starts_plain (Str.strip s) = true.
Proof.
  unfold Str.strip. destruct (lstrip_starts s) as [-> | H]; [now left|].
  right. now apply rstrip_starts.
Qed.

(** The first field of a string starts as the string does. *)
Lemma first_field_starts sep s :
  hd "" (Str.split sep s) <> "" ->
  starts_plain (hd "" (Str.split sep s)) = starts_plain s.
Proof.
  destruct s as [|c r]; [reflexivity|]. cbn [Str.split].
  destruct (Ascii.eqb c sep); [cbn; congruence|].
  destruct (Str.split sep r); reflexivity.
Qed.

Lemma split_fields_lack sep s :
  Forall (fun f => lacks sep f = true) (Str.split sep s).
Proof.
  induction s as [|c r IH]; [repeat constructor|].
  cbn [Str.split]. destruct (Ascii.eqb c sep) eqn:E.
  - constructor; [reflexivity | exact IH].
  - destruct (Str.split sep r) as [|f fs].
    + repeat constructor. cbn. now rewrite E.
    + inversion IH as [|? ? Hf Hfs]; subst.
      constructor; [|exact Hfs]. cbn [lacks]. now rewrite E, Hf.
Qed.

(** The pieces of a string hold no character that the string lacks. *)
Lemma split_pieces_lack sep t s :
  lacks t s = true -> Forall (fun f => lacks t f = true) (Str.split sep s).
Proof.
  induction s as [|c r IH]; [repeat constructor|].
  cbn [lacks Str.split]. intro H. apply andb_true_iff in H.
  destruct H as [Hc Hr]. specialize (IH Hr).
  destruct (Ascii.eqb c sep).
  - constructor; [reflexivity | exact IH].
  - destruct (Str.split sep r) as [|f fs].
    + repeat constructor. cbn. now rewrite Hc.
    + inversion IH as [|? ? Hf Hfs]; subst.
      constructor; [|exact Hfs]. cbn [lacks]. now rewrite Hc, Hf.
Qed.

Lemma lacks_app t a b : lacks t (a ++ b) = lacks t a && lacks t b.
Proof.
  induction a as [|x a IH]; simpl; [reflexivity|].
  now rewrite IH, andb_assoc.
Qed.

Lemma lacks_concat t sep l :
  lacks t sep = true -> Forall (fun f => lacks t f = true) l ->
  lacks t (String.concat sep l) = true.
Proof.
  intros Hsep Hall. induction Hall as [|f fs Hf _ IH]; [reflexivity|].
  destruct fs as [|g fs]; [exact Hf|].
  change (String.concat sep (f :: g :: fs))
    with (f ++ sep ++ String.concat sep (g :: fs)).
  now rewrite !lacks_app, Hf, Hsep, IH.
Qed.

Lemma Forall_removelast {A} (P : A -> Prop) l :
  Forall P l -> Forall P (removelast l).
Proof.
  induction 1 as [|x l Hx Hl IH]; [constructor|].
  cbn [removelast]. destruct l; [constructor|].
  constructor; [exact Hx | exact IH].
Qed.

Lemma utt_id_of_lacks_tab key :
  lacks Str.tab key = true -> lacks Str.tab (AggML.utt_id_of key) = true.
Proof.
  intro H. unfold AggML.utt_id_of, Str.join.
  apply lacks_concat; [reflexivity|].
  now apply Forall_removelast, split_pieces_lack.
Qed.

Lemma concat_snoc sep l x :
  l <> [] ->
  String.concat sep (l ++ [x]) = String.concat sep l ++ sep ++ x.
Proof.
  induction l as [|f fs IH]; [congruence|]. intros _.
  destruct fs as [|g fs]; [reflexivity|].
  change (String.concat sep ((f :: g :: fs) ++ [x]))
    with (f ++ sep ++ String.concat sep ((g :: fs) ++ [x])).
  rewrite IH by discriminate.
  change (String.concat sep (f :: g :: fs))
    with (f ++ sep ++ String.concat sep (g :: fs)).
  now rewrite !Pipeline.append_assoc.
Qed.

(** An utterance id that is not empty starts the key it comes from. *)
Lemma utt_id_of_prefix key :
  AggML.utt_id_of key <> "" ->
  exists rest, key = AggML.utt_id_of key ++ rest.
Proof.
  unfold AggML.utt_id_of, Str.join. intro Hne.
  pose proof (AggMLMore.join_split Str.dot key) as Hjoin.
  unfold Str.join in Hjoin.
  pose proof (AggMLFacts.split_nonempty Str.dot key) as Hlen.
  destruct (Str.split Str.dot key) as [|f fs] eqn:E; [simpl in Hlen; lia|].
  assert (Hl : f :: fs <> []) by discriminate.
  rewrite (app_removelast_last "" Hl) in Hjoin.
  destruct (removelast (f :: fs)) as [|g gs] eqn:Er; [now destruct Hne|].
  rewrite concat_snoc in Hjoin by discriminate.
  eexists. symmetry. exact Hjoin.
Qed.

Lemma starts_plain_prefix a b :
  a <> "" -> starts_plain (a ++ b) = starts_plain a.
Proof. destruct a; [congruence | reflexivity]. Qed.

(** The id recorded for a line that is kept has no tab and, unless it is
    empty, starts with something else than white space. *)
Lemma recorded_id_is_clean line :
  let utt := AggML.utt_id_of (nth 0 (Flat.parts_of line) "") in
  lacks Str.tab utt = true /\ (utt <> "" -> starts_plain utt = true).
Proof.
  cbv zeta. unfold Flat.parts_of.
  set (s := Str.strip line).
  replace (nth 0 (Str.split Str.tab s) "") with (hd "" (Str.split Str.tab s))
    by (destruct (Str.split Str.tab s); reflexivity).
  set (key := hd "" (Str.split Str.tab s)).
  assert (Hkey : lacks Str.tab key = true).
  { pose proof (split_fields_lack Str.tab s) as Hall. unfold key.
    destruct (Str.split Str.tab s); [reflexivity|].
    now inversion Hall. }
  split; [now apply utt_id_of_lacks_tab|].
  intro Hne. destruct (utt_id_of_prefix key Hne) as [rest Hrest].
  assert (Hk : key <> "").
  { intro E. rewrite E in Hne. now apply Hne. }
  assert (Hs : starts_plain key = true).
  { unfold key. rewrite first_field_starts by exact Hk.
    destruct (strip_starts line) as [E | H]; [|exact H].
    exfalso. apply Hk. unfold key, s. now rewrite E. }
  rewrite Hrest, starts_plain_prefix in Hs by exact Hne. exact Hs.
Qed.

Lemma records_In `{Runtime} lines k v :
  In (k, v) (Flat.records lines) ->
  exists line, In line lines /\ Flat.parse line = Flat.Rec k v.
Proof.
  unfold Flat.records. rewrite in_flat_map. intros [line [Hin Hrec]].
  exists line. split; [exact Hin|].
  destruct (Flat.parse line); simpl in Hrec; try contradiction.
  destruct Hrec as [E | []]. now injection E as -> ->.
Qed.

(** Every id that [main] writes comes from a line. *)
Lemma written_id_is_clean `{Runtime} mo lines rows row :
  AggML.main mo lines = Ok rows -> In row rows ->
  lacks Str.tab (AggML.utt_id row) = true /\
  (AggML.utt_id row <> "" -> starts_plain (AggML.utt_id row) = true).
Proof.
  intros Hmain Hrow.
  destruct (AggML.get_args mo) as [m|e] eqn:Hm;
    [|unfold AggML.main in Hmain; rewrite Hm in Hmain; discriminate].
  rewrite (AggMLFacts.main_unfold mo m lines Hm) in Hmain.
  destruct (existsb _ lines); [discriminate|]. cbv zeta in Hmain.
  pose proof (AggMLFacts.for_each_utt_ids _ _ _ _ Hmain) as Hids.
  assert (Hk : In (AggML.utt_id row)
                 (Str.sorted (Dict.keys (Flat.build (Flat.records lines)
                                           Dict.empty))))
    by (rewrite <- Hids; now apply in_map).
  destruct (AggMLFacts.sorted_keys_In lines _ Hk) as [Hne _].
  apply AggMLRows.values_of_nonempty in Hne. destruct Hne as [v Hv].
  destruct (records_In lines _ _ Hv) as [line [_ Hparse]].
  unfold Flat.parse in Hparse.
  destruct (length (Flat.parts_of line) <? 2)%nat; [discriminate|].
  destruct (py_float _); [|discriminate].
  injection Hparse as Hid _. rewrite <- Hid.
  apply recorded_id_is_clean.
Qed.

(** *** Reading a row back *)

Lemma read_back `{Runtime} args r g z :
  lacks Str.tab (AggML.utt_id r) = true ->
  starts_plain (AggML.utt_id r) = true ->
  py_float (Fmt.fixed4 (AggML.agg_score r)) = Some g ->
  py_int (Fmt.decimal (N.of_nat (AggML.num_phones r))) = Some z ->
  Score.read_line args (AggML.format_row r) =
    Ok (Some {| Score.utt_id := AggML.utt_id r;
                Score.gop_score := g;
                Score.pronunciation_score :=
                  Score.gop_to_score g (Score.baseline args)
                    (Score.min_score args) (Score.max_score args);
                Score.num_phones := z |}).
Proof.
  intros Htab Hstart Hg Hz. unfold Score.read_line.
  fold (Flat.parts_of (AggML.format_row r)).
  rewrite (Pipeline.parts_of_format_row r Htab Hstart).
  cbn [length Nat.ltb Nat.leb nth number_fields].
  rewrite Hg, Hz. reflexivity.
Qed.

(** X16.  A row that [main] of aggregate_ml_scores.py writes under an id that
    is not empty is read by the loop of compute_pronunciation_score.py
    as a result with the same id, the aggregate as GOP score and the
    phone count, when [float] and [int] accept the texts of these two
    numbers. *)
Theorem written_rows_are_read_back (rt : Runtime)
    mo lines rows row args g z :
  AggML.main mo lines = Ok rows -> In row rows ->
  AggML.utt_id row <> "" ->
  py_float (Fmt.fixed4 (AggML.agg_score row)) = Some g ->
  py_int (Fmt.decimal (N.of_nat (AggML.num_phones row))) = Some z ->
  Score.read_line args (AggML.format_row row) =
    Ok (Some {| Score.utt_id := AggML.utt_id row;
                Score.gop_score := g;
                Score.pronunciation_score :=
                  Score.gop_to_score g (Score.baseline args)
                    (Score.min_score args) (Score.max_score args);
                Score.num_phones := z |}).
Proof.
  intros Hmain Hrow Hne Hg Hz.
  destruct (written_id_is_clean mo lines rows row Hmain Hrow) as [Htab Hs].
  apply read_back; auto.
Qed.

(** X17.  A row with the empty id is read one field off: the aggregate as id,
    the phone count as GOP score and the minimum as phone count.  When
    [int] rejects the text of the minimum, a file with such a row makes
    the normalizer end with exit status 1. *)
Theorem empty_id_row_stops_the_normalizer (rt : Runtime) args lines r :
  In (AggML.format_row r) lines ->
  AggML.utt_id r = "" ->
  py_int (Fmt.fixed4 (AggML.min_score r)) = None ->
  Flat.parts_of (AggML.format_row r) = number_fields r /\
  Score.main args lines = Raise (SystemExit 1).
Proof.
  intros Hin Hid Hint.
  pose proof (Pipeline.parts_of_format_row_empty_id r Hid) as Hparts.
  split; [exact Hparts|].
  assert (Hline : Score.read_line args (AggML.format_row r)
                  = Raise ValueError).
  { unfold Score.read_line. fold (Flat.parts_of (AggML.format_row r)).
    rewrite Hparts. cbn [length Nat.ltb Nat.leb nth number_fields].
    destruct (py_float _); [|reflexivity]. now rewrite Hint. }
  unfold Score.main.
  rewrite (ScoreMainMore.read_lines_bad args lines _ _ Hin Hline).
  reflexivity.
Qed.

Lemma written_rows_are_read_back_witness :
  exists g z,
    @Score.read_line Plain.runtime Score.default_args
      (AggML.format_row MoreSamples.scenario_row) =
    Ok (Some {| Score.utt_id := "utt1";
                Score.gop_score := g;
                Score.pronunciation_score :=
                  Score.gop_to_score g None 0 100;
                Score.num_phones := z |}).
Proof.
  eexists. eexists.
  apply (written_rows_are_read_back Plain.runtime (Some "mean")
           Sample.scenario_lines MoreSamples.scenario_rows
           MoreSamples.scenario_row Score.default_args).
  - vm_compute. reflexivity.
  - left. reflexivity.
  - discriminate.
  - vm_compute. reflexivity.
  - vm_compute. reflexivity.
Defined.

Lemma empty_id_row_stops_the_normalizer_witness :
  @Score.main Plain.runtime Score.default_args
    [AggML.format_row MoreSamples.empty_id_row;
     AggML.format_row MoreSamples.scenario_row]
    = Raise (SystemExit 1).
Proof.
  apply (empty_id_row_stops_the_normalizer Plain.runtime Score.default_args
           _ MoreSamples.empty_id_row).
  - left. reflexivity.
  - reflexivity.
  - vm_compute. reflexivity.
Defined.

End PipelineRows.

(** ** aggregate_utterance_scores.py: the order of the table *)

Module AggUttOrder.

Import AggUtt.
Local Open Scope string_scope.

Local Abbreviation ltb := (fun a b : string => String.ltb a b = true).

Lemma ltb_irrefl a : String.ltb a a = false.
Proof.
  unfold String.ltb. destruct (String.compare a a) eqn:E; try reflexivity.
  pose proof (String.compare_antisym a a) as H. rewrite E in H. discriminate.
Qed.

Lemma ltb_asym a b : String.ltb a b = true -> String.ltb b a = false.
Proof.
  unfold String.ltb. rewrite (String.compare_antisym a b).
  destruct (String.compare b a); simpl; congruence.
Qed.

(** Two strictly increasing lists with the same elements are equal. *)
Lemma strictly_sorted_unique l : forall l',
  StronglySorted ltb l -> StronglySorted ltb l' ->
  (forall k, In k l <-> In k l') -> l = l'.
Proof.
  induction l as [|a t IH]; intros l' Hs Hs' Hiff.
  - destruct l' as [|b t']; [reflexivity|].
    destruct (proj2 (Hiff b) (or_introl eq_refl)).
  - destruct l' as [|b t'];
      [destruct (proj1 (Hiff a) (or_introl eq_refl))|].
    apply StronglySorted_inv in Hs, Hs'.
    destruct Hs as [Hst Ha], Hs' as [Hst' Hb].
    rewrite Forall_forall in Ha, Hb.
    assert (Hab : a = b).
    { destruct (proj1 (Hiff a) (or_introl eq_refl)) as [E | Hin];
        [now symmetry|].
      destruct (proj2 (Hiff b) (or_introl eq_refl)) as [E | Hin'];
        [exact E|].
      specialize (Ha b Hin'). specialize (Hb a Hin).
      apply ltb_asym in Ha. congruence. }
    subst b. f_equal. apply IH; [exact Hst | exact Hst' |].
    intro k. split; intro Hk.
    + destruct (proj1 (Hiff k) (or_intror Hk)) as [E | Hin]; [|exact Hin].
      subst k. specialize (Ha a Hk). now rewrite ltb_irrefl in Ha.
    + destruct (proj2 (Hiff k) (or_intror Hk)) as [E | Hin]; [|exact Hin].
      subst k. specialize (Hb a Hk). now rewrite ltb_irrefl in Hb.
Qed.

(** Under distinct keys a key has one posterior. *)
Lemma NoDup_keys_unique {V} (table : list (string * V)) k v v' :
  NoDup (map fst table) -> In (k, v) table -> In (k, v') table -> v = v'.
Proof.
  induction table as [|[k0 v0] rest IH]; intros Hnd Hin Hin';
    [contradiction|].
  cbn [map fst] in Hnd. inversion Hnd as [|? ? Hnotin Hnd']; subst.
  destruct Hin as [E | Hin], Hin' as [E' | Hin'].
  - congruence.
  - injection E as -> ->. exfalso. apply Hnotin.
    now apply (in_map fst) in Hin'.
  - injection E' as -> ->. exfalso. apply Hnotin.
    now apply (in_map fst) in Hin.
  - now apply IH.
Qed.

Lemma computed_from_unique `{Runtime} m vs e e' :
  Table.computed_from m vs e -> Table.computed_from m vs e' -> e = e'.
Proof.
  intros [_ [Hs [Hn [Hmn [Hmx Hstd]]]]] [_ [Hs' [Hn' [Hmn' [Hmx' Hstd']]]]].
  destruct e, e'. cbn in *. f_equal; congruence.
Qed.

Lemma rows_equal {B} (out out' : list (string * B)) :
  map fst out = map fst out' ->
  Forall (fun ke => forall e', In (fst ke, e') out' -> snd ke = e') out ->
  NoDup (map fst out') ->
  out = out'.
Proof.
  revert out'. induction out as [|[k e] out IH]; intros [|[k' e'] out'];
    cbn [map fst]; intros Hfst Hall Hnd; try discriminate; [reflexivity|].
  injection Hfst as -> Hfst. inversion Hall as [|? ? He Hrest]; subst.
  cbn [fst snd] in He. rewrite (He e' (or_introl eq_refl)). f_equal.
  inversion Hnd as [|? ? Hnotin Hnd']; subst.
  apply IH; [exact Hfst | | exact Hnd'].
  revert Hrest. apply Forall_impl. intros ke H e'' Hin. apply H. now right.
Qed.

Lemma strictly_sorted_NoDup l : StronglySorted ltb l -> NoDup l.
Proof.
  induction 1 as [|a l _ IH Ha]; constructor; [|exact IH].
  intro Hin. rewrite Forall_forall in Ha. specialize (Ha a Hin).
  now rewrite ltb_irrefl in Ha.
Qed.

(** X11.  When the keys of the table are distinct, the order of its entries
    does not matter: for an accepted method and frames of one pair each,
    [main] writes the same lines for every reordering of the table. *)
Theorem utt_main_order_invariant (rt : Runtime) m flag table table' :
  In m choices -> Table.well_formed table ->
  NoDup (map fst table) -> Permutation table table' ->
  main (Some m) flag table = main (Some m) flag table'.
Proof.
  intros Hin Hwf Hnd HP.
  assert (Hwf' : Table.well_formed table').
  { unfold Table.well_formed in *. rewrite Forall_forall in *.
    intros kg Hkg. apply Hwf.
    now apply (Permutation_in _ (Permutation_sym HP)). }
  destruct (AggUttRows.main_rows m flag table Hin Hwf)
    as [out [Hmain [Hs [Hkeys Hrows]]]].
  destruct (AggUttRows.main_rows m flag table' Hin Hwf')
    as [out' [Hmain' [Hs' [Hkeys' Hrows']]]].
  rewrite Hmain, Hmain'. f_equal.
  assert (Hfst : map fst out = map fst out').
  { apply strictly_sorted_unique; [exact Hs | exact Hs' |].
    intro k. rewrite Hkeys, Hkeys'.
    split; intros [gops [Hg Hne]]; exists gops; (split; [|exact Hne]).
    - now apply (Permutation_in _ HP).
    - now apply (Permutation_in _ (Permutation_sym HP)). }
  apply rows_equal; [exact Hfst | | now apply strictly_sorted_NoDup].
  rewrite Forall_forall in Hrows, Hrows'. apply Forall_forall.
  intros [k e] Hke e' Hke'. cbn [fst snd] in *.
  destruct (Hrows _ Hke) as [gops [Hg Hc]].
  destruct (Hrows' _ Hke') as [gops' [Hg' Hc']]. cbn [fst snd] in *.
  apply (Permutation_in _ (Permutation_sym HP)) in Hg'.
  rewrite (NoDup_keys_unique table k gops gops' Hnd Hg Hg') in Hc.
  now apply (computed_from_unique m (Table.scored gops')).
Qed.

Lemma utt_main_order_invariant_witness :
  @main Plain.runtime (Some "weighted") false MoreSamples.table
    = @main Plain.runtime (Some "weighted") false (rev MoreSamples.table).
Proof.
  apply (utt_main_order_invariant Plain.runtime).
  - right. right. right. left. reflexivity.
  - repeat constructor.
  - repeat constructor; simpl; intuition discriminate.
  - apply Permutation_rev.
Defined.

End AggUttOrder.

(** * Part IV: the scripts on binary64 floats *)

(** ** The specification of binary64 arithmetic *)

Module Binary64Facts.

Import Binary64.

(** *** The order *)

Lemma sf_compare_refl x : number x = true -> SFcompare x x = Some Eq.
Proof.
  destruct x as [s|s| |s m e]; simpl; try discriminate; intros _.
  - reflexivity.
  - now destruct s.
  - rewrite Z.compare_refl.
    change (Pos.compare_cont Eq m m) with (Pos.compare m m).
    rewrite Pos.compare_refl. now destruct s.
Qed.

Lemma sf_compare_antisym x y :
  SFcompare y x = option_map CompOpp (SFcompare x y).
Proof.
  destruct x as [s|s| |s m e], y as [s'|s'| |s' m' e']; simpl;
    try reflexivity; try (now destruct s); try (now destruct s');
    try (now destruct s, s').
  change (Pos.compare_cont Eq m m') with (Pos.compare m m').
  change (Pos.compare_cont Eq m' m) with (Pos.compare m' m).
  rewrite (Z.compare_antisym e e'), (Pos.compare_antisym m m').
  destruct s, s'; try reflexivity;
    destruct (e ?= e')%Z; simpl; try reflexivity;
    destruct (m ?= m')%positive; reflexivity.
Qed.

Lemma sf_compare_number x y :
  number x = true -> number y = true -> exists c, SFcompare x y = Some c.
Proof. destruct x, y; simpl; try discriminate; eauto. Qed.

Lemma sf_compare_some x y c :
  SFcompare x y = Some c -> number x = true /\ number y = true.
Proof. destruct x, y; simpl; try discriminate; auto. Qed.

(** The three comparisons in terms of [SFcompare]. *)
Ltac by_compare x y :=
  unfold SFleb, SFltb, SFeqb;
  try rewrite (sf_compare_antisym x y);
  destruct (SFcompare x y) as [[| |]|]; simpl;
  try discriminate; try reflexivity; auto.

Lemma sf_leb_refl x : number x = true -> SFleb x x = true.
Proof. intro H. unfold SFleb. now rewrite sf_compare_refl. Qed.

Lemma sf_ltb_leb x y : SFltb x y = true -> SFleb x y = true.
Proof. by_compare x y. Qed.

Lemma sf_leb_total x y :
  number x = true -> number y = true ->
  SFltb x y = false -> SFleb y x = true.
Proof.
  intros Hx Hy. destruct (sf_compare_number x y Hx Hy) as [c Hc].
  unfold SFleb, SFltb. rewrite (sf_compare_antisym x y), Hc.
  now destruct c.
Qed.

Lemma sf_leb_flip x y :
  number x = true -> number y = true ->
  SFleb x y = false -> SFleb y x = true.
Proof.
  intros Hx Hy. destruct (sf_compare_number x y Hx Hy) as [c Hc].
  unfold SFleb. rewrite (sf_compare_antisym x y), Hc.
  now destruct c.
Qed.

Lemma sf_leb_not_ltb x y : SFleb x y = true -> SFltb y x = false.
Proof. by_compare x y. Qed.

Lemma sf_leb_antisym x y :
  SFleb x y = true -> SFleb y x = true -> SFeqb x y = true.
Proof. by_compare x y. Qed.

Lemma sf_eqb_leb x y : SFeqb x y = true -> SFleb x y = true.
Proof. by_compare x y. Qed.

Lemma sf_eqb_sym x y : SFeqb x y = SFeqb y x.
Proof.
  unfold SFeqb. rewrite (sf_compare_antisym x y).
  now destruct (SFcompare x y) as [[| |]|].
Qed.

Lemma sf_leb_number x y :
  SFleb x y = true -> number x = true /\ number y = true.
Proof.
  unfold SFleb. destruct (SFcompare x y) as [c|] eqn:E; [|discriminate].
  intros _. exact (sf_compare_some x y c E).
Qed.

Lemma sf_ltb_number x y :
  SFltb x y = true -> number x = true /\ number y = true.
Proof. intro H. apply sf_leb_number, sf_ltb_leb, H. Qed.

Ltac order_cases :=
  repeat match goal with
  | s : bool |- _ => destruct s
  end; simpl; try discriminate; try reflexivity.

Lemma sf_leb_trans x y z :
  SFleb x y = true -> SFleb y z = true -> SFleb x z = true.
Proof.
  unfold SFleb.
  destruct x as [s1|s1| |s1 m1 e1], y as [s2|s2| |s2 m2 e2],
           z as [s3|s3| |s3 m3 e3]; simpl;
    try discriminate; try reflexivity; order_cases.
  all: change (Pos.compare_cont Eq m1 m2) with (Pos.compare m1 m2);
       change (Pos.compare_cont Eq m2 m3) with (Pos.compare m2 m3);
       change (Pos.compare_cont Eq m1 m3) with (Pos.compare m1 m3).
  all: destruct (Z.compare_spec e1 e2), (Z.compare_spec e2 e3),
         (Z.compare_spec e1 e3); try lia; simpl;
       try discriminate; try reflexivity; subst.
  all: destruct (Pos.compare_spec m1 m2), (Pos.compare_spec m2 m3),
         (Pos.compare_spec m1 m3); simpl; try discriminate;
       try reflexivity; try lia.
Qed.

Lemma sf_leb_ltb_trans x y z :
  SFleb x y = true -> SFltb y z = true -> SFltb x z = true.
Proof.
  intros Hxy Hyz.
  destruct (sf_leb_number _ _ Hxy) as [Hx _].
  destruct (sf_ltb_number _ _ Hyz) as [_ Hz].
  destruct (SFltb x z) eqn:E; [reflexivity|].
  pose proof (sf_leb_total x z Hx Hz E) as Hzx.
  pose proof (sf_leb_trans z x y Hzx Hxy) as Hzy.
  apply sf_leb_not_ltb in Hzy. congruence.
Qed.

(** *** Rounding never makes a NaN *)

Section Rounding.
Variables prec emax : Z.

Lemma sf_shr_1_nonneg mrs : (0 <= shr_m mrs)%Z -> (0 <= shr_m (shr_1 mrs))%Z.
Proof.
  destruct mrs as [m r s]. simpl.
  destruct m as [|p|p]; [|destruct p|]; simpl; lia.
Qed.

Lemma sf_iter_shr_1_nonneg p :
  forall mrs, (0 <= shr_m mrs)%Z -> (0 <= shr_m (iter_pos shr_1 p mrs))%Z.
Proof.
  induction p as [p IH|p IH|]; intros mrs H; simpl.
  - apply IH, IH, sf_shr_1_nonneg, H.
  - apply IH, IH, H.
  - apply sf_shr_1_nonneg, H.
Qed.

Lemma sf_shr_fexp_nonneg m e l :
  (0 <= m)%Z -> (0 <= shr_m (fst (shr_fexp prec emax m e l)))%Z.
Proof.
  intro H. unfold shr_fexp, shr.
  assert (H0 : (0 <= shr_m (shr_record_of_loc m l))%Z)
    by (destruct l as [|[| |]]; exact H).
  destruct (fexp prec emax (Zdigits2 m + e) - e)%Z; simpl;
    [exact H0 | apply sf_iter_shr_1_nonneg, H0 | exact H0].
Qed.

Lemma sf_round_nearest_even_nonneg m l :
  (0 <= m)%Z -> (0 <= round_nearest_even m l)%Z.
Proof.
  intro H. destruct l as [|[| |]]; simpl; try lia.
  destruct (Z.even m); lia.
Qed.

Lemma sf_binary_round_aux_number s m e l :
  (0 <= m)%Z -> number (binary_round_aux prec emax s m e l) = true.
Proof.
  intro H. unfold binary_round_aux.
  pose proof (sf_shr_fexp_nonneg m e l H) as H1.
  destruct (shr_fexp prec emax m e l) as [mrs' e']. simpl in H1.
  pose proof (sf_shr_fexp_nonneg _ e' loc_Exact
                (sf_round_nearest_even_nonneg _ (loc_of_shr_record mrs') H1))
    as H2.
  destruct (shr_fexp prec emax _ e' loc_Exact) as [mrs'' e'']. simpl in H2.
  destruct (shr_m mrs''); [reflexivity | | lia].
  now destruct (e'' <=? emax - prec)%Z.
Qed.

Lemma sf_binary_normalize_number m e s :
  number (binary_normalize prec emax m e s) = true.
Proof.
  unfold binary_normalize, binary_round.
  destruct m as [|p|p]; [reflexivity| |];
    destruct (shl_align _ _ _); apply sf_binary_round_aux_number; lia.
Qed.

(** A sum of two numbers one of which is finite is a number. *)
Lemma sf_add_number x y :
  number x = true -> number y = true -> finite x || finite y = true ->
  number (SFadd prec emax x y) = true.
Proof.
  destruct x as [s|s| |s m e], y as [s'|s'| |s' m' e']; simpl;
    try discriminate; try reflexivity; intros _ _ _.
  - now destruct s, s'.
  - apply sf_binary_normalize_number.
Qed.

(** A difference of two numbers that are not the same infinity is a
    number. *)
Lemma sf_sub_number x y :
  number x = true -> number y = true ->
  (finite x = false -> finite y = false -> x <> y) ->
  number (SFsub prec emax x y) = true.
Proof.
  destruct x as [s|s| |s m e], y as [s'|s'| |s' m' e']; simpl;
    try discriminate; try reflexivity; intros _ _ H.
  - now destruct s, s'.
  - destruct s, s'; try reflexivity;
      now contradiction (H eq_refl eq_refl).
  - apply sf_binary_normalize_number.
Qed.

(** The product and the quotient of a number by a finite number other
    than zero are numbers. *)
Lemma sf_mul_number x y :
  number x = true -> finite y && nonzero y = true ->
  number (SFmul prec emax x y) = true.
Proof.
  destruct x as [s|s| |s m e], y as [s'|s'| |s' m' e']; simpl;
    try discriminate; try reflexivity; intros _ _.
  apply sf_binary_round_aux_number. lia.
Qed.

Lemma sf_div_number x y :
  number x = true -> finite y && nonzero y = true ->
  number (SFdiv prec emax x y) = true.
Proof.
  destruct x as [s|s| |s m e], y as [s'|s'| |s' m' e']; simpl;
    try discriminate; try reflexivity; intros _ _.
  unfold SFdiv_core_binary.
  set (m1 := match _ with Z0 => _ | Zpos _ => _ | Zneg _ => _ end).
  assert (Hm1 : (0 <= m1)%Z).
  { subst m1. destruct (_ - _ - _)%Z; try lia.
    apply Z.shiftl_nonneg. lia. }
  pose proof (Z_div_mod m1 (Zpos m') ltac:(lia)) as Hdiv.
  destruct (Z.div_eucl m1 (Zpos m')) as [q r].
  apply sf_binary_round_aux_number. nia.
Qed.

End Rounding.

(** *** Division by one and addition of zero are exact *)

Lemma sf_shr_fexp_canonical m e :
  canonical_mantissa prec emax m e = true ->
  shr_fexp prec emax (Zpos m) e loc_Exact
    = ({| shr_m := Zpos m; shr_r := false; shr_s := false |}, e).
Proof.
  unfold canonical_mantissa, shr_fexp. intro H.
  apply Z.eqb_eq in H. cbn [Zdigits2]. rewrite H, Z.sub_diag. reflexivity.
Qed.

Lemma sf_round_exact s m e :
  bounded prec emax m e = true ->
  binary_round_aux prec emax s (Zpos m) e loc_Exact = S754_finite s m e.
Proof.
  unfold bounded. intro H. apply andb_prop in H as [Hc Hb].
  unfold binary_round_aux. rewrite (sf_shr_fexp_canonical m e Hc).
  cbn [shr_m loc_of_shr_record round_nearest_even].
  rewrite (sf_shr_fexp_canonical m e Hc). cbn [shr_m]. now rewrite Hb.
Qed.

Lemma sf_div_eucl_exact a b q :
  (0 < b)%Z -> a = (b * q)%Z -> Z.div_eucl a b = (q, 0%Z).
Proof.
  intros Hb ->.
  pose proof (Z_div_mod (b * q) b ltac:(lia)) as H.
  destruct (Z.div_eucl (b * q) b) as [q' r]. destruct H as [H1 H2].
  destruct (Z.div_mod_unique b q' q r 0) as [-> ->];
    [left; exact H2 | left; lia | lia | reflexivity].
Qed.

(** A mantissa one bit too long, with its last bit zero, is rounded
    without error. *)
Lemma sf_round_exact_double s m e :
  bounded prec emax m e = true ->
  (Zpos (digits2_pos m) = prec)%Z ->
  binary_round_aux prec emax s (Zpos m~0) (e - 1) loc_Exact
    = S754_finite s m e.
Proof.
  intros Hb Hd. pose proof Hb as Hb'. unfold bounded in Hb'.
  apply andb_prop in Hb' as [Hc Hle].
  pose proof Hc as Hc'. unfold canonical_mantissa in Hc'.
  apply Z.eqb_eq in Hc'.
  unfold binary_round_aux.
  assert (E : shr_fexp prec emax (Zpos m~0) (e - 1) loc_Exact
              = ({| shr_m := Zpos m; shr_r := false; shr_s := false |}, e)).
  { unfold shr_fexp. cbn [Zdigits2 digits2_pos].
    rewrite Pos2Z.inj_succ.
    replace (fexp prec emax (Z.succ (Zpos (digits2_pos m)) + (e - 1))
             - (e - 1))%Z with 1%Z
      by (unfold fexp, SpecFloat.emin, prec, emax in *; lia).
    cbn. f_equal. lia. }
  rewrite E. cbn [shr_m loc_of_shr_record round_nearest_even].
  rewrite (sf_shr_fexp_canonical m e Hc). cbn [shr_m]. now rewrite Hle.
Qed.

Lemma sf_div_one x : valid_binary x = true -> SF64div x one = x.
Proof.
  unfold SF64div.
  destruct x as [s|s| |s m e]; simpl; intro Hv;
    try (now destruct s); try reflexivity.
  assert (Hs : xorb s false = s) by now destruct s.
  rewrite Hs. clear Hs.
  pose proof Hv as Hb. unfold bounded in Hb.
  apply andb_prop in Hb as [Hc Hle].
  unfold canonical_mantissa in Hc. apply Z.eqb_eq in Hc.
  unfold SFdiv_core_binary. cbn [Zdigits2].
  change (Zpos (digits2_pos 4503599627370496)) with 53%Z.
  change (Zpos 4503599627370496) with (2 ^ 52)%Z.
  assert (Hcases : (e = -1074 /\ Zpos (digits2_pos m) <= 53)%Z \/
                   (-1074 < e /\ Zpos (digits2_pos m) = 53)%Z)
    by (unfold fexp, SpecFloat.emin, prec, emax in Hc; lia).
  destruct Hcases as [[He Hd]|[He Hd]].
  - replace (Z.min (fexp prec emax (Zpos (digits2_pos m) + e - (53 + -52)))
               (e - -52)) with e
      by (unfold fexp, SpecFloat.emin, prec, emax; lia).
    replace (e - -52 - e)%Z with 52%Z by lia.
    rewrite (sf_div_eucl_exact _ (2 ^ 52) (Zpos m));
      [| lia | rewrite Z.shiftl_mul_pow2; lia].
    change (new_location (2 ^ 52) 0) with loc_Exact.
    now apply sf_round_exact.
  - replace (Z.min (fexp prec emax (Zpos (digits2_pos m) + e - (53 + -52)))
               (e - -52)) with (e - 1)%Z
      by (unfold fexp, SpecFloat.emin, prec, emax; lia).
    replace (e - -52 - (e - 1))%Z with 53%Z by lia.
    rewrite (sf_div_eucl_exact _ (2 ^ 52) (Zpos m~0));
      [| lia | rewrite Z.shiftl_mul_pow2; lia].
    change (new_location (2 ^ 52) 0) with loc_Exact.
    now apply sf_round_exact_double.
Qed.

(** Adding a number to +0.0 gives the number, with -0.0 turned into
    +0.0. *)
Lemma sf_zero_add x :
  SF64add (S754_zero false) x
    = match x with S754_zero _ => S754_zero false | _ => x end.
Proof. destruct x as [[|]|s| |s m e]; reflexivity. Qed.

(** Two numbers that compare equal are the same, or two zeros. *)
Lemma sf_eqb_eq x y :
  SFeqb x y = true ->
  x = y \/ (nonzero x = false /\ nonzero y = false).
Proof.
  unfold SFeqb.
  destruct x as [s|s| |s m e], y as [s'|s'| |s' m' e']; cbn [SFcompare];
    try discriminate; try (now right); try (destruct s; discriminate);
    try (destruct s'; discriminate).
  - destruct s, s'; try discriminate; now left.
  - change (Pos.compare_cont Eq m m') with (Pos.compare m m').
    destruct s, s'; try discriminate;
      destruct (Z.compare_spec e e'); try discriminate;
      destruct (Pos.compare_spec m m'); try discriminate;
      subst; now left.
Qed.

(** Adding either zero to a sum that starts from +0.0 gives the same
    result. *)
Lemma sf_add_zero_after_zero a s s' :
  SF64add (SF64add (S754_zero false) a) (S754_zero s)
    = SF64add (SF64add (S754_zero false) a) (S754_zero s').
Proof.
  rewrite sf_zero_add.
  destruct a as [[|]|[|]| |sa m e], s, s'; reflexivity.
Qed.

(** *** Small numbers stay finite *)

Lemma sf_digits2_size p : digits2_pos p = Pos.size p.
Proof. induction p as [p IH|p IH|]; simpl; now rewrite ?IH. Qed.

Lemma sf_digits_log2 p : Zdigits2 (Zpos p) = Z.succ (Z.log2 (Zpos p)).
Proof.
  cbn [Zdigits2]. rewrite sf_digits2_size.
  destruct p as [p|p|]; cbn [Pos.size Z.log2]; try reflexivity;
    now rewrite Pos2Z.inj_succ.
Qed.

Lemma sf_digits_nonneg m : (0 <= Zdigits2 m)%Z.
Proof. destruct m; simpl; lia. Qed.

Lemma sf_digits_le a b : (0 <= a <= b)%Z -> (Zdigits2 a <= Zdigits2 b)%Z.
Proof.
  intros [Ha Hab]. destruct a as [|a|a]; [apply sf_digits_nonneg | | lia].
  destruct b as [|b|b]; try lia.
  pose proof (sf_digits_log2 a). pose proof (sf_digits_log2 b).
  pose proof (Z.log2_le_mono _ _ Hab). lia.
Qed.

Lemma sf_digits_succ m : (0 <= m)%Z -> (Zdigits2 (m + 1) <= Zdigits2 m + 1)%Z.
Proof.
  intro H. destruct m as [|p|p]; [simpl; lia | | lia].
  replace (Zpos p + 1)%Z with (Zpos (p + 1)) by lia.
  pose proof (sf_digits_log2 p). pose proof (sf_digits_log2 (p + 1)).
  replace (Zpos (p + 1)) with (Z.succ (Zpos p)) in * by lia.
  pose proof (Z.log2_succ_le (Zpos p)). lia.
Qed.

Lemma sf_digits_mul a b :
  (Zdigits2 (Zpos a * Zpos b) <= Zdigits2 (Zpos a) + Zdigits2 (Zpos b))%Z.
Proof.
  change (Zpos a * Zpos b)%Z with (Zpos (a * b)).
  pose proof (sf_digits_log2 a). pose proof (sf_digits_log2 b).
  pose proof (sf_digits_log2 (a * b)). rewrite Pos2Z.inj_mul in *.
  pose proof (Z.log2_mul_above (Zpos a) (Zpos b) ltac:(lia) ltac:(lia)).
  lia.
Qed.

Lemma sf_digits_shiftl a n :
  (0 <= n)%Z -> Zdigits2 (Z.shiftl (Zpos a) n) = (Zdigits2 (Zpos a) + n)%Z.
Proof.
  intro Hn.
  assert (Hpos : (0 < Z.shiftl (Zpos a) n)%Z).
  { rewrite Z.shiftl_mul_pow2 by exact Hn.
    pose proof (Z.pow_pos_nonneg 2 n ltac:(lia) Hn). nia. }
  destruct (Z.shiftl (Zpos a) n) as [|q|q] eqn:E; try lia.
  pose proof (sf_digits_log2 a). pose proof (sf_digits_log2 q).
  pose proof (Z.log2_shiftl (Zpos a) n ltac:(lia) Hn). rewrite E in *.
  lia.
Qed.

Lemma sf_shr_1_digits mrs :
  (0 <= shr_m mrs)%Z ->
  (0 <= shr_m (shr_1 mrs))%Z /\
  Zdigits2 (shr_m (shr_1 mrs)) = Z.max 0 (Zdigits2 (shr_m mrs) - 1).
Proof.
  destruct mrs as [m r s]. cbn [shr_m shr_1].
  destruct m as [|[p|p|]|p]; cbn [shr_m Zdigits2 digits2_pos]; intro H;
    try lia; rewrite ?Pos2Z.inj_succ; split; lia.
Qed.

Lemma sf_iter_shr_1_digits p : forall mrs,
  (0 <= shr_m mrs)%Z ->
  (0 <= shr_m (iter_pos shr_1 p mrs))%Z /\
  Zdigits2 (shr_m (iter_pos shr_1 p mrs))
    = Z.max 0 (Zdigits2 (shr_m mrs) - Zpos p).
Proof.
  induction p as [p IH|p IH|]; intros mrs H; cbn [iter_pos].
  - destruct (sf_shr_1_digits mrs H) as [H1 E1].
    destruct (IH _ H1) as [H2 E2]. destruct (IH _ H2) as [H3 E3].
    split; [exact H3|]. rewrite E3, E2, E1.
    pose proof (sf_digits_nonneg (shr_m mrs)). lia.
  - destruct (IH _ H) as [H2 E2]. destruct (IH _ H2) as [H3 E3].
    split; [exact H3|]. rewrite E3, E2.
    pose proof (sf_digits_nonneg (shr_m mrs)). lia.
  - apply sf_shr_1_digits, H.
Qed.

(** What [shr_fexp] returns: a mantissa that is not negative, and an
    exponent and a number of digits within the bounds of its input. *)
Lemma sf_shr_fexp_bounds m e l b :
  (0 <= m)%Z -> (e <= b)%Z -> (Zdigits2 m + e <= b + 53)%Z ->
  (-1074 <= b)%Z ->
  let r := shr_fexp prec emax m e l in
  (0 <= shr_m (fst r))%Z /\ (snd r <= b)%Z /\
  (Zdigits2 (shr_m (fst r)) + snd r <= Z.max (Zdigits2 m + e) (snd r))%Z.
Proof.
  intros Hm He Hd Hb. unfold shr_fexp, shr.
  assert (H0 : shr_m (shr_record_of_loc m l) = m)
    by (destruct l as [|[| |]]; reflexivity).
  assert (Hf : (fexp prec emax (Zdigits2 m + e) <= b)%Z)
    by (unfold fexp, SpecFloat.emin, prec, emax; lia).
  destruct (fexp prec emax (Zdigits2 m + e) - e)%Z as [|n|n] eqn:En;
    cbn [fst snd]; rewrite ?H0.
  - repeat split; lia.
  - destruct (sf_iter_shr_1_digits n (shr_record_of_loc m l)) as [H1 E1];
      [rewrite H0; exact Hm|].
    rewrite H0 in E1. rewrite E1. repeat split; [exact H1 | lia | lia].
  - repeat split; lia.
Qed.

(** Rounding a mantissa with few digits and a small exponent gives zero
    or a finite number with a small exponent. *)
Lemma sf_round_below s m e l b :
  (0 <= m)%Z -> (e <= b)%Z -> (Zdigits2 m + e <= b + 52)%Z ->
  (-1074 <= b <= 971)%Z ->
  below b (binary_round_aux prec emax s m e l).
Proof.
  intros Hm He Hd Hb. unfold binary_round_aux.
  pose proof (sf_shr_fexp_bounds m e l b Hm He ltac:(lia) ltac:(lia)) as H1.
  destruct (shr_fexp prec emax m e l) as [mrs' e']. cbn [fst snd] in H1.
  destruct H1 as [H1 [H2 H3]].
  set (m1 := round_nearest_even (shr_m mrs') (loc_of_shr_record mrs')).
  assert (Hm1 : (0 <= m1)%Z /\ (Zdigits2 m1 <= Zdigits2 (shr_m mrs') + 1)%Z).
  { subst m1. destruct (loc_of_shr_record mrs') as [|[| |]];
      cbn [round_nearest_even]; try (split; lia).
    - destruct (Z.even (shr_m mrs')); [split; lia|].
      split; [lia | now apply sf_digits_succ].
    - split; [lia | now apply sf_digits_succ]. }
  destruct Hm1 as [Hm1 Hd1].
  pose proof (sf_shr_fexp_bounds m1 e' loc_Exact b Hm1 H2 ltac:(lia) ltac:(lia))
    as H4.
  destruct (shr_fexp prec emax m1 e' loc_Exact) as [mrs'' e''].
  cbn [fst snd] in H4. destruct H4 as [H4 [H5 _]].
  destruct (shr_m mrs'') as [|q|q]; [exact I | | lia].
  replace (e'' <=? emax - prec)%Z with true
    by (symmetry; apply Z.leb_le; unfold emax, prec; lia).
  exact H5.
Qed.

Lemma sf_div_below sx mx ex sy my ey b :
  (ex - ey <= b)%Z -> (Zdigits2 (Zpos mx) + ex - ey <= b + 52)%Z ->
  (-1074 <= b <= 971)%Z ->
  below b (SFdiv prec emax (S754_finite sx mx ex) (S754_finite sy my ey)).
Proof.
  intros He Hd Hb. cbn [SFdiv]. unfold SFdiv_core_binary.
  set (e' := Z.min _ _).
  assert (He' : (e' <= ex - ey)%Z) by (subst e'; lia).
  set (m' := match (ex - ey - e')%Z with
             | Z0 => Zpos mx | Zpos _ => _ | Zneg _ => 0%Z end).
  assert (Hm' : (0 <= m')%Z /\
                (Zdigits2 m' <= Zdigits2 (Zpos mx) + (ex - ey - e'))%Z).
  { subst m'. destruct (ex - ey - e')%Z as [|n|n] eqn:En; try lia.
    rewrite sf_digits_shiftl by lia. split; [|lia].
    apply Z.shiftl_nonneg. lia. }
  destruct Hm' as [Hm' Hdm'].
  pose proof (Z_div_mod m' (Zpos my) ltac:(lia)) as Hdiv.
  destruct (Z.div_eucl m' (Zpos my)) as [q r].
  destruct Hdiv as [Hq Hr].
  assert (Hq0 : (0 <= q <= m')%Z) by nia.
  pose proof (sf_digits_le q m' Hq0) as Hdq.
  apply sf_round_below; lia.
Qed.

Lemma sf_mul_below sx mx ex sy my ey b :
  (ex + ey <= b)%Z ->
  (Zdigits2 (Zpos mx) + Zdigits2 (Zpos my) + ex + ey <= b + 52)%Z ->
  (-1074 <= b <= 971)%Z ->
  below b (SFmul prec emax (S754_finite sx mx ex) (S754_finite sy my ey)).
Proof.
  intros He Hd Hb. cbn [SFmul].
  change (Zpos (mx * my)) with (Zpos mx * Zpos my)%Z.
  pose proof (sf_digits_mul mx my). apply sf_round_below; lia.
Qed.

Lemma sf_below_finite b x : below b x -> finite x = true.
Proof. destruct x; simpl; try reflexivity; contradiction. Qed.

(** A valid mantissa has at most 53 digits. *)
Lemma sf_valid_digits s m e :
  valid_binary (S754_finite s m e) = true -> (Zdigits2 (Zpos m) <= 53)%Z.
Proof.
  cbn [valid_binary]. unfold bounded, canonical_mantissa. intro H.
  apply andb_prop in H as [H _]. apply Z.eqb_eq in H. cbn [Zdigits2].
  unfold fexp, SpecFloat.emin, prec, emax in H. lia.
Qed.

(** A number from -2 up to, but not including, 0 can be halved and the
    half multiplied by ten: the result is finite. *)
Lemma sf_half_times_ten_finite x :
  valid_binary x = true ->
  SFleb minus_two x = true -> SFleb (S754_zero false) x = false ->
  forall h, h = SF64div x two -> valid_binary h = true ->
  finite (SF64mul h ten) = true.
Proof.
  intros Hv H2 H0 h -> Hh.
  destruct x as [s|s| |s m e]; try discriminate;
    try (destruct s; discriminate).
  destruct s; [|discriminate].
  assert (He : (e <= -51)%Z).
  { unfold SFleb, minus_two in H2. cbn [SFcompare] in H2.
    destruct (Z.compare_spec (-51) e); try lia; discriminate. }
  pose proof (sf_valid_digits _ _ _ Hv) as Hd.
  pose proof (sf_div_below true m e false 4503599627370496 (-51) 1
                ltac:(lia) ltac:(lia) ltac:(lia)) as Hb.
  unfold SF64div, two in *.
  destruct (SFdiv prec emax (S754_finite true m e)
              (S754_finite false 4503599627370496 (-51)))
    as [s1|s1| |s1 m1 e1]; try contradiction; [reflexivity|].
  cbn [below] in Hb. pose proof (sf_valid_digits _ _ _ Hh) as Hd1.
  apply (sf_below_finite 6). unfold SF64mul, ten.
  apply sf_mul_below; [lia | | lia].
  change (Zdigits2 (Zpos 5629499534213120)) with 53%Z. lia.
Qed.

End Binary64Facts.

(** ** Binary64 floats: order and arithmetic *)

Module F64Facts.

Local Open Scope float_scope.

Lemma number_spec x : F64.number x = Binary64.number (Prim2SF x).
Proof.
  unfold F64.number, is_nan. rewrite negb_involutive, eqb_spec.
  unfold SFeqb. destruct (Prim2SF x) eqn:E.
  - reflexivity.
  - now destruct s.
  - reflexivity.
  - rewrite <- E. rewrite Binary64Facts.sf_compare_refl; [now rewrite E|].
    now rewrite E.
Qed.

Lemma is_nan_number x : is_nan x = negb (F64.number x).
Proof. unfold F64.number. now rewrite negb_involutive. Qed.

Lemma is_infinity_spec x :
  is_infinity x =
    match Prim2SF x with S754_infinity _ => true | _ => false end.
Proof.
  unfold is_infinity. rewrite eqb_spec, abs_spec.
  change (Prim2SF infinity) with (S754_infinity false).
  now destruct (Prim2SF x) as [s|s| |s m e].
Qed.

Lemma is_finite_spec x : is_finite x = Binary64.finite (Prim2SF x).
Proof.
  unfold is_finite. rewrite is_nan_number, number_spec, is_infinity_spec.
  now destruct (Prim2SF x).
Qed.

Lemma is_zero_spec x : is_zero x = negb (Binary64.nonzero (Prim2SF x)).
Proof.
  unfold is_zero. rewrite eqb_spec.
  change (Prim2SF zero) with (S754_zero false).
  now destruct (Prim2SF x) as [s|[|]| |[|] m e].
Qed.

(** *** The order on numbers *)

Lemma leb_number x y :
  (x <=? y) = true -> F64.number x = true /\ F64.number y = true.
Proof. rewrite leb_spec, !number_spec. apply Binary64Facts.sf_leb_number. Qed.

Lemma ltb_number x y :
  (x <? y) = true -> F64.number x = true /\ F64.number y = true.
Proof. rewrite ltb_spec, !number_spec. apply Binary64Facts.sf_ltb_number. Qed.

Lemma leb_refl x : F64.number x = true -> (x <=? x) = true.
Proof. rewrite leb_spec, number_spec. apply Binary64Facts.sf_leb_refl. Qed.

Lemma leb_total x y :
  F64.number x = true -> F64.number y = true ->
  (x <? y) = false -> (y <=? x) = true.
Proof. rewrite ltb_spec, leb_spec, !number_spec. apply Binary64Facts.sf_leb_total. Qed.

Lemma leb_flip x y :
  F64.number x = true -> F64.number y = true ->
  (x <=? y) = false -> (y <=? x) = true.
Proof. rewrite !leb_spec, !number_spec. apply Binary64Facts.sf_leb_flip. Qed.

Lemma leb_antisym x y :
  (x <=? y) = true -> (y <=? x) = true -> (x =? y) = true.
Proof. rewrite !leb_spec, eqb_spec. apply Binary64Facts.sf_leb_antisym. Qed.

Lemma eqb_leb x y : (x =? y) = true -> (x <=? y) = true.
Proof. rewrite leb_spec, eqb_spec. apply Binary64Facts.sf_eqb_leb. Qed.

Lemma eqb_sym x y : (x =? y) = (y =? x).
Proof. rewrite !eqb_spec. apply Binary64Facts.sf_eqb_sym. Qed.

Lemma leb_trans x y z :
  (x <=? y) = true -> (y <=? z) = true -> (x <=? z) = true.
Proof. rewrite !leb_spec. apply Binary64Facts.sf_leb_trans. Qed.

Lemma leb_ltb_trans x y z :
  (x <=? y) = true -> (y <? z) = true -> (x <? z) = true.
Proof. rewrite !ltb_spec, leb_spec. apply Binary64Facts.sf_leb_ltb_trans. Qed.

Lemma nan_leb_r x y : F64.number y = false -> (x <=? y) = false.
Proof.
  intro H. destruct (x <=? y) eqn:E; [|reflexivity].
  apply leb_number in E. destruct E. congruence.
Qed.

Lemma nan_ltb_l x y : F64.number x = false -> (x <? y) = false.
Proof.
  intro H. destruct (x <? y) eqn:E; [|reflexivity].
  apply ltb_number in E. destruct E. congruence.
Qed.

Lemma nan_ltb_r x y : F64.number y = false -> (x <? y) = false.
Proof.
  intro H. destruct (x <? y) eqn:E; [|reflexivity].
  apply ltb_number in E. destruct E. congruence.
Qed.

(** *** Arithmetic on numbers *)

Lemma add_number x y :
  F64.number x = true -> F64.number y = true ->
  is_finite x || is_finite y = true -> F64.number (x + y) = true.
Proof.
  rewrite !number_spec, !is_finite_spec, add_spec.
  apply Binary64Facts.sf_add_number.
Qed.

Lemma sub_number x y :
  F64.number x = true -> F64.number y = true ->
  (is_infinity x = true -> is_infinity y = true -> x <> y) ->
  F64.number (x - y) = true.
Proof.
  rewrite !number_spec, !is_infinity_spec, sub_spec. intros Hx Hy H.
  apply Binary64Facts.sf_sub_number; [exact Hx | exact Hy |].
  intros Fx Fy E. apply Prim2SF_inj in E. revert E. apply H.
  - destruct (Prim2SF x); try reflexivity; discriminate.
  - destruct (Prim2SF y); try reflexivity; discriminate.
Qed.

Lemma mul_number x y :
  F64.number x = true -> is_finite y = true -> is_zero y = false ->
  F64.number (x * y) = true.
Proof.
  rewrite !number_spec, is_finite_spec, is_zero_spec, mul_spec.
  intros Hx Hy Hz. apply Binary64Facts.sf_mul_number; [exact Hx|].
  rewrite Hy. now destruct (Binary64.nonzero (Prim2SF y)).
Qed.

Lemma div_number x y :
  F64.number x = true -> is_finite y = true -> is_zero y = false ->
  F64.number (x / y) = true.
Proof.
  rewrite !number_spec, is_finite_spec, is_zero_spec, div_spec.
  intros Hx Hy Hz. apply Binary64Facts.sf_div_number; [exact Hx|].
  rewrite Hy. now destruct (Binary64.nonzero (Prim2SF y)).
Qed.

(** A number from -2 up to, but not including, 0 can be halved and the
    half multiplied by ten: the result is finite. *)
Lemma half_times_ten_finite x :
  (-2 <=? x) = true -> (0 <=? x) = false -> is_finite (x / 2 * 10) = true.
Proof.
  rewrite !leb_spec, is_finite_spec, mul_spec. intros H2 H0.
  apply (Binary64Facts.sf_half_times_ten_finite (Prim2SF x)).
  - apply Prim2SF_valid.
  - exact H2.
  - exact H0.
  - apply div_spec.
  - apply Prim2SF_valid.
Qed.

(** An operation on NaN gives NaN. *)
Lemma nan_add_l x y : F64.number x = false -> F64.number (x + y) = false.
Proof.
  rewrite !number_spec, add_spec. now destruct (Prim2SF x).
Qed.

Lemma nan_add_r x y : F64.number y = false -> F64.number (x + y) = false.
Proof.
  rewrite !number_spec, add_spec.
  now destruct (Prim2SF x), (Prim2SF y).
Qed.

Lemma nan_sub_l x y : F64.number x = false -> F64.number (x - y) = false.
Proof.
  rewrite !number_spec, sub_spec. now destruct (Prim2SF x).
Qed.

Lemma nan_sub_r x y : F64.number y = false -> F64.number (x - y) = false.
Proof.
  rewrite !number_spec, sub_spec.
  now destruct (Prim2SF x), (Prim2SF y).
Qed.

(** An infinity minus itself is NaN. *)
Lemma infinity_sub_self x :
  is_infinity x = true -> F64.number (x - x) = false.
Proof.
  rewrite is_infinity_spec, number_spec, sub_spec.
  now destruct (Prim2SF x) as [s|[|]| |s m e].
Qed.

Lemma nan_mul_l x y : F64.number x = false -> F64.number (x * y) = false.
Proof.
  rewrite !number_spec, mul_spec. now destruct (Prim2SF x).
Qed.

Lemma nan_div_l x y : F64.number x = false -> F64.number (x / y) = false.
Proof.
  rewrite !number_spec, div_spec. now destruct (Prim2SF x).
Qed.

(** *** Numbers that compare equal *)

Lemma eqb_refl x : F64.number x = true -> (x =? x) = true.
Proof. intro H. apply leb_antisym; now apply leb_refl. Qed.

Lemma eqb_trans x y z :
  (x =? y) = true -> (y =? z) = true -> (x =? z) = true.
Proof.
  intros Hxy Hyz. apply leb_antisym.
  - apply (leb_trans _ y); now apply eqb_leb.
  - apply (leb_trans _ y); apply eqb_leb; now rewrite eqb_sym.
Qed.

Lemma leb_eqb x x' y y' :
  (x =? x') = true -> (y =? y') = true -> (x <=? y) = (x' <=? y').
Proof.
  intros Hx Hy.
  assert (Hx' : (x' =? x) = true) by now rewrite eqb_sym.
  assert (Hy' : (y' =? y) = true) by now rewrite eqb_sym.
  destruct (x <=? y) eqn:E, (x' <=? y') eqn:E'; try reflexivity.
  - rewrite <- E'. symmetry.
    apply (leb_trans _ x); [now apply eqb_leb|].
    apply (leb_trans _ y); [exact E | now apply eqb_leb].
  - rewrite <- E.
    apply (leb_trans _ x'); [now apply eqb_leb|].
    apply (leb_trans _ y'); [exact E' | now apply eqb_leb].
Qed.

(** Two numbers that compare equal are the same, or two zeros. *)
Lemma eqb_eq x y :
  (x =? y) = true -> x = y \/ (is_zero x = true /\ is_zero y = true).
Proof.
  rewrite eqb_spec, !is_zero_spec. intro H.
  destruct (Binary64Facts.sf_eqb_eq _ _ H) as [E | [Hx Hy]].
  - left. now apply Prim2SF_inj.
  - right. now rewrite Hx, Hy.
Qed.

(** In a sum that starts from 0.0, a term can be replaced by a number
    that compares equal to it. *)
Lemma zero_add_eqb x y : (x =? y) = true -> 0 + x = 0 + y.
Proof.
  intro H. destruct (eqb_eq x y H) as [-> | [Hx Hy]]; [reflexivity|].
  apply Prim2SF_inj. rewrite !add_spec.
  change (Prim2SF 0) with (S754_zero false).
  rewrite !Binary64Facts.sf_zero_add. rewrite is_zero_spec in Hx, Hy.
  now destruct (Prim2SF x), (Prim2SF y).
Qed.

Lemma add_after_zero_eqb a x y : (x =? y) = true -> 0 + a + x = 0 + a + y.
Proof.
  intro H. destruct (eqb_eq x y H) as [-> | [Hx Hy]]; [reflexivity|].
  apply Prim2SF_inj. rewrite !add_spec.
  change (Prim2SF 0) with (S754_zero false).
  rewrite is_zero_spec in Hx, Hy.
  destruct (Prim2SF x) as [s| | |], (Prim2SF y) as [s'| | |];
    try discriminate.
  apply Binary64Facts.sf_add_zero_after_zero.
Qed.

(** *** [max] and [min] of Python *)

Lemma max_number a b :
  F64.number a = true -> F64.number (Py64.max a b) = true.
Proof.
  intro Ha. unfold Py64.max, Py64.gt. destruct (a <? b) eqn:E; [|exact Ha].
  now apply ltb_number in E.
Qed.

Lemma min_number a b :
  F64.number a = true -> F64.number (Py64.min a b) = true.
Proof.
  intro Ha. unfold Py64.min, Py64.lt. destruct (b <? a) eqn:E; [|exact Ha].
  now apply ltb_number in E.
Qed.

Lemma nan_max a b : F64.number a = false -> Py64.max a b = a.
Proof. intro H. unfold Py64.max, Py64.gt. now rewrite nan_ltb_l. Qed.

Lemma nan_min a b : F64.number a = false -> Py64.min a b = a.
Proof. intro H. unfold Py64.min, Py64.lt. now rewrite nan_ltb_r. Qed.

(** The final clamp [max(min(score, hi), lo)] of a number. *)
Lemma clamp_bounds s lo hi :
  F64.number s = true -> (lo <=? hi) = true ->
  (lo <=? Py64.max (Py64.min s hi) lo) = true /\
  (Py64.max (Py64.min s hi) lo <=? hi) = true.
Proof.
  intros Hs Hle. destruct (leb_number _ _ Hle) as [Hlo Hhi].
  assert (H1 : (Py64.min s hi <=? hi) = true).
  { unfold Py64.min, Py64.lt. destruct (hi <? s) eqn:E.
    - now apply leb_refl.
    - now apply leb_total. }
  pose proof (min_number s hi Hs) as Hn.
  unfold Py64.max, Py64.gt. destruct (Py64.min s hi <? lo) eqn:E.
  - split; [now apply leb_refl | exact Hle].
  - split; [now apply leb_total | exact H1].
Qed.

Lemma clamp_nan s lo hi :
  F64.number s = false -> Py64.max (Py64.min s hi) lo = s.
Proof. intro H. rewrite (nan_min s hi H). now apply nan_max. Qed.

Lemma clamp_inverted64 s lo hi :
  F64.number s = true -> (hi <? lo) = true ->
  Py64.max (Py64.min s hi) lo = lo.
Proof.
  intros Hs Hlt. destruct (ltb_number _ _ Hlt) as [Hhi Hlo].
  assert (H1 : (Py64.min s hi <=? hi) = true).
  { unfold Py64.min, Py64.lt. destruct (hi <? s) eqn:E.
    - now apply leb_refl.
    - now apply leb_total. }
  unfold Py64.max, Py64.gt.
  now rewrite (leb_ltb_trans _ _ _ H1 Hlt).
Qed.

End F64Facts.

(** ** [gop_to_score] on binary64 floats *)

Module Score64Facts.

Import Score64 F64Facts.
Local Open Scope float_scope.

Lemma gop_to_score_clamp g baseline lo hi :
  gop_to_score g baseline lo hi
    = Py64.max (Py64.min (raw_score g baseline lo hi) hi) lo.
Proof. reflexivity. Qed.

(** Sums, products and quotients with the constants of the source. *)
Ltac numbers :=
  repeat first
    [ assumption
    | reflexivity
    | apply max_number
    | apply min_number
    | apply add_number; [| | first [reflexivity | apply orb_true_r]]
    | apply mul_number; [| reflexivity | reflexivity]
    | apply div_number; [| reflexivity | reflexivity] ].

Lemma raw_score_number g baseline lo hi :
  comparable g baseline -> F64.number hi = true ->
  F64.number (raw_score g baseline lo hi) = true.
Proof.
  intros [Hg Hb] Hn.
  unfold raw_score. destruct baseline as [b|].
  - destruct Hb as [Hb Hfin].
    pose proof (sub_number g b Hg Hb Hfin) as Hd. cbv zeta.
    set (diff := g - b) in *. unfold Py64.ge.
    destruct (0 <=? diff) eqn:E0; [exact Hn|].
    destruct (-2 <=? diff) eqn:E2.
    { apply add_number; [exact Hn | numbers |].
      rewrite (half_times_ten_finite diff E2 E0). apply orb_true_r. }
    destruct (-5 <=? diff); numbers.
  - destruct (Py64.ge g 0); [numbers|].
    destruct (Py64.ge g (-1)); [numbers|].
    destruct (Py64.ge g (-3)); [numbers|].
    destruct (Py64.ge g (-5)); numbers.
Qed.

Lemma raw_score_nan g baseline lo hi :
  incomparable g baseline ->
  F64.number (raw_score g baseline lo hi) = false.
Proof.
  intro Hi.
  assert (Hnan : forall x, is_nan x = true -> F64.number x = false)
    by (intros x Hx; unfold F64.number; now rewrite Hx).
  unfold raw_score, Py64.ge. destruct baseline as [b|].
  - cbv zeta.
    assert (Hd : F64.number (g - b) = false).
    { destruct Hi as [Hg | [b' [E [Hb | [Hinf Hgb]]]]].
      - apply nan_sub_l, Hnan, Hg.
      - injection E as <-. apply nan_sub_r, Hnan, Hb.
      - injection E as <-. subst b. now apply infinity_sub_self. }
    set (diff := g - b) in *.
    rewrite !(nan_leb_r _ diff Hd).
    rewrite nan_max; apply nan_add_r, nan_mul_l, nan_div_l, nan_add_l, Hd.
  - destruct Hi as [Hg | [b' [E _]]]; [|discriminate E].
    apply Hnan in Hg. rewrite !(nan_leb_r _ g Hg).
    rewrite nan_max; apply nan_add_r, nan_mul_l, nan_div_l, nan_add_l, Hg.
Qed.

(** C4 (as amended).  When the raw value and the baseline are numbers
    and not the same infinity, and the bounds satisfy
    [min_score <= max_score], the score lies in
    [[min_score, max_score]]; without a baseline, a raw value of -100
    and [min_score = 0] give exactly 0, whatever [max_score]; and when
    the raw value or the baseline is NaN, or they are the same infinity,
    the score is NaN. *)
Theorem gop_to_score_in_range :
  (forall gop_value baseline min_score max_score,
     comparable gop_value baseline -> (min_score <=? max_score) = true ->
     (min_score <=? gop_to_score gop_value baseline min_score max_score)
       = true /\
     (gop_to_score gop_value baseline min_score max_score <=? max_score)
       = true) /\
  (forall max_score, gop_to_score (-100) None 0 max_score = 0) /\
  (forall gop_value baseline min_score max_score,
     incomparable gop_value baseline ->
     is_nan (gop_to_score gop_value baseline min_score max_score) = true).
Proof.
  split; [|split].
  - intros g baseline lo hi Hc Hle. rewrite gop_to_score_clamp.
    apply clamp_bounds; [|exact Hle].
    apply raw_score_number; [exact Hc|]. now apply leb_number in Hle.
  - intro hi. rewrite gop_to_score_clamp.
    change (raw_score (-100) None 0 hi) with 0.
    unfold Py64.min, Py64.max, Py64.lt, Py64.gt.
    destruct (hi <? 0) eqn:E; [now rewrite E | reflexivity].
  - intros g baseline lo hi Hnan. rewrite gop_to_score_clamp.
    pose proof (raw_score_nan g baseline lo hi Hnan) as Hs.
    rewrite (clamp_nan _ lo hi Hs). rewrite is_nan_number. now rewrite Hs.
Qed.

Lemma gop_to_score_in_range_witness :
  (0 <=? gop_to_score (-7) (Some 1) 0 100) = true /\
  (gop_to_score (-7) (Some 1) 0 100 <=? 100) = true.
Proof.
  apply (proj1 gop_to_score_in_range).
  - split; [reflexivity | split; [reflexivity | discriminate]].
  - reflexivity.
Defined.

(** C4 (the claim as stated fails).  [float] reads the text [nan] as NaN,
    and for that raw value the score is NaN, which is neither at least
    [min_score] nor at most [max_score]. *)
Lemma nan_score_out_of_range :
  Literal.float "nan" = Some nan /\
  (0 <=? gop_to_score nan None 0 100) = false /\
  (gop_to_score nan None 0 100 <=? 100) = false /\
  ~ always_in_range.
Proof.
  split; [reflexivity|]. split; [reflexivity|]. split; [reflexivity|].
  intro H. destruct (H nan None 0 100 eq_refl) as [H1 _].
  discriminate H1.
Qed.

(** X1.  With [min_score] above [max_score] the final clamp returns
    [min_score], for every raw value and baseline that are numbers and
    not the same infinity. *)
Theorem inverted_bounds_give_min_score g baseline lo hi :
  comparable g baseline -> (hi <? lo) = true ->
  gop_to_score g baseline lo hi = lo.
Proof.
  intros Hc Hlt. rewrite gop_to_score_clamp.
  apply clamp_inverted64; [|exact Hlt].
  apply raw_score_number; [exact Hc|]. now apply ltb_number in Hlt.
Qed.

Lemma inverted_bounds_give_min_score_witness :
  gop_to_score 3 (Some 1) 50 10 = 50.
Proof.
  apply inverted_bounds_give_min_score.
  - split; [reflexivity | split; [reflexivity | discriminate]].
  - reflexivity.
Defined.

End Score64Facts.

(** ** numpy reductions on binary64 floats *)

Module Np64Facts.

Import F64Facts Group64.
Local Open Scope float_scope.

Lemma minimum_numbers x y :
  F64.number x = true -> F64.number y = true ->
  let v := Np64.minimum x y in
  (v = x \/ v = y) /\ (v <=? x) = true /\ (v <=? y) = true.
Proof.
  intros Hx Hy. unfold Np64.minimum. rewrite is_nan_number, Hx, orb_false_r.
  destruct (x <=? y) eqn:E; cbv zeta.
  - repeat split; [now left | now apply leb_refl | exact E].
  - repeat split; [now right | now apply leb_flip | now apply leb_refl].
Qed.

Lemma maximum_numbers x y :
  F64.number x = true -> F64.number y = true ->
  let v := Np64.maximum x y in
  (v = x \/ v = y) /\ (x <=? v) = true /\ (y <=? v) = true.
Proof.
  intros Hx Hy. unfold Np64.maximum. rewrite is_nan_number, Hx, orb_false_r.
  destruct (y <=? x) eqn:E; cbv zeta.
  - repeat split; [now left | now apply leb_refl | exact E].
  - repeat split; [now right | now apply leb_flip | now apply leb_refl].
Qed.

Lemma fold_minimum r : forall x,
  F64.number x = true -> numbers r ->
  let v := fold_left Np64.minimum r x in
  In v (x :: r) /\ F64.number v = true /\
  (v <=? x) = true /\ Forall (fun y => (v <=? y) = true) r.
Proof.
  induction r as [|y r IH]; intros x Hx Hr; cbn [fold_left]; cbv zeta.
  - repeat split; [now left | exact Hx | now apply leb_refl | constructor].
  - pose proof (Forall_inv Hr) as Hy. apply Forall_inv_tail in Hr.
    destruct (minimum_numbers x y Hx Hy) as [Hv [Hvx Hvy]].
    assert (Hn : F64.number (Np64.minimum x y) = true)
      by (destruct Hv as [-> | ->]; assumption).
    destruct (IH _ Hn Hr) as [Hin [Hnum [Hle Hall]]].
    repeat split.
    + destruct Hin as [Hin | Hin]; [|now right; right].
      rewrite <- Hin. destruct Hv as [-> | ->]; [now left | now right; left].
    + exact Hnum.
    + exact (leb_trans _ _ _ Hle Hvx).
    + constructor; [exact (leb_trans _ _ _ Hle Hvy) | exact Hall].
Qed.

Lemma fold_maximum r : forall x,
  F64.number x = true -> numbers r ->
  let v := fold_left Np64.maximum r x in
  In v (x :: r) /\ F64.number v = true /\
  (x <=? v) = true /\ Forall (fun y => (y <=? v) = true) r.
Proof.
  induction r as [|y r IH]; intros x Hx Hr; cbn [fold_left]; cbv zeta.
  - repeat split; [now left | exact Hx | now apply leb_refl | constructor].
  - pose proof (Forall_inv Hr) as Hy. apply Forall_inv_tail in Hr.
    destruct (maximum_numbers x y Hx Hy) as [Hv [Hvx Hvy]].
    assert (Hn : F64.number (Np64.maximum x y) = true)
      by (destruct Hv as [-> | ->]; assumption).
    destruct (IH _ Hn Hr) as [Hin [Hnum [Hle Hall]]].
    repeat split.
    + destruct Hin as [Hin | Hin]; [|now right; right].
      rewrite <- Hin. destruct Hv as [-> | ->]; [now left | now right; left].
    + exact Hnum.
    + exact (leb_trans _ _ _ Hvx Hle).
    + constructor; [exact (leb_trans _ _ _ Hvy Hle) | exact Hall].
Qed.

(** [np.min] and [np.max] of a group of numbers. *)
Lemma amin_amax a :
  a <> [] -> numbers a ->
  exists lo hi,
    Np64.amin a = Ok lo /\ Np64.amax a = Ok hi /\ spans a lo hi.
Proof.
  intros Hne Ha. destruct a as [|x r]; [contradiction|].
  pose proof (Forall_inv Ha) as Hx. pose proof (Forall_inv_tail Ha) as Hr.
  destruct (fold_minimum r x Hx Hr) as [Hin [_ [Hle Hall]]].
  destruct (fold_maximum r x Hx Hr) as [Hin' [_ [Hle' Hall']]].
  eexists. eexists. split; [reflexivity|]. split; [reflexivity|].
  split; [exact Hin|]. split; [exact Hin'|].
  constructor; [now split|].
  rewrite Forall_forall in *. intros y Hy. split; auto.
Qed.

(** *** The mean of one value *)

Lemma sum_one x : Np64.sum [x] = 0 + (0 + x).
Proof. reflexivity. Qed.

Lemma mean_one64 x : F64.number x = true -> (Np64.mean [x] =? x) = true.
Proof.
  intro Hx. unfold Np64.mean. rewrite sum_one.
  change (F64.of_nat (length [x])) with 1.
  rewrite eqb_spec, div_spec.
  change (Prim2SF 1) with Binary64.one.
  rewrite Binary64Facts.sf_div_one by apply Prim2SF_valid.
  rewrite !add_spec. change (Prim2SF 0) with (S754_zero false).
  rewrite !Binary64Facts.sf_zero_add.
  rewrite number_spec in Hx.
  destruct (Prim2SF x) as [s|s| |s m e] eqn:E; try discriminate;
    try reflexivity.
  - now destruct s.
  - unfold SFeqb. now rewrite Binary64Facts.sf_compare_refl.
Qed.

(** *** The median of an odd number of values *)

Lemma numbers_no_nan a : numbers a -> existsb is_nan a = false.
Proof.
  induction 1 as [|x a Hx _ IH]; [reflexivity|].
  cbn [existsb]. rewrite IH, is_nan_number, Hx. reflexivity.
Qed.

Lemma slice_one64 (l : list float) k :
  (k < length l)%nat -> Np64.slice k (k + 1) l = [nth k l 0].
Proof.
  intro Hk. unfold Np64.slice. replace (k + 1 - k)%nat with 1%nat by lia.
  rewrite (NpFacts.skipn_nth 0 l k Hk). reflexivity.
Qed.

Lemma median_odd64 a :
  numbers a -> Nat.odd (length a) = true ->
  exists x, In x a /\ (Np64.median a =? x) = true.
Proof.
  intros Ha Hodd. unfold Np64.median. rewrite (numbers_no_nan a Ha).
  pose proof (SortFacts.sorted_perm leb a) as HP.
  rewrite (Permutation_length HP), Hodd.
  assert (Hlen : (length a / 2 < length (Py.sorted leb a))%nat).
  { rewrite (Permutation_length HP). apply NpFacts.half_lt.
    destruct a; [discriminate | simpl; lia]. }
  rewrite (slice_one64 _ _ Hlen).
  set (x := nth (length a / 2) (Py.sorted leb a) 0).
  assert (Hin : In x a)
    by (apply (Permutation_in _ HP); now apply nth_In).
  exists x. split; [exact Hin|]. apply mean_one64.
  unfold numbers in Ha. rewrite Forall_forall in Ha. now apply Ha.
Qed.

(** A value equal to one that lies between two bounds lies between
    them. *)
Lemma between_eqb lo hi v x :
  (v =? x) = true -> between lo x hi -> between lo v hi.
Proof.
  intros He [H1 H2]. split.
  - apply (leb_trans _ x); [exact H1|]. apply eqb_leb.
    now rewrite eqb_sym.
  - apply (leb_trans _ x); [|exact H2]. now apply eqb_leb.
Qed.

Lemma spans_between a lo hi x : spans a lo hi -> In x a -> between lo x hi.
Proof.
  intros [_ [_ Hall]] Hx. rewrite Forall_forall in Hall. now apply Hall.
Qed.

End Np64Facts.

(** ** [sorted] on the elements that an order is total on *)

Module SortOnFacts.

Section On.
Context {A : Type} (leb : A -> A -> bool) (eqv : A -> A -> Prop).
Context (P : A -> Prop).
Hypothesis eqv_refl : forall a, P a -> eqv a a.
Hypothesis eqv_trans : forall a b c, eqv a b -> eqv b c -> eqv a c.
Hypothesis leb_total :
  forall a b, P a -> P b -> leb a b = true \/ leb b a = true.
Hypothesis leb_trans :
  forall a b c, leb a b = true -> leb b c = true -> leb a c = true.
Hypothesis leb_antisym :
  forall a b, leb a b = true -> leb b a = true -> eqv a b.
Hypothesis leb_proper :
  forall a a' b b', eqv a a' -> eqv b b' -> leb a b = leb a' b'.

Local Abbreviation insert := (Py.insert leb).
Local Abbreviation sorted := (Py.sorted leb).

Lemma insert_eqv_on x x' l l' :
  eqv x x' -> Forall2 eqv l l' -> Forall2 eqv (insert x l) (insert x' l').
Proof.
  intros Hx. induction 1 as [|h h' t t' Hh Ht IH]; simpl.
  - now repeat constructor.
  - rewrite (leb_proper h h' x x' Hh Hx).
    destruct (leb h' x').
    + now constructor.
    + constructor; [exact Hx|]. now constructor.
Qed.

Lemma Forall2_refl_on l : Forall P l -> Forall2 eqv l l.
Proof. induction 1; constructor; auto. Qed.

Lemma Forall2_trans_on l1 l2 l3 :
  Forall2 eqv l1 l2 -> Forall2 eqv l2 l3 -> Forall2 eqv l1 l3.
Proof.
  intro H. revert l3. induction H as [|a b l1 l2 Hab H12 IH]; intros l3 H23.
  - inversion H23. constructor.
  - inversion H23 as [|b' c l2' l3' Hbc H23']; subst.
    constructor; [now apply eqv_trans with b | now apply IH].
Qed.

Lemma insert_two_on x y t :
  P x -> P y -> Forall P t ->
  Forall2 eqv (if leb y x then y :: x :: t else x :: y :: t)
              (if leb x y then x :: y :: t else y :: x :: t).
Proof.
  intros Hx Hy Ht.
  assert (Hr : forall l, Forall P l -> Forall2 eqv l l)
    by apply Forall2_refl_on.
  destruct (leb y x) eqn:Eyx, (leb x y) eqn:Exy.
  - constructor; [now apply leb_antisym|].
    constructor; [now apply leb_antisym | now apply Hr].
  - apply Hr. now repeat constructor.
  - apply Hr. now repeat constructor.
  - destruct (leb_total x y Hx Hy); congruence.
Qed.

Lemma insert_comm_on x y l :
  P x -> P y -> Forall P l ->
  Forall2 eqv (insert x (insert y l)) (insert y (insert x l)).
Proof.
  intros Hx Hy Hl. induction Hl as [|h t Hh Ht IH]; simpl.
  - apply insert_two_on; auto.
  - assert (Hr : Forall2 eqv t t) by now apply Forall2_refl_on.
    destruct (leb h y) eqn:Ehy, (leb h x) eqn:Ehx; simpl;
      rewrite ?Ehy, ?Ehx.
    + constructor; [now apply eqv_refl | exact IH].
    + assert (Exy : leb x y = true).
      { apply leb_trans with h; [|exact Ehy].
        destruct (leb_total h x Hh Hx); congruence. }
      simpl. rewrite ?Exy, ?Ehy.
      apply Forall2_refl_on. repeat constructor; auto.
      clear -Hy Ht. induction Ht; simpl; [now repeat constructor|].
      destruct (leb x y); now repeat constructor.
    + assert (Eyx : leb y x = true).
      { apply leb_trans with h; [|exact Ehx].
        destruct (leb_total h y Hh Hy); congruence. }
      simpl. rewrite ?Eyx, ?Ehx.
      apply Forall2_refl_on. repeat constructor; auto.
      clear -Hx Ht. induction Ht; simpl; [now repeat constructor|].
      destruct (leb x0 x); now repeat constructor.
    + apply insert_two_on; auto.
Qed.

Lemma insert_on x l : P x -> Forall P l -> Forall P (insert x l).
Proof.
  intros Hx Hl. induction Hl as [|h t Hh Ht IH]; simpl.
  - now repeat constructor.
  - destruct (leb h x); now repeat constructor.
Qed.

Lemma fold_insert_on l : Forall P l -> Forall P (fold_right insert [] l).
Proof.
  induction 1 as [|x l Hx Hl IH]; simpl; [constructor|].
  now apply insert_on.
Qed.

Lemma fold_insert_perm_on l l' :
  Permutation l l' -> Forall P l ->
  Forall2 eqv (fold_right insert [] l) (fold_right insert [] l').
Proof.
  induction 1 as [|x l l' _ IH|x y l|l1 l2 l3 H12 IH1 _ IH2]; simpl;
    intro HP.
  - constructor.
  - apply insert_eqv_on.
    + apply eqv_refl. now apply Forall_inv in HP.
    + apply IH. now apply Forall_inv_tail in HP.
  - pose proof (Forall_inv HP) as Hy.
    pose proof (Forall_inv (Forall_inv_tail HP)) as Hx.
    apply insert_comm_on; auto.
    apply fold_insert_on. now apply Forall_inv_tail, Forall_inv_tail in HP.
  - apply Forall2_trans_on with (fold_right insert [] l2); [now apply IH1|].
    apply IH2. now rewrite <- H12.
Qed.

(** Sorting two orders of the same elements gives the same list, up to
    [eqv]. *)
Lemma sorted_perm_on l l' :
  Permutation l l' -> Forall P l -> Forall2 eqv (sorted l) (sorted l').
Proof.
  intros HP Hl. rewrite !SortFacts.sorted_fold_right.
  apply fold_insert_perm_on.
  - now rewrite <- !Permutation_rev.
  - now rewrite <- Permutation_rev.
Qed.

End On.

Lemma Forall2_skipn_on {A} (R : A -> A -> Prop) n : forall l l',
  Forall2 R l l' -> Forall2 R (skipn n l) (skipn n l').
Proof.
  induction n as [|n IH]; intros l l' H; [exact H|].
  destruct H; simpl; [constructor | now apply IH].
Qed.

Lemma Forall2_firstn_on {A} (R : A -> A -> Prop) n : forall l l',
  Forall2 R l l' -> Forall2 R (firstn n l) (firstn n l').
Proof.
  induction n as [|n IH]; intros l l' H; [constructor|].
  destruct H; simpl; constructor; [assumption | now apply IH].
Qed.

End SortOnFacts.

(** ** The median of the same numbers in two orders *)

Module Median64Facts.

Import F64Facts Group64.
Local Open Scope float_scope.

Lemma sorted_perm_eqb a a' :
  Permutation a a' -> numbers a ->
  Forall2 (fun x y => (x =? y) = true)
    (Py.sorted leb a) (Py.sorted leb a').
Proof.
  apply (SortOnFacts.sorted_perm_on leb (fun x y => (x =? y) = true)
           (fun x => F64.number x = true)).
  - apply eqb_refl.
  - apply eqb_trans.
  - intros x y Hx Hy. destruct (x <=? y) eqn:E; [now left | right].
    now apply leb_flip.
  - apply leb_trans.
  - apply leb_antisym.
  - apply leb_eqb.
Qed.

(** The mean of one or two numbers does not change when they are
    replaced by numbers that compare equal. *)
Lemma mean_eqb l l' :
  Forall2 (fun x y => (x =? y) = true) l l' -> (length l <= 2)%nat ->
  Np64.mean l = Np64.mean l'.
Proof.
  intros H Hlen.
  destruct H as [|x x' l l' Hx H]; [reflexivity|].
  destruct H as [|y y' l l' Hy H].
  - unfold Np64.mean. f_equal.
    change (Np64.sum [x]) with (0 + (0 + x)).
    change (Np64.sum [x']) with (0 + (0 + x')).
    now rewrite (zero_add_eqb x x' Hx).
  - destruct H as [|z z' l l' Hz H]; [|simpl in Hlen; lia].
    unfold Np64.mean. f_equal.
    change (Np64.sum [x; y]) with (0 + (0 + x + y)).
    change (Np64.sum [x'; y']) with (0 + (0 + x' + y')).
    now rewrite (zero_add_eqb x x' Hx), (add_after_zero_eqb x' y y' Hy).
Qed.

Lemma slice_eqb lo hi l l' :
  Forall2 (fun x y => (x =? y) = true) l l' ->
  Forall2 (fun x y => (x =? y) = true)
    (Np64.slice lo hi l) (Np64.slice lo hi l').
Proof.
  intro H. unfold Np64.slice.
  now apply SortOnFacts.Forall2_firstn_on, SortOnFacts.Forall2_skipn_on.
Qed.

Lemma slice_length lo hi (l : list float) :
  (length (Np64.slice lo hi l) <= hi - lo)%nat.
Proof. unfold Np64.slice. apply firstn_le_length. Qed.

(** [np.median] of the same numbers in two orders. *)
Lemma median_perm64 a a' :
  Permutation a a' -> numbers a -> Np64.median a = Np64.median a'.
Proof.
  intros HP Ha.
  assert (Ha' : numbers a') by (unfold numbers in *; now rewrite <- HP).
  unfold Np64.median.
  rewrite (Np64Facts.numbers_no_nan a Ha), (Np64Facts.numbers_no_nan a' Ha').
  pose proof (sorted_perm_eqb a a' HP Ha) as Hs.
  rewrite !(Permutation_length (SortFacts.sorted_perm leb _)).
  rewrite <- (Permutation_length HP).
  destruct (Nat.odd (length a)); apply mean_eqb;
    try (now apply slice_eqb);
    etransitivity; try apply slice_length; lia.
Qed.

End Median64Facts.

(** ** aggregate_ml_scores.py on binary64 floats: the reading loop *)

Module Reader64Facts.

Import AggML64 Flat64.
Local Open Scope string_scope.

Lemma get_append64 k d u v :
  Dict.get k (append d u v) =
    if u =? k then
      Some (match Dict.get k d with Some l => l ++ [v] | None => [v] end)%list
    else Dict.get k d.
Proof.
  induction d as [|[k' l] r IH]; simpl.
  - destruct (u =? k); reflexivity.
  - destruct (k' =? u) eqn:Eu.
    + apply String.eqb_eq in Eu. subst k'. simpl.
      destruct (u =? k); reflexivity.
    + simpl. destruct (k' =? k) eqn:Ek.
      * apply String.eqb_eq in Ek. subst k'.
        rewrite String.eqb_sym, Eu. reflexivity.
      * exact IH.
Qed.

(** The two dictionary updates of the loop body amount to [append]. *)
Lemma body_update64 d u v :
  let d1 := if negb (Dict.mem u d) then Dict.set u [] d else d in
  exists l, Dict.get u d1 = Some l /\
            Dict.set u (l ++ [v])%list d1 = append d u v.
Proof.
  induction d as [|[k' l'] r IH]; cbn zeta.
  - cbn [Dict.mem existsb negb Dict.set Dict.get].
    rewrite String.eqb_refl. exists []. split; reflexivity.
  - cbn [Dict.mem existsb fst]. destruct (k' =? u) eqn:Eu.
    + cbn [orb negb Dict.get]. rewrite Eu. exists l'.
      split; [reflexivity|]. simpl. rewrite Eu. reflexivity.
    + cbn [orb]. cbn zeta in IH. fold (Dict.mem u r).
      destruct (negb (Dict.mem u r)) eqn:Em;
        destruct IH as [l [Hg Hs]]; exists l;
        cbn [Dict.get Dict.set append]; rewrite ?Eu;
        cbn [Dict.get Dict.set append]; rewrite ?Eu;
        (split; [exact Hg | now rewrite Hs]).
Qed.

Lemma read_line_parse64 `{Runtime64} d line :
  read_line d line =
    match parse line with
    | Skip => Ok d
    | Bad => Raise ValueError
    | Rec u v => Ok (append d u v)
    end.
Proof.
  unfold read_line, parse, Flat.parts_of.
  destruct (length _ <? 2)%nat; [reflexivity|].
  destruct (py_float64 _) as [v|]; [|reflexivity].
  destruct (body_update64 d
              (AggML.utt_id_of
                 (nth 0 (Str.split Str.tab (Str.strip line)) "")) v)
    as [l [Hg Hs]].
  cbn zeta in Hg, Hs. rewrite Hg, Hs. reflexivity.
Qed.

Lemma read_lines_parse64 `{Runtime64} lines : forall d,
  for_fold read_line d lines =
    if existsb (fun line => is_bad (parse line)) lines
    then Raise ValueError
    else Ok (build (records lines) d).
Proof.
  induction lines as [|line rest IH]; intro d; [reflexivity|].
  cbn [for_fold existsb]. rewrite read_line_parse64.
  unfold records. cbn [flat_map]. fold (records rest).
  destruct (parse line) as [| |u v]; cbn [bind is_bad orb record_of app].
  - apply IH.
  - reflexivity.
  - rewrite IH. reflexivity.
Qed.

Lemma get_build64 k recs : forall d,
  Dict.get k (build recs d) =
    match Dict.get k d, values_of k recs with
    | Some l, vs => Some (l ++ vs)%list
    | None, [] => None
    | None, vs => Some vs
    end.
Proof.
  unfold build, values_of.
  induction recs as [|[u v] recs IH]; intro d; cbn [fold_left filter fst snd].
  - simpl. destruct (Dict.get k d); [now rewrite app_nil_r | reflexivity].
  - rewrite IH, get_append64.
    destruct (u =? k) eqn:E; cbn [map snd].
    + destruct (Dict.get k d) as [l|].
      * now rewrite <- app_assoc.
      * reflexivity.
    + reflexivity.
Qed.

Lemma get_build_empty64 k recs :
  Dict.get k (build recs Dict.empty) =
    match values_of k recs with [] => None | vs => Some vs end.
Proof. rewrite get_build64. reflexivity. Qed.

Lemma keys_append64 d u v :
  Dict.keys (append d u v) =
    if Dict.mem u d then Dict.keys d else (Dict.keys d ++ [u])%list.
Proof.
  induction d as [|[k' l] r IH]; [reflexivity|].
  cbn [append Dict.mem existsb fst]. destruct (k' =? u) eqn:E.
  - reflexivity.
  - cbn [orb Dict.keys map fst]. fold (Dict.mem u r).
    unfold Dict.keys in IH. rewrite IH.
    destruct (Dict.mem u r); reflexivity.
Qed.

Lemma keys_append_NoDup64 d u v :
  NoDup (Dict.keys d) -> NoDup (Dict.keys (append d u v)).
Proof.
  intro Hnd. rewrite keys_append64. destruct (Dict.mem u d) eqn:E; [exact Hnd|].
  apply NoDup_app; [exact Hnd | repeat constructor; simpl; tauto |].
  intros x Hx [<- | []].
  apply ReaderFacts.mem_keys in Hx. congruence.
Qed.

Lemma keys_build_NoDup64 recs : forall d,
  NoDup (Dict.keys d) -> NoDup (Dict.keys (build recs d)).
Proof.
  unfold build. induction recs as [|[u v] recs IH]; intros d Hnd; simpl.
  - exact Hnd.
  - apply IH. now apply keys_append_NoDup64.
Qed.

(** The keys of the dictionary are the ids that have a record. *)
Lemma keys_build_In64 k recs :
  In k (Dict.keys (build recs Dict.empty)) <-> values_of k recs <> [].
Proof.
  split.
  - intros Hin Hnil.
    assert (Hg : Dict.get k (build recs Dict.empty) = None)
      by (rewrite get_build_empty64, Hnil; reflexivity).
    apply ReaderFacts.get_None_keys in Hg. contradiction.
  - intro Hne. destruct (in_dec string_dec k
                           (Dict.keys (build recs Dict.empty))) as [|Hn];
      [assumption|].
    apply ReaderFacts.get_None_keys in Hn. rewrite get_build_empty64 in Hn.
    destruct (values_of k recs); [congruence | discriminate].
Qed.

(** *** Reordering the lines *)

Lemma records_perm64 `{Runtime64} lines lines' :
  Permutation lines lines' -> Permutation (records lines) (records lines').
Proof. intro HP. unfold records. now apply Permutation_flat_map. Qed.

Lemma values_of_perm64 k recs recs' :
  Permutation recs recs' ->
  Permutation (values_of k recs) (values_of k recs').
Proof.
  intro HP. unfold values_of.
  now apply Permutation_map, ReaderFacts.filter_perm.
Qed.

Lemma keys_build_perm64 recs recs' :
  Permutation recs recs' ->
  Permutation (Dict.keys (build recs Dict.empty))
              (Dict.keys (build recs' Dict.empty)).
Proof.
  intro HP. apply NoDup_Permutation.
  - apply keys_build_NoDup64. constructor.
  - apply keys_build_NoDup64. constructor.
  - intro k. rewrite !keys_build_In64.
    pose proof (values_of_perm64 k _ _ HP) as Hv.
    split; intros Hne Hnil; apply Hne.
    + rewrite Hnil in Hv. now apply Permutation_nil.
    + rewrite Hnil in Hv. apply Permutation_sym in Hv.
      now apply Permutation_nil.
Qed.

End Reader64Facts.

(** ** aggregate_ml_scores.py on binary64 floats: the rows *)

Module AggML64Facts.

Import AggML64 Flat64 Group64 F64Facts.
Local Open Scope string_scope.

Lemma aggregate_ok64 m scores :
  In m AggML.choices -> scores <> [] ->
  exists v, aggregate m scores = Ok (Some v).
Proof.
  intros Hin Hne. unfold aggregate.
  destruct scores as [|x r]; [contradiction|].
  destruct Hin as [<- | [<- | [<- | [<- | []]]]];
    cbn [String.eqb Ascii.eqb Bool.eqb]; eexists; reflexivity.
Qed.

(** The writing loop body on a group that is not empty. *)
Lemma write_row_ok64 m d k scores :
  In m AggML.choices -> Dict.get k d = Some scores -> scores <> [] ->
  exists v mn mx,
    aggregate m scores = Ok (Some v) /\ Np64.amin scores = Ok mn /\
    Np64.amax scores = Ok mx /\
    write_row m d k =
      Ok {| utt_id := k; agg_score := v; num_phones := length scores;
            min_score := mn; max_score := mx;
            std_score := Np64.std scores |}.
Proof.
  intros Hin Hg Hne.
  destruct (aggregate_ok64 m scores Hin Hne) as [v Hv].
  destruct scores as [|x r]; [contradiction|].
  exists v. eexists. eexists.
  split; [exact Hv|]. split; [reflexivity|]. split; [reflexivity|].
  unfold write_row. rewrite Hg, Hv. reflexivity.
Qed.

Lemma write_row_utt_id64 m d k row :
  write_row m d k = Ok row -> utt_id row = k.
Proof.
  unfold write_row. destruct (Dict.get k d) as [scores|]; [|discriminate].
  destruct (aggregate m scores) as [[v|]|]; [| |discriminate];
    (destruct (Np64.amin scores); [|discriminate]);
    (destruct (Np64.amax scores); [|discriminate]);
    cbn [bind]; [|discriminate].
  intro E. injection E as <-. reflexivity.
Qed.

Lemma for_each_utt_ids64 m d ks : forall rows,
  for_each (write_row m d) ks = Ok rows -> map utt_id rows = ks.
Proof.
  induction ks as [|k ks IH]; intros rows E; cbn [for_each] in E.
  - injection E as <-. reflexivity.
  - destruct (write_row m d k) as [row|] eqn:Er; [|discriminate].
    destruct (for_each (write_row m d) ks) as [rs|]; [|discriminate].
    cbn [bind] in E. injection E as <-. cbn [map].
    rewrite (write_row_utt_id64 _ _ _ _ Er), (IH rs eq_refl). reflexivity.
Qed.

(** A row depends on the dictionary through the group of its id only. *)
Lemma write_row_group m d k scores :
  Dict.get k d = Some scores ->
  write_row m d k = write_row m [(k, scores)] k.
Proof.
  intro Hg. unfold write_row. rewrite Hg. cbn [Dict.get].
  now rewrite String.eqb_refl.
Qed.

Lemma main_unfold64 `{Runtime64} mo m lines :
  AggML.get_args mo = Ok m ->
  main mo lines =
    if existsb (fun l => is_bad (parse l)) lines then Raise ValueError
    else
      let d := build (records lines) Dict.empty in
      for_each (write_row m d) (Str.sorted (Dict.keys d)).
Proof.
  intro Hm. unfold main. rewrite Hm. cbn [bind].
  rewrite Reader64Facts.read_lines_parse64.
  destruct (existsb _ lines); reflexivity.
Qed.

Lemma sorted_keys_In64 `{Runtime64} lines k :
  In k (Str.sorted (Dict.keys (build (records lines) Dict.empty))) ->
  values_of k (records lines) <> [] /\
  Dict.get k (build (records lines) Dict.empty)
    = Some (values_of k (records lines)).
Proof.
  intro Hin.
  apply (Permutation_in _ (SortFacts.sorted_str_perm _)) in Hin.
  apply Reader64Facts.keys_build_In64 in Hin. split; [exact Hin|].
  rewrite Reader64Facts.get_build_empty64.
  destruct (values_of k (records lines)); [congruence | reflexivity].
Qed.

(** The least and the greatest of the same numbers in another order are
    equal. *)
Lemma spans_perm a a' lo hi lo' hi' :
  Permutation a a' -> spans a lo hi -> spans a' lo' hi' ->
  (lo =? lo')%float = true /\ (hi =? hi')%float = true.
Proof.
  intros HP [Hlo [Hhi Hall]] [Hlo' [Hhi' Hall']].
  rewrite Forall_forall in Hall, Hall'.
  pose proof (Permutation_in _ HP Hlo) as H1.
  pose proof (Permutation_in _ HP Hhi) as H2.
  pose proof (Permutation_in _ (Permutation_sym HP) Hlo') as H3.
  pose proof (Permutation_in _ (Permutation_sym HP) Hhi') as H4.
  split; apply leb_antisym.
  - apply (Hall _ H3).
  - apply (Hall' _ H1).
  - apply (Hall' _ H2).
  - apply (Hall _ H4).
Qed.

Lemma same_number_refl x : same_number x x.
Proof.
  unfold same_number. destruct (F64.number x) eqn:E.
  - left. now apply eqb_refl.
  - right. rewrite is_nan_number, E. now split.
Qed.

(** The aggregate of the same numbers in another order, under every
    method but the mean. *)
Lemma aggregate_regrouped m a a' v v' lo hi lo' hi' :
  In m AggML.choices -> m <> "mean" ->
  Permutation a a' -> numbers a ->
  Np64.amin a = Ok lo -> Np64.amax a = Ok hi ->
  Np64.amin a' = Ok lo' -> Np64.amax a' = Ok hi' ->
  (lo =? lo')%float = true -> (hi =? hi')%float = true ->
  aggregate m a = Ok (Some v) -> aggregate m a' = Ok (Some v') ->
  same_number v v'.
Proof.
  intros Hin Hm HP Hnum Hlo Hhi Hlo' Hhi' Elo Ehi.
  unfold aggregate.
  destruct Hin as [<- | [<- | [<- | [<- | []]]]];
    cbn [String.eqb Ascii.eqb Bool.eqb].
  - congruence.
  - intros E E'. injection E as <-. injection E' as <-.
    rewrite (Median64Facts.median_perm64 a a' HP Hnum).
    apply same_number_refl.
  - rewrite Hlo, Hlo'. cbn [bind]. intros E E'.
    injection E as <-. injection E' as <-. now left.
  - rewrite Hhi, Hhi'. cbn [bind]. intros E E'.
    injection E as <-. injection E' as <-. now left.
Qed.

(** Two rows made of the same scores in two orders. *)
Lemma rows_regrouped mo m k values values' :
  AggML.get_args mo = Ok m ->
  Permutation values values' -> values <> [] ->
  exists row row',
    write_row m [(k, values)] k = Ok row /\
    write_row m [(k, values')] k = Ok row' /\
    regrouped mo row row'.
Proof.
  intros Hm HP Hne.
  assert (Hne' : values' <> []).
  { intros ->. apply Permutation_sym, Permutation_nil in HP. contradiction. }
  pose proof (AggMLFacts.ml_get_args_ok mo m Hm) as Hin.
  assert (Hg : forall vs : list float, Dict.get k [(k, vs)] = Some vs)
    by (intro vs; cbn [Dict.get]; now rewrite String.eqb_refl).
  destruct (write_row_ok64 m _ k values Hin (Hg values) Hne)
    as [v [mn [mx [Hv [Hmn [Hmx Hrow]]]]]].
  destruct (write_row_ok64 m _ k values' Hin (Hg values') Hne')
    as [v' [mn' [mx' [Hv' [Hmn' [Hmx' Hrow']]]]]].
  eexists. eexists. split; [exact Hrow|]. split; [exact Hrow'|].
  split; [reflexivity|]. split; [apply (Permutation_length HP)|].
  exists m, values, values'. cbn [utt_id min_score max_score agg_score].
  split; [exact Hm|]. split; [exact HP|].
  split; [exact Hrow|]. split; [exact Hrow'|].
  intro Hnum.
  assert (Hnum' : numbers values')
    by (unfold numbers in *; now rewrite <- HP).
  destruct (Np64Facts.amin_amax values Hne Hnum) as [lo [hi [E1 [E2 Hs]]]].
  destruct (Np64Facts.amin_amax values' Hne' Hnum')
    as [lo' [hi' [E1' [E2' Hs']]]].
  assert (mn = lo) by congruence. assert (mx = hi) by congruence.
  assert (mn' = lo') by congruence. assert (mx' = hi') by congruence.
  subst. destruct (spans_perm _ _ _ _ _ _ HP Hs Hs') as [Elo Ehi].
  split; [exact Elo|]. split; [exact Ehi|]. intro Hmean.
  exact (aggregate_regrouped m values values' v v' lo hi lo' hi'
           Hin Hmean HP Hnum E1 E2 E1' E2' Elo Ehi Hv Hv').
Qed.

Lemma for_each_regrouped mo m d d' ks :
  AggML.get_args mo = Ok m ->
  (forall k, In k ks ->
     exists values values',
       Dict.get k d = Some values /\ Dict.get k d' = Some values' /\
       Permutation values values' /\ values <> []) ->
  Flat.same_outcome (Forall2 (regrouped mo))
    (for_each (write_row m d) ks) (for_each (write_row m d') ks).
Proof.
  intro Hm. induction ks as [|k ks IH]; intro Hall; cbn [for_each].
  - constructor.
  - destruct (Hall k (or_introl eq_refl))
      as [values [values' [Hg [Hg' [HP Hne]]]]].
    destruct (rows_regrouped mo m k values values' Hm HP Hne)
      as [row [row' [Hr [Hr' Hreg]]]].
    rewrite (write_row_group m d k values Hg), Hr.
    rewrite (write_row_group m d' k values' Hg'), Hr'. cbn [bind].
    assert (IH' := IH (fun k' Hk' => Hall k' (or_intror Hk'))).
    destruct (for_each (write_row m d) ks) as [rs|e],
             (for_each (write_row m d') ks) as [rs'|e'];
      cbn [Flat.same_outcome] in IH'; try contradiction;
      cbn [bind Flat.same_outcome].
    + now constructor.
    + exact IH'.
Qed.

(** C9 (as amended).  Reordering the lines of the input leaves the
    grouping as it is: the run ends with the same exception, or it writes
    rows for the same utterance ids, in the same order and with the same
    phone counts, each made of the same scores up to their order, with a
    minimum and a maximum that are equal when no score is NaN; and the
    ids of the rows are strictly increasing in the lexicographic order of
    strings, whatever the order in which the ids were first met. *)
Theorem grouping_invariant_under_line_order (rt : Runtime64)
    mo lines lines' :
  Permutation lines lines' ->
  Flat.same_outcome (Forall2 (regrouped mo))
    (main mo lines) (main mo lines') /\
  (forall rows, main mo lines = Ok rows ->
     StronglySorted (fun a b => String.ltb a b = true) (map utt_id rows)).
Proof.
  intro HP. destruct (AggML.get_args mo) as [m|e] eqn:Hm.
  2:{ unfold main. rewrite Hm. split; [reflexivity | discriminate]. }
  rewrite !(main_unfold64 mo m _ Hm).
  rewrite <- (ReaderFacts.existsb_perm _ _ _ HP).
  destruct (existsb _ lines); [split; [reflexivity | discriminate]|].
  cbv zeta.
  pose proof (Reader64Facts.records_perm64 _ _ HP) as HR.
  rewrite <- (SortFacts.sorted_str_perm_eq _ _
                (Reader64Facts.keys_build_perm64 _ _ HR)).
  split.
  - apply (for_each_regrouped mo m _ _ _ Hm). intros k Hk.
    destruct (sorted_keys_In64 lines k Hk) as [Hne Hg].
    pose proof (Reader64Facts.values_of_perm64 k _ _ HR) as Hv.
    exists (values_of k (records lines)), (values_of k (records lines')).
    split; [exact Hg|]. split; [|split; [exact Hv | exact Hne]].
    rewrite Reader64Facts.get_build_empty64.
    destruct (values_of k (records lines')) eqn:E; [|reflexivity].
    apply Permutation_sym, Permutation_nil in Hv. contradiction.
  - intros rows Hrows. rewrite (for_each_utt_ids64 _ _ _ _ Hrows).
    apply AggMLFacts.sorted_strict.
    + apply AggMLFacts.sorted_keys_NoDup,
        Reader64Facts.keys_build_NoDup64. constructor.
    + apply SortFacts.sorted_str_sorted.
Qed.

Lemma grouping_invariant_under_line_order_witness :
  Permutation Sample64.mixed_lines (rev Sample64.mixed_lines) /\
  Flat.same_outcome (Forall2 (regrouped (Some "mean")))
    (@main Plain64.runtime (Some "mean") Sample64.mixed_lines)
    (@main Plain64.runtime (Some "mean") (rev Sample64.mixed_lines)).
Proof.
  split; [apply Permutation_rev|].
  apply (grouping_invariant_under_line_order Plain64.runtime).
  apply Permutation_rev.
Defined.

(** C9 (the claim as stated fails).  The same three lines read in two
    orders give two different output files: the mean is printed as
    -0.3668 for one order and as -0.3667 for the other. *)
Lemma sum_order_changes_the_output :
  @written Plain64.runtime (Some "mean") Sample64.mixed_lines
    = Ok [Sample.tabbed
            ["utt1"; "-0.3668"; "3"; "-2.3700"; "1.2700"; "1.5085"]
          ++ Sample.newline] /\
  @written Plain64.runtime (Some "mean") (rev Sample64.mixed_lines)
    = Ok [Sample.tabbed
            ["utt1"; "-0.3667"; "3"; "-2.3700"; "1.2700"; "1.5085"]
          ++ Sample.newline] /\
  ~ order_invariant Plain64.runtime.
Proof.
  split; [vm_compute; reflexivity|]. split; [vm_compute; reflexivity|].
  intro H.
  specialize (H (Some "mean") Sample64.mixed_lines
                (rev Sample64.mixed_lines) (Permutation_rev _)).
  vm_compute in H. discriminate H.
Qed.

End AggML64Facts.

(** ** The aggregate and the group, on binary64 floats *)

Module Aggregators64.

Import Group64 F64Facts.
Local Open Scope string_scope.

Lemma ltb_not_eqb x y : (x <? y)%float = true -> (y =? x)%float = false.
Proof.
  rewrite ltb_spec, eqb_spec. unfold SFltb, SFeqb.
  rewrite (Binary64Facts.sf_compare_antisym (Prim2SF x) (Prim2SF y)).
  now destruct (SFcompare (Prim2SF x) (Prim2SF y)) as [[| |]|].
Qed.

Lemma utt_aggregate_ok m values :
  In m AggUtt.choices -> values <> [] ->
  exists v, AggUtt64.aggregate m values = Ok v.
Proof.
  intros Hin Hne. unfold AggUtt64.aggregate.
  destruct values as [|x r]; [contradiction|].
  destruct Hin as [<- | [<- | [<- | [<- | []]]]];
    cbn [String.eqb Ascii.eqb Bool.eqb]; try (eexists; reflexivity).
  unfold Py64.gt, Np64.average.
  destruct (0 <? Np64.sum (Np64.absolute (x :: r)))%float eqn:E;
    [|eexists; reflexivity].
  rewrite (ltb_not_eqb _ _ E). eexists. reflexivity.
Qed.

(** The aggregate of a method that picks a value of the group lies
    between the least and the greatest value. *)
Lemma picked_between values lo hi :
  values <> [] -> numbers values -> spans values lo hi ->
  (Nat.odd (length values) = true ->
   between lo (Np64.median values) hi) /\
  (length values = 1%nat -> between lo (Np64.mean values) hi) /\
  between lo lo hi /\ between lo hi hi.
Proof.
  intros Hne Hnum Hs.
  assert (Hin : forall x, In x values -> between lo x hi)
    by (intros x Hx; exact (Np64Facts.spans_between _ _ _ _ Hs Hx)).
  split; [|split; [|split]].
  - intro Hodd. destruct (Np64Facts.median_odd64 values Hnum Hodd)
      as [x [Hx He]].
    exact (Np64Facts.between_eqb _ _ _ x He (Hin x Hx)).
  - intro H1. destruct values as [|x [|y r]]; try discriminate.
    apply (Np64Facts.between_eqb _ _ _ x).
    + apply Np64Facts.mean_one64. exact (Forall_inv Hnum).
    + apply Hin. now left.
  - apply Hin. now destruct Hs.
  - apply Hin. now destruct Hs as [_ [H _]].
Qed.




End Aggregators64.
